(** * Payment-instruction parser: a shallow embedding of
      [src/services/payment-processor/parse-instruction.js]

    Strings are Rocq [string]s of 8-bit characters, read as ASCII text:
    the JavaScript string primitives the source calls ([toLowerCase],
    [toUpperCase], [includes], [split], [trim], [parseInt]) are given
    their ECMAScript meaning on the ASCII range; characters above 127 are
    left untouched by the case maps and are not white space, and a
    statement that depends on what the runtime does with such characters
    is restricted to ASCII text by a hypothesis.

    Amounts and balances are JavaScript Numbers, that is IEEE 754
    doubles ([number]): [NaN], the two infinities and the finite doubles.
    Every finite double is an integer multiple of 2^-1074 and is given by
    that integer; a sum or a difference is computed exactly and rounded
    to the nearest double, ties to even, overflowing to an infinity.  The
    two zeros are not told apart: the source never divides, and no
    comparison of it distinguishes them.

    Array indices are [Z], so that the source's [-1] for "not found" and
    its [index + 1] arithmetic are kept as written.  A JavaScript [throw]
    is the [Err] branch of [result].

    What the module takes from its environment is a [Host]: the clock
    behind [new Date()], the offset of the local time zone, and the
    implementation-defined part of [new Date(string)].

    The functions are given twice: over values (lists of account
    records), which is what most statements are about, and over a store
    of objects, which is what the statement about the caller's [accounts]
    array needs; the two are proved to agree. *)

From Stdlib Require Import String Ascii List ZArith Lia Bool.
Import ListNotations.
Local Open Scope string_scope.
Local Open Scope Z_scope.

Set Implicit Arguments.

(** ** Failures *)

(** The keys of [PaymentMessages] the source refers to. *)
Inductive PaymentMessage : Type :=
| MALFORMED_INSTRUCTION
| INVALID_KEYWORD_ORDER
| INVALID_AMOUNT
| UNSUPPORTED_CURRENCY
| MISSING_KEYWORD
| INVALID_ACCOUNT_ID
| SAME_ACCOUNT_ERROR
| ACCOUNT_NOT_FOUND
| CURRENCY_MISMATCH
| INSUFFICIENT_FUNDS
| INVALID_DATE_FORMAT
| TRANSACTION_SUCCESSFUL
| TRANSACTION_PENDING.

Inductive ErrorCode : Type := INVLDDATA.

(** What a call can throw: the typed application error built by
    [throwAppError], or the runtime's own [TypeError] (reading a property
    of [undefined]). *)
Inductive failure : Type :=
| AppError (message : PaymentMessage) (code : ErrorCode)
| TypeError.

Inductive result (A : Type) : Type :=
| Ok (value : A)
| Err (e : failure).

Arguments Ok {A} value.
Arguments Err {A} e.

Definition bind {A B : Type} (r : result A) (k : A -> result B) : result B :=
  match r with
  | Ok a => k a
  | Err e => Err e
  end.

Notation "x <- c ;; k" := (bind c (fun x => k))
  (at level 61, c at next level, right associativity).
Notation "c ;;; k" := (bind c (fun _ => k))
  (at level 61, right associativity).

(** Modelled from the spec: [throwAppError] of [@app-core/errors] is not
    among the sources; section 7 of the specification says every failure
    is raised immediately as a typed condition carrying a message and a
    code. *)
Definition throwAppError {A : Type} (m : PaymentMessage) (c : ErrorCode) : result A :=
  Err (AppError m c).

(** [if (cond) throwAppError(m, c);] *)
Definition throwIf (cond : bool) (m : PaymentMessage) (c : ErrorCode) : result unit :=
  if cond then throwAppError m c else Ok tt.

(** ** String primitives *)

Definition isUpperAscii (c : ascii) : bool :=
  let n := nat_of_ascii c in (Nat.leb 65 n && Nat.leb n 90)%bool.

Definition isLowerAscii (c : ascii) : bool :=
  let n := nat_of_ascii c in (Nat.leb 97 n && Nat.leb n 122)%bool.

Definition isDigit (c : ascii) : bool :=
  let n := nat_of_ascii c in (Nat.leb 48 n && Nat.leb n 57)%bool.

Definition lowerChar (c : ascii) : ascii :=
  if isUpperAscii c then ascii_of_nat (nat_of_ascii c + 32) else c.

Definition upperChar (c : ascii) : ascii :=
  if isLowerAscii c then ascii_of_nat (nat_of_ascii c - 32) else c.

Fixpoint mapString (f : ascii -> ascii) (s : string) : string :=
  match s with
  | EmptyString => EmptyString
  | String c r => String (f c) (mapString f r)
  end.

(** [s.toLowerCase()] and [s.toUpperCase()] on ASCII text: the 26
    letters are mapped and every other character is kept.  On other text
    the runtime's maps do more (U+017F is uppercased to [S], for one),
    which the 8-bit strings of the model do not represent. *)
Definition toLowerCase : string -> string := mapString lowerChar.
Definition toUpperCase : string -> string := mapString upperChar.

Fixpoint startsWith (s p : string) {struct p} : bool :=
  match p, s with
  | EmptyString, _ => true
  | String _ _, EmptyString => false
  | String a p', String b s' => (Ascii.eqb a b && startsWith s' p')%bool
  end.

(** [s.includes(sub)] *)
Fixpoint includes (s sub : string) : bool :=
  (startsWith s sub ||
   match s with
   | EmptyString => false
   | String _ r => includes r sub
   end)%bool.

(** JavaScript white space and line terminators, on the ASCII range:
    TAB, LF, VT, FF, CR and SPACE. *)
Definition isWhiteSpace (c : ascii) : bool :=
  let n := nat_of_ascii c in
  (Nat.leb 9 n && Nat.leb n 13 || Nat.eqb n 32)%bool.

Fixpoint trimStart (s : string) : string :=
  match s with
  | EmptyString => EmptyString
  | String c r => if isWhiteSpace c then trimStart r else s
  end.

Fixpoint trimEnd (s : string) : string :=
  match s with
  | EmptyString => EmptyString
  | String c r =>
      match trimEnd r with
      | EmptyString => if isWhiteSpace c then EmptyString else String c EmptyString
      | r' => String c r'
      end
  end.

(** [s.trim()] on ASCII text; the runtime also strips the white space
    that is not ASCII (U+00A0, U+FEFF, U+2028 and the like). *)
Definition trim (s : string) : string := trimEnd (trimStart s).

(** [s.split(' ')]: the pieces between single spaces, empty pieces kept. *)
Fixpoint split_space (s : string) : list string :=
  match s with
  | EmptyString => [EmptyString]
  | String c r =>
      if Ascii.eqb c " "%char then EmptyString :: split_space r
      else match split_space r with
           | [] => [String c EmptyString]
           | w :: ws => String c w :: ws
           end
  end.

(** [instruction.split(' ').filter((word) => word.length > 0)] *)
Definition tokenize (instruction : string) : list string :=
  filter (fun word => Nat.ltb 0 (String.length word)) (split_space instruction).

(** [words[i]]: [None] is [undefined]. *)
Definition at_index (words : list string) (i : Z) : option string :=
  if i <? 0 then None else nth_error words (Z.to_nat i).

(** A value used as a condition: [undefined], [null] and the empty string
    are falsy. *)
Definition truthy (o : option string) : bool :=
  match o with
  | Some (String _ _) => true
  | _ => false
  end.

(** ** Numbers

    The finite double of value [n * 2^-1074] is [Finite n].  Not every
    integer [n] stands for a double: those do that have at most 53
    significant bits and lie below [2^2098] in magnitude (the value
    [2^1024]); [roundDouble] sends any [n] to the nearest of them. *)

Inductive number : Type :=
| NaN
| Infinity (negative : bool)
| Finite (n : Z).

(** [m / 2^s] rounded to the nearest integer, ties to the even one
    ([0 <= m], [0 < s]). *)
Definition roundToEven (m s : Z) : Z :=
  let q := Z.shiftr m s in
  let r := m - Z.shiftl q s in
  let half := Z.shiftl 1 (s - 1) in
  if r <? half then q
  else if half <? r then q + 1
  else if Z.even q then q else q + 1.

(** The nearest magnitude with at most 53 significant bits. *)
Definition roundMagnitude (m : Z) : Z :=
  let excess := Z.log2 m + 1 - 53 in
  if 0 <? excess then Z.shiftl (roundToEven m excess) excess else m.

(** The Number nearest to the real [n * 2^-1074]. *)
Definition roundDouble (n : Z) : number :=
  let m := roundMagnitude (Z.abs n) in
  if Z.shiftl 1 2098 <=? m then Infinity (n <? 0)
  else Finite (if n <? 0 then - m else m).

(** The Number for the integer [k] (the Number value of a numeric
    literal or of a parsed integer). *)
Definition num (k : Z) : number := roundDouble (Z.shiftl k 1074).

(** [a + b] *)
Definition jsAdd (a b : number) : number :=
  match a, b with
  | NaN, _ | _, NaN => NaN
  | Infinity s, Infinity t => if Bool.eqb s t then Infinity s else NaN
  | Infinity s, Finite _ => Infinity s
  | Finite _, Infinity t => Infinity t
  | Finite x, Finite y => roundDouble (x + y)
  end.

(** [a - b] *)
Definition jsSub (a b : number) : number :=
  match a, b with
  | NaN, _ | _, NaN => NaN
  | Infinity s, Infinity t => if Bool.eqb s t then NaN else Infinity s
  | Infinity s, Finite _ => Infinity s
  | Finite _, Infinity t => Infinity (negb t)
  | Finite x, Finite y => roundDouble (x - y)
  end.

(** [a < b]: [false] when either side is [NaN]. *)
Definition jsLt (a b : number) : bool :=
  match a, b with
  | NaN, _ | _, NaN => false
  | Infinity s, Infinity t => (s && negb t)%bool
  | Infinity s, Finite _ => s
  | Finite _, Infinity t => negb t
  | Finite x, Finite y => x <? y
  end.

(** [a <= b]: [false] when either side is [NaN]. *)
Definition jsLe (a b : number) : bool :=
  match a, b with
  | NaN, _ | _, NaN => false
  | Infinity s, Infinity t => (s || negb t)%bool
  | Infinity s, Finite _ => s
  | Finite _, Infinity t => negb t
  | Finite x, Finite y => x <=? y
  end.

(** [Number.isNaN(a)] *)
Definition isNaN (a : number) : bool :=
  match a with
  | NaN => true
  | _ => false
  end.

(** ** [parseInt(x, 10)] *)

Definition digitValue (c : ascii) : Z := Z.of_nat (nat_of_ascii c) - 48.

(** Value of the longest prefix of decimal digits, given the value [acc]
    of the digits read so far. *)
Fixpoint digitsPrefix (s : string) (acc : Z) : Z :=
  match s with
  | String c r => if isDigit c then digitsPrefix r (10 * acc + digitValue c) else acc
  | EmptyString => acc
  end.

Definition startsWithDigit (s : string) : bool :=
  match s with
  | String c _ => isDigit c
  | EmptyString => false
  end.

(** [parseInt(x, 10)]: leading white space is skipped, a sign is read,
    then the longest run of decimal digits, and the result is the Number
    nearest to the integer so written; what follows the digits is
    ignored, and without a digit the result is [NaN].  [undefined] is
    first converted to the string ["undefined"], which has no digits.
    (For more than 20 significant digits ECMAScript lets an
    implementation read the digits after the 20th as zeros; like V8, the
    model reads them all.) *)
Definition parseInt (x : option string) : number :=
  match x with
  | None => NaN
  | Some s =>
      let t := trimStart s in
      let '(sign, body) :=
        match t with
        | String "-"%char r => (-1, r)
        | String "+"%char r => (1, r)
        | _ => (1, t)
        end in
      if startsWithDigit body then num (sign * digitsPrefix body 0) else NaN
  end.

(** [Number.isNaN(amount) || amount <= 0] *)
Definition invalidAmount (amount : number) : bool :=
  (isNaN amount || jsLe amount (num 0))%bool.

(** ** Constants of the module *)

Definition SUPPORTED_CURRENCIES : list string := ["NGN"; "USD"; "GBP"; "GHS"].

Definition VALID_ACCOUNT_CHARS : string :=
  "abcdefghijklmnopqrstuvwxyzABCDEFGHIJKLMNOPQRSTUVWXYZ0123456789-_.@".

(** [array.includes(x)] on an array of strings. *)
Definition array_includes (xs : list string) (x : string) : bool :=
  existsb (String.eqb x) xs.

(** ** [findKeywordIndex] *)

(** The loop [for (i = ...; i < words.length; i += 1)], running over the
    words that remain, [i] being the index of the first of them. *)
Fixpoint findKeywordLoop (rest : list string) (keyword : string) (i : Z) : Z :=
  match rest with
  | [] => -1
  | w :: rest' =>
      if String.eqb (toLowerCase w) (toLowerCase keyword) then i
      else findKeywordLoop rest' keyword (i + 1)
  end.

(** Every call of the source passes a start index that is at least 0. *)
Definition findKeywordIndex (words : list string) (keyword : string) (startIndex : Z) : Z :=
  findKeywordLoop (skipn (Z.to_nat startIndex) words) keyword startIndex.

(** ** [isValidAccountId] *)

Fixpoint charIn (c : ascii) (s : string) : bool :=
  match s with
  | EmptyString => false
  | String d r => (Ascii.eqb c d || charIn c r)%bool
  end.

Fixpoint allValidChars (s : string) : bool :=
  match s with
  | EmptyString => true
  | String c r => if charIn c VALID_ACCOUNT_CHARS then allValidChars r else false
  end.

(** On a string: the loop returns [false] at the first character outside
    [VALID_ACCOUNT_CHARS], and otherwise [accountId.length > 0]. *)
Definition isValidAccountIdStr (accountId : string) : bool :=
  if allValidChars accountId then Nat.ltb 0 (String.length accountId) else false.

(** The argument may be [undefined] (a missing token); reading [.length]
    of it throws a [TypeError]. *)
Definition isValidAccountId (accountId : option string) : result bool :=
  match accountId with
  | None => Err TypeError
  | Some s => Ok (isValidAccountIdStr s)
  end.

(** ** The canonical instruction *)

Inductive InstructionType : Type := DEBIT | CREDIT.

(** The object both structured parsers return.  [debit_account] and
    [credit_account] are [words[...]] reads and may be [undefined]
    ([None]); [execute_by] is a token or [null] ([None]). *)
Record ParsedInstruction : Type := mkParsed {
  type : InstructionType;
  amount : number;
  currency : string;
  debit_account : option string;
  credit_account : option string;
  execute_by : option string
}.

(** [const amount = parseInt(amountStr, 10);
     if (Number.isNaN(amount) || amount <= 0) throwAppError(INVALID_AMOUNT, ...)] *)
Definition checkedAmount (amountStr : option string) : result number :=
  let amount := parseInt amountStr in
  if invalidAmount amount then throwAppError INVALID_AMOUNT INVLDDATA else Ok amount.

(** [const currency = words[k]?.toUpperCase();
     if (!currency || !SUPPORTED_CURRENCIES.includes(currency)) throwAppError(UNSUPPORTED_CURRENCY, ...)] *)
Definition checkedCurrency (word : option string) : result string :=
  let currency := option_map toUpperCase word in
  match currency with
  | Some c =>
      if (negb (truthy currency) || negb (array_includes SUPPORTED_CURRENCIES c))%bool
      then throwAppError UNSUPPORTED_CURRENCY INVLDDATA
      else Ok c
  | None => throwAppError UNSUPPORTED_CURRENCY INVLDDATA
  end.

(** [words[k]?.toLowerCase() !== 'account'] *)
Definition notAccountKeyword (word : option string) : bool :=
  match option_map toLowerCase word with
  | Some w => negb (String.eqb w "account")
  | None => true
  end.

(** [const onIndex = findKeywordIndex(words, 'on'); let executeBy = null;
     if (onIndex !== -1 && words[onIndex + 1]) executeBy = words[onIndex + 1];] *)
Definition executeByOf (words : list string) : option string :=
  let onIndex := findKeywordIndex words "on" 0 in
  if (negb (onIndex =? -1) && truthy (at_index words (onIndex + 1)))%bool
  then at_index words (onIndex + 1)
  else None.

Definition parseDebitFormat (words : list string) : result ParsedInstruction :=
  let debitIndex := findKeywordIndex words "debit" 0 in
  let fromIndex := findKeywordIndex words "from" 0 in
  let accountIndexAfterFrom := fromIndex + 1 in
  let forIndex := findKeywordIndex words "for" 0 in
  let creditIndex := forIndex + 1 in
  let toIndex := findKeywordIndex words "to" creditIndex in
  let accountIndexAfterTo := toIndex + 1 in
  throwIf ((debitIndex =? -1) || (fromIndex =? -1) || (forIndex =? -1) ||
           (creditIndex =? -1) || (toIndex =? -1))%bool
          INVALID_KEYWORD_ORDER INVLDDATA ;;;
  amount <- checkedAmount (at_index words (debitIndex + 1)) ;;
  currency <- checkedCurrency (at_index words (debitIndex + 2)) ;;
  throwIf (notAccountKeyword (at_index words accountIndexAfterFrom))
          MISSING_KEYWORD INVLDDATA ;;;
  let debitAccount := at_index words (accountIndexAfterFrom + 1) in
  throwIf (notAccountKeyword (at_index words accountIndexAfterTo))
          MISSING_KEYWORD INVLDDATA ;;;
  let creditAccount := at_index words (accountIndexAfterTo + 1) in
  let executeBy := executeByOf words in
  Ok {| type := DEBIT;
        amount := amount;
        currency := currency;
        debit_account := debitAccount;
        credit_account := creditAccount;
        execute_by := executeBy |}.

Definition parseCreditFormat (words : list string) : result ParsedInstruction :=
  let creditIndex := findKeywordIndex words "credit" 0 in
  let toIndex := findKeywordIndex words "to" 0 in
  let accountIndexAfterTo := toIndex + 1 in
  let forIndex := findKeywordIndex words "for" 0 in
  let debitIndex := forIndex + 1 in
  let fromIndex := findKeywordIndex words "from" debitIndex in
  let accountIndexAfterFrom := fromIndex + 1 in
  throwIf ((creditIndex =? -1) || (toIndex =? -1) || (forIndex =? -1) ||
           (debitIndex =? -1) || (fromIndex =? -1))%bool
          INVALID_KEYWORD_ORDER INVLDDATA ;;;
  amount <- checkedAmount (at_index words (creditIndex + 1)) ;;
  currency <- checkedCurrency (at_index words (creditIndex + 2)) ;;
  throwIf (notAccountKeyword (at_index words accountIndexAfterTo))
          MISSING_KEYWORD INVLDDATA ;;;
  let creditAccount := at_index words (accountIndexAfterTo + 1) in
  throwIf (notAccountKeyword (at_index words accountIndexAfterFrom))
          MISSING_KEYWORD INVLDDATA ;;;
  let debitAccount := at_index words (accountIndexAfterFrom + 1) in
  let executeBy := executeByOf words in
  Ok {| type := CREDIT;
        amount := amount;
        currency := currency;
        debit_account := debitAccount;
        credit_account := creditAccount;
        execute_by := executeBy |}.

(** ** [parseInstructionText]: tokenizer and format detector *)

(** The three-phrase containment test for the DEBIT surface form. *)
Definition looksLikeDebit (lowerInstruction : string) : bool :=
  (includes lowerInstruction "debit" &&
   includes lowerInstruction "from account" &&
   includes lowerInstruction "for credit to account")%bool.

(** The three-phrase containment test for the CREDIT surface form. *)
Definition looksLikeCredit (lowerInstruction : string) : bool :=
  (includes lowerInstruction "credit" &&
   includes lowerInstruction "to account" &&
   includes lowerInstruction "for debit from account")%bool.

Definition parseInstructionText (instruction : string) : result ParsedInstruction :=
  let words := tokenize instruction in
  let lowerInstruction := toLowerCase instruction in
  if looksLikeDebit lowerInstruction then parseDebitFormat words
  else if looksLikeCredit lowerInstruction then parseCreditFormat words
  else throwAppError MALFORMED_INSTRUCTION INVLDDATA.

(** ** Dates

    A [Date] object is its time value: milliseconds since the epoch, or
    [None] for an invalid date ([NaN]).  The calendar arithmetic is the
    proleptic Gregorian one of ECMAScript ([Day], [YearFromTime],
    [MonthFromTime], [DateFromTime], [MakeDay]), computed by era of 400
    years.  Range clipping of time values (years beyond +-275760) is left
    out: a four-digit year is far inside the range. *)

Definition msPerDay : Z := 86400000.

(** [Day(t)] *)
Definition Day (t : Z) : Z := t / msPerDay.

(** Day number of the civil date [y]-[m]-[d], month counted from 1. *)
Definition days_from_civil (y m d : Z) : Z :=
  let y' := if m <=? 2 then y - 1 else y in
  let era := y' / 400 in
  let yoe := y' - era * 400 in
  let doy := (153 * (if 2 <? m then m - 3 else m + 9) + 2) / 5 + d - 1 in
  let doe := yoe * 365 + yoe / 4 - yoe / 100 + doy in
  era * 146097 + doe - 719468.

(** Civil date (year, month from 1, day of month) of a day number. *)
Definition civil_from_days (z : Z) : Z * Z * Z :=
  let z' := z + 719468 in
  let era := z' / 146097 in
  let doe := z' - era * 146097 in
  let yoe := (doe - doe / 1460 + doe / 36524 - doe / 146096) / 365 in
  let y := yoe + era * 400 in
  let doy := doe - (365 * yoe + yoe / 4 - yoe / 100) in
  let mp := (5 * doy + 2) / 153 in
  let d := doy - (153 * mp + 2) / 5 + 1 in
  let m := if mp <? 10 then mp + 3 else mp - 9 in
  ((if m <=? 2 then y + 1 else y), m, d).

Definition isLeapYear (y : Z) : bool :=
  ((y mod 4 =? 0) && (negb (y mod 100 =? 0) || (y mod 400 =? 0)))%bool.

Definition daysInMonth (y m : Z) : Z :=
  if m =? 2 then (if isLeapYear y then 29 else 28)
  else if ((m =? 4) || (m =? 6) || (m =? 9) || (m =? 11))%bool then 30
  else 31.

(** The host the module runs in: the clock read by [new Date()], the
    offset of the local time zone from UTC in milliseconds (taken
    constant: no daylight-saving changes), and what [new Date(string)]
    makes of a string that is not a calendar date written [YYYY-MM-DD]
    (ECMAScript leaves that to the implementation). *)
Record Host : Type := mkHost {
  now : Z;
  LocalTZA : Z;
  hostDateParse : string -> option Z
}.

(** [/^\d{4}-\d{2}-\d{2}$/.test(s)] *)
Definition dateRegex_test (s : string) : bool :=
  match s with
  | String y1 (String y2 (String y3 (String y4 (String h1
      (String m1 (String m2 (String h2 (String d1 (String d2 EmptyString))))))))) =>
      (isDigit y1 && isDigit y2 && isDigit y3 && isDigit y4 &&
       Ascii.eqb h1 "-"%char &&
       isDigit m1 && isDigit m2 &&
       Ascii.eqb h2 "-"%char &&
       isDigit d1 && isDigit d2)%bool
  | _ => false
  end.

(** The year, month and day written by a string of the form [YYYY-MM-DD],
    when they name a day of the calendar. *)
Definition isoDateOnly (s : string) : option (Z * Z * Z) :=
  if dateRegex_test s then
    let y := digitsPrefix (substring 0 4 s) 0 in
    let m := digitsPrefix (substring 5 2 s) 0 in
    let d := digitsPrefix (substring 8 2 s) 0 in
    if ((1 <=? m) && (m <=? 12) && (1 <=? d) && (d <=? daysInMonth y m))%bool
    then Some (y, m, d) else None
  else None.

(** [new Date(s)]: a date-only ISO string is midnight UTC of that day. *)
Definition Date_parse (h : Host) (s : string) : option Z :=
  match isoDateOnly s with
  | Some (y, m, d) => Some (msPerDay * days_from_civil y m d)
  | None => hostDateParse h s
  end.

(** [LocalTime(t)] *)
Definition LocalTime (h : Host) (t : Z) : Z := t + LocalTZA h.

Definition getFullYear (h : Host) (t : Z) : Z :=
  let '(y, _, _) := civil_from_days (Day (LocalTime h t)) in y.

(** Months are counted from 0 by [getMonth]. *)
Definition getMonth (h : Host) (t : Z) : Z :=
  let '(_, m, _) := civil_from_days (Day (LocalTime h t)) in m - 1.

Definition getDate (h : Host) (t : Z) : Z :=
  let '(_, _, d) := civil_from_days (Day (LocalTime h t)) in d.

(** [new Date(year, month, date)]: local midnight of that day; a year
    from 0 to 99 stands for 1900 + year. *)
Definition newDateYMD (h : Host) (year month date : Z) : Z :=
  let yr := if ((0 <=? year) && (year <=? 99))%bool then 1900 + year else year in
  msPerDay * days_from_civil yr (month + 1) date - LocalTZA h.

(** [new Date(d.getFullYear(), d.getMonth(), d.getDate())] *)
Definition dateOnly (h : Host) (d : option Z) : option Z :=
  option_map (fun t => newDateYMD h (getFullYear h t) (getMonth h t) (getDate h t)) d.

(** [a <= b] on dates: a comparison with [NaN] is [false]. *)
Definition date_le (a b : option Z) : bool :=
  match a, b with
  | Some x, Some y => x <=? y
  | _, _ => false
  end.

(** ** [shouldExecuteNow] *)

Definition shouldExecuteNow (h : Host) (executeBy : option string) : bool :=
  if negb (truthy executeBy) then true
  else
    match executeBy with
    | None => true
    | Some s =>
        let transactionDate := Date_parse h s in
        let today := Some (now h) in
        let transactionDateOnly := dateOnly h transactionDate in
        let todayOnly := dateOnly h today in
        date_le transactionDateOnly todayOnly
    end.

(** ** Accounts, projected accounts and the response *)

Module Account.
Record t : Type := make {
  id : string;
  balance : number;
  currency : string
}.
End Account.

Module Projected.
Record t : Type := make {
  id : string;
  balance : number;
  balance_before : number;
  currency : string
}.
End Projected.

Module Response.
Record t : Type := make {
  type : InstructionType;
  amount : number;
  currency : string;
  debit_account : option string;
  credit_account : option string;
  execute_by : option string;
  status : string;
  status_reason : PaymentMessage;
  status_code : string;
  accounts : list Projected.t
}.
End Response.

Record ServiceData : Type := mkServiceData {
  accounts : list Account.t;
  instruction : string
}.

(** [account.id === ref], where [ref] is a field of the parsed
    instruction and may be [undefined]. *)
Definition sameId (id : string) (ref : option string) : bool :=
  match ref with
  | Some s => String.eqb id s
  | None => false
  end.

(** [a === b] on two values that are strings or [undefined]. *)
Definition strictEq (a b : option string) : bool :=
  match a, b with
  | Some x, Some y => String.eqb x y
  | None, None => true
  | _, _ => false
  end.

(** [accounts.find((acc) => acc.id === ref)] *)
Definition findAccount (accounts : list Account.t) (ref : option string) : option Account.t :=
  find (fun acc => sameId (Account.id acc) ref) accounts.

(** [if (!account) throwAppError(ACCOUNT_NOT_FOUND, ...)] *)
Definition found (account : option Account.t) : result Account.t :=
  match account with
  | Some a => Ok a
  | None => throwAppError ACCOUNT_NOT_FOUND INVLDDATA
  end.

(** The block guarded by [if (parsed.execute_by)]. *)
Definition validateExecuteBy (h : Host) (executeBy : option string) : result unit :=
  if truthy executeBy then
    match executeBy with
    | Some s =>
        let date := Date_parse h s in
        throwIf (match date with None => true | Some _ => false end)
                INVALID_DATE_FORMAT INVLDDATA ;;;
        throwIf (negb (dateRegex_test s)) INVALID_DATE_FORMAT INVLDDATA
    | None => Ok tt
    end
  else Ok tt.

(** ** [validateParsedData] *)

Definition validateParsedData (h : Host) (parsed : ParsedInstruction)
    (accounts : list Account.t) : result unit :=
  validDebit <- isValidAccountId (debit_account parsed) ;;
  throwIf (negb validDebit) INVALID_ACCOUNT_ID INVLDDATA ;;;
  validCredit <- isValidAccountId (credit_account parsed) ;;
  throwIf (negb validCredit) INVALID_ACCOUNT_ID INVLDDATA ;;;
  throwIf (strictEq (debit_account parsed) (credit_account parsed))
          SAME_ACCOUNT_ERROR INVLDDATA ;;;
  let debitAccount := findAccount accounts (debit_account parsed) in
  let creditAccount := findAccount accounts (credit_account parsed) in
  debitAccount <- found debitAccount ;;
  creditAccount <- found creditAccount ;;
  throwIf (negb (String.eqb (toUpperCase (Account.currency debitAccount)) (currency parsed)))
          CURRENCY_MISMATCH INVLDDATA ;;;
  throwIf (negb (String.eqb (toUpperCase (Account.currency creditAccount)) (currency parsed)))
          CURRENCY_MISMATCH INVLDDATA ;;;
  throwIf (jsLt (Account.balance debitAccount) (amount parsed))
          INSUFFICIENT_FUNDS INVLDDATA ;;;
  validateExecuteBy h (execute_by parsed).

(** ** [processAccounts] *)

(** The body of the [forEach] callback: what it pushes onto [result]. *)
Definition processAccount (parsed : ParsedInstruction) (shouldExecute : bool)
    (result : list Projected.t) (account : Account.t) : list Projected.t :=
  if (sameId (Account.id account) (debit_account parsed) ||
      sameId (Account.id account) (credit_account parsed))%bool
  then
    let balanceBefore := Account.balance account in
    let balanceAfter :=
      if shouldExecute then
        if sameId (Account.id account) (debit_account parsed)
        then jsSub balanceBefore (amount parsed)
        else if sameId (Account.id account) (credit_account parsed)
        then jsAdd balanceBefore (amount parsed)
        else balanceBefore
      else balanceBefore in
    result ++ [ {| Projected.id := Account.id account;
                   Projected.balance := balanceAfter;
                   Projected.balance_before := balanceBefore;
                   Projected.currency := toUpperCase (Account.currency account) |} ]
  else result.

Definition processAccounts (accounts : list Account.t) (parsed : ParsedInstruction)
    (shouldExecute : bool) : list Projected.t :=
  fold_left (processAccount parsed shouldExecute) accounts [].

(** ** [parseInstruction]

    [validator.validate(serviceData, parsedSpec)] is the schema check of
    the request envelope, a precondition here: [data] is the request. *)
Definition parseInstruction (h : Host) (serviceData : ServiceData) : result Response.t :=
  let data := serviceData in
  let instruction := trim (instruction data) in
  let accounts := accounts data in
  parsed <- parseInstructionText instruction ;;
  validateParsedData h parsed accounts ;;;
  let shouldExecute := shouldExecuteNow h (execute_by parsed) in
  let processedAccounts := processAccounts accounts parsed shouldExecute in
  Ok {| Response.type := type parsed;
        Response.amount := amount parsed;
        Response.currency := currency parsed;
        Response.debit_account := debit_account parsed;
        Response.credit_account := credit_account parsed;
        Response.execute_by := execute_by parsed;
        Response.status := if shouldExecute then "successful" else "pending";
        Response.status_reason :=
          if shouldExecute then TRANSACTION_SUCCESSFUL else TRANSACTION_PENDING;
        Response.status_code := if shouldExecute then "AP00" else "AP02";
        Response.accounts := processedAccounts |}.

(** ** The same functions over a store of objects

    To speak about what a call does to its arguments, the request's
    [accounts] array and the account objects in it are placed in a store:
    a location is a position in the list of allocated objects, allocation
    appends, and [push] overwrites the array object it is called on.  The
    functions below are the ones above, with every property read, object
    literal and [push] of the source made explicit. *)

Definition loc : Type := nat.

Inductive object : Type :=
| ObjAccount (a : Account.t)
| ObjProjected (p : Projected.t)
| ObjArray (elems : list loc).

Definition store : Type := list object.

(** A computation that may throw and may change the store. *)
Definition M (A : Type) : Type := store -> store * result A.

Definition retM {A : Type} (a : A) : M A := fun s => (s, Ok a).

Definition bindM {A B : Type} (m : M A) (k : A -> M B) : M B :=
  fun s =>
    match m s with
    | (s', Ok a) => k a s'
    | (s', Err e) => (s', Err e)
    end.

(** A step that does not touch the store. *)
Definition liftM {A : Type} (r : result A) : M A := fun s => (s, r).

Notation "x <-- c ;; k" := (bindM c (fun x => k))
  (at level 61, c at next level, right associativity).

Fixpoint set_nth (s : store) (l : loc) (o : object) : store :=
  match s, l with
  | [], _ => []
  | _ :: r, O => o :: r
  | x :: r, S l' => x :: set_nth r l' o
  end.

(** An object or array literal: a new object at a new location. *)
Definition alloc (o : object) : M loc :=
  fun s => ((s ++ [o])%list, Ok (List.length s)).

(** Reading the properties of an account object.  The request schema
    makes every element of [accounts] such an object; anything else is
    outside the precondition and ends the computation. *)
Definition readAccount (l : loc) : M Account.t :=
  fun s =>
    match nth_error s l with
    | Some (ObjAccount a) => (s, Ok a)
    | _ => (s, Err TypeError)
    end.

Definition readArray (l : loc) : M (list loc) :=
  fun s =>
    match nth_error s l with
    | Some (ObjArray elems) => (s, Ok elems)
    | _ => (s, Err TypeError)
    end.

(** [arr.push(x)] *)
Definition push (arr : loc) (x : loc) : M unit :=
  fun s =>
    match nth_error s arr with
    | Some (ObjArray elems) => (set_nth s arr (ObjArray (elems ++ [x])%list), Ok tt)
    | _ => (s, Err TypeError)
    end.

(** [elems.forEach(f)] *)
Fixpoint forEachM (f : loc -> M unit) (elems : list loc) : M unit :=
  match elems with
  | [] => retM tt
  | l :: rest => _ <-- f l ;; forEachM f rest
  end.

(** [accounts.find((acc) => acc.id === ref)], the array given by its
    elements. *)
Fixpoint findAccountM (elems : list loc) (ref : option string) : M (option Account.t) :=
  match elems with
  | [] => retM None
  | l :: rest =>
      acc <-- readAccount l ;;
      if sameId (Account.id acc) ref then retM (Some acc) else findAccountM rest ref
  end.

Definition validateParsedDataM (h : Host) (parsed : ParsedInstruction)
    (accounts : loc) : M unit :=
  validDebit <-- liftM (isValidAccountId (debit_account parsed)) ;;
  _ <-- liftM (throwIf (negb validDebit) INVALID_ACCOUNT_ID INVLDDATA) ;;
  validCredit <-- liftM (isValidAccountId (credit_account parsed)) ;;
  _ <-- liftM (throwIf (negb validCredit) INVALID_ACCOUNT_ID INVLDDATA) ;;
  _ <-- liftM (throwIf (strictEq (debit_account parsed) (credit_account parsed))
                       SAME_ACCOUNT_ERROR INVLDDATA) ;;
  elems <-- readArray accounts ;;
  debitAccount <-- findAccountM elems (debit_account parsed) ;;
  creditAccount <-- findAccountM elems (credit_account parsed) ;;
  debitAccount <-- liftM (found debitAccount) ;;
  creditAccount <-- liftM (found creditAccount) ;;
  _ <-- liftM (throwIf (negb (String.eqb (toUpperCase (Account.currency debitAccount))
                                         (currency parsed)))
                       CURRENCY_MISMATCH INVLDDATA) ;;
  _ <-- liftM (throwIf (negb (String.eqb (toUpperCase (Account.currency creditAccount))
                                         (currency parsed)))
                       CURRENCY_MISMATCH INVLDDATA) ;;
  _ <-- liftM (throwIf (jsLt (Account.balance debitAccount) (amount parsed))
                       INSUFFICIENT_FUNDS INVLDDATA) ;;
  liftM (validateExecuteBy h (execute_by parsed)).

(** The [forEach] callback of [processAccounts]; [result] is the array
    created by [const result = []]. *)
Definition processAccountM (parsed : ParsedInstruction) (shouldExecute : bool)
    (result : loc) (l : loc) : M unit :=
  account <-- readAccount l ;;
  if (sameId (Account.id account) (debit_account parsed) ||
      sameId (Account.id account) (credit_account parsed))%bool
  then
    let balanceBefore := Account.balance account in
    let balanceAfter :=
      if shouldExecute then
        if sameId (Account.id account) (debit_account parsed)
        then jsSub balanceBefore (amount parsed)
        else if sameId (Account.id account) (credit_account parsed)
        then jsAdd balanceBefore (amount parsed)
        else balanceBefore
      else balanceBefore in
    o <-- alloc (ObjProjected
                   {| Projected.id := Account.id account;
                      Projected.balance := balanceAfter;
                      Projected.balance_before := balanceBefore;
                      Projected.currency := toUpperCase (Account.currency account) |}) ;;
    push result o
  else retM tt.

Definition processAccountsM (accounts : loc) (parsed : ParsedInstruction)
    (shouldExecute : bool) : M loc :=
  result <-- alloc (ObjArray []) ;;
  elems <-- readArray accounts ;;
  _ <-- forEachM (processAccountM parsed shouldExecute result) elems ;;
  retM result.

(** The response object, its [accounts] property a reference to the array
    built by [processAccounts]. *)
Module ResponseObj.
Record t : Type := make {
  type : InstructionType;
  amount : number;
  currency : string;
  debit_account : option string;
  credit_account : option string;
  execute_by : option string;
  status : string;
  status_reason : PaymentMessage;
  status_code : string;
  accounts : loc
}.
End ResponseObj.

(** [parseInstruction], the request given by its instruction text and the
    location of its [accounts] array. *)
Definition parseInstructionM (h : Host) (accounts : loc) (instruction : string)
    : M ResponseObj.t :=
  let instruction := trim instruction in
  parsed <-- liftM (parseInstructionText instruction) ;;
  _ <-- validateParsedDataM h parsed accounts ;;
  let shouldExecute := shouldExecuteNow h (execute_by parsed) in
  processedAccounts <-- processAccountsM accounts parsed shouldExecute ;;
  retM {| ResponseObj.type := type parsed;
          ResponseObj.amount := amount parsed;
          ResponseObj.currency := currency parsed;
          ResponseObj.debit_account := debit_account parsed;
          ResponseObj.credit_account := credit_account parsed;
          ResponseObj.execute_by := execute_by parsed;
          ResponseObj.status := if shouldExecute then "successful" else "pending";
          ResponseObj.status_reason :=
            if shouldExecute then TRANSACTION_SUCCESSFUL else TRANSACTION_PENDING;
          ResponseObj.status_code := if shouldExecute then "AP00" else "AP02";
          ResponseObj.accounts := processedAccounts |}.

(** Reading a store back: the account objects an array refers to, and the
    projected accounts an array refers to. *)
Fixpoint readAccounts (s : store) (elems : list loc) : option (list Account.t) :=
  match elems with
  | [] => Some []
  | l :: rest =>
      match nth_error s l, readAccounts s rest with
      | Some (ObjAccount a), Some accs => Some (a :: accs)
      | _, _ => None
      end
  end.

Definition snapshot (s : store) (accounts : loc) : option (list Account.t) :=
  match nth_error s accounts with
  | Some (ObjArray elems) => readAccounts s elems
  | _ => None
  end.

Fixpoint readProjecteds (s : store) (elems : list loc) : option (list Projected.t) :=
  match elems with
  | [] => Some []
  | l :: rest =>
      match nth_error s l, readProjecteds s rest with
      | Some (ObjProjected p), Some ps => Some (p :: ps)
      | _, _ => None
      end
  end.

Definition readProjectedArray (s : store) (arr : loc) : option (list Projected.t) :=
  match nth_error s arr with
  | Some (ObjArray elems) => readProjecteds s elems
  | _ => None
  end.

Definition readResponse (s : store) (r : ResponseObj.t) : option Response.t :=
  match readProjectedArray s (ResponseObj.accounts r) with
  | Some ps =>
      Some {| Response.type := ResponseObj.type r;
              Response.amount := ResponseObj.amount r;
              Response.currency := ResponseObj.currency r;
              Response.debit_account := ResponseObj.debit_account r;
              Response.credit_account := ResponseObj.credit_account r;
              Response.execute_by := ResponseObj.execute_by r;
              Response.status := ResponseObj.status r;
              Response.status_reason := ResponseObj.status_reason r;
              Response.status_code := ResponseObj.status_code r;
              Response.accounts := ps |}
  | None => None
  end.

(** ** Vocabulary of the statements *)

(** The account is one of the two the instruction names. *)
Definition referenced (debit credit : option string) (account : Account.t) : bool :=
  (sameId (Account.id account) debit || sameId (Account.id account) credit)%bool.

(** The record [processAccounts] pushes for a referenced account. *)
Definition project (parsed : ParsedInstruction) (shouldExecute : bool)
    (account : Account.t) : Projected.t :=
  {| Projected.id := Account.id account;
     Projected.balance :=
       if shouldExecute then
         if sameId (Account.id account) (debit_account parsed)
         then jsSub (Account.balance account) (amount parsed)
         else if sameId (Account.id account) (credit_account parsed)
         then jsAdd (Account.balance account) (amount parsed)
         else Account.balance account
       else Account.balance account;
     Projected.balance_before := Account.balance account;
     Projected.currency := toUpperCase (Account.currency account) |}.

(** The instruction with its [execute_by] field cleared. *)
Definition withoutExecuteBy (parsed : ParsedInstruction) : ParsedInstruction :=
  {| type := type parsed;
     amount := amount parsed;
     currency := currency parsed;
     debit_account := debit_account parsed;
     credit_account := credit_account parsed;
     execute_by := None |}.

(** The validator's rules in the order of section 4.5 of the
    specification, for an instruction whose account ids are [debit] and
    [credit]: each rule is the test that it is violated, with the failure
    it reports.  The rules on an account's currency and balance have
    nothing to test when the account does not exist. *)
Definition nineRules (h : Host) (parsed : ParsedInstruction) (debit credit : string)
    (accounts : list Account.t) : list (bool * PaymentMessage) :=
  let debitAccount := findAccount accounts (Some debit) in
  let creditAccount := findAccount accounts (Some credit) in
  [ (negb (isValidAccountIdStr debit), INVALID_ACCOUNT_ID);
    (negb (isValidAccountIdStr credit), INVALID_ACCOUNT_ID);
    (String.eqb debit credit, SAME_ACCOUNT_ERROR);
    (match debitAccount with Some _ => false | None => true end, ACCOUNT_NOT_FOUND);
    (match creditAccount with Some _ => false | None => true end, ACCOUNT_NOT_FOUND);
    (match debitAccount with
     | Some a => negb (String.eqb (toUpperCase (Account.currency a)) (currency parsed))
     | None => false
     end, CURRENCY_MISMATCH);
    (match creditAccount with
     | Some a => negb (String.eqb (toUpperCase (Account.currency a)) (currency parsed))
     | None => false
     end, CURRENCY_MISMATCH);
    (match debitAccount with
     | Some a => jsLt (Account.balance a) (amount parsed)
     | None => false
     end, INSUFFICIENT_FUNDS);
    (match execute_by parsed with
     | Some (String _ _ as s) =>
         negb (match Date_parse h s with Some _ => true | None => false end
               && dateRegex_test s)
     | _ => false
     end, INVALID_DATE_FORMAT) ].

(** Fail-fast evaluation of a list of rules: the failure of the first
    violated one, the later ones not looked at. *)
Fixpoint reportFirst (rules : list (bool * PaymentMessage)) : result unit :=
  match rules with
  | [] => Ok tt
  | (violated, m) :: rest =>
      if violated then Err (AppError m INVLDDATA) else reportFirst rest
  end.

(** What a successful validation establishes.  The funds rule is the
    source's test [debitAccount.balance < parsed.amount] not holding. *)
Record Validated (h : Host) (parsed : ParsedInstruction) (accounts : list Account.t)
    (debit credit : string) (debitAccount creditAccount : Account.t) : Prop := {
  v_debit : debit_account parsed = Some debit;
  v_credit : credit_account parsed = Some credit;
  v_debit_id : isValidAccountIdStr debit = true;
  v_credit_id : isValidAccountIdStr credit = true;
  v_distinct : debit <> credit;
  v_debit_found : findAccount accounts (Some debit) = Some debitAccount;
  v_credit_found : findAccount accounts (Some credit) = Some creditAccount;
  v_debit_currency : toUpperCase (Account.currency debitAccount) = currency parsed;
  v_credit_currency : toUpperCase (Account.currency creditAccount) = currency parsed;
  v_funds : jsLt (Account.balance debitAccount) (amount parsed) = false;
  v_date : validateExecuteBy h (execute_by parsed) = Ok tt
}.

(** ** Inputs used in the examples *)

(** Noon UTC of 1 November 2026, in a process running on UTC. *)
Definition host_utc : Host :=
  {| now := msPerDay * days_from_civil 2026 11 1 + 12 * 3600000;
     LocalTZA := 0;
     hostDateParse := fun _ => None |}.

(** Noon local time of 31 December 2098, in a process whose zone is five
    hours west of UTC (17:00 UTC). *)
Definition host_west : Host :=
  {| now := msPerDay * days_from_civil 2098 12 31 + 17 * 3600000;
     LocalTZA := - (5 * 3600000);
     hostDateParse := fun _ => None |}.

(** The accounts of the specification's example. *)
Definition example_accounts : list Account.t :=
  [ {| Account.id := "A001"; Account.balance := num 1000; Account.currency := "NGN" |};
    {| Account.id := "B002"; Account.balance := num 200; Account.currency := "NGN" |} ].

Definition example_instruction : string :=
  "Debit 500 NGN from Account A001 for credit to Account B002".

(** The same accounts in a store, with the array that refers to them. *)
Definition example_store : store :=
  [ ObjAccount {| Account.id := "A001"; Account.balance := num 1000; Account.currency := "NGN" |};
    ObjAccount {| Account.id := "B002"; Account.balance := num 200; Account.currency := "NGN" |};
    ObjArray [0%nat; 1%nat] ].

(** The token at index [j] is the keyword, compared case-insensitively. *)
Definition matchesKeyword (words : list string) (keyword : string) (j : Z) : Prop :=
  exists w, at_index words j = Some w /\ toLowerCase w = toLowerCase keyword.

(** [i] is what a search for the first match at or after [start] must
    return: the least matching index from [start] on, or [-1] when no
    index from [start] on matches. *)
Definition FirstMatchFrom (words : list string) (keyword : string) (start i : Z) : Prop :=
  (i = -1 /\ forall j, start <= j -> ~ matchesKeyword words keyword j) \/
  (start <= i /\ matchesKeyword words keyword i /\
   forall j, start <= j < i -> ~ matchesKeyword words keyword j).

(** The four lookups of [parseDebitFormat], and of [parseCreditFormat],
    all find their keyword. *)
Definition debitAnchorsFound (words : list string) : Prop :=
  findKeywordIndex words "debit" 0 <> -1 /\
  findKeywordIndex words "from" 0 <> -1 /\
  findKeywordIndex words "for" 0 <> -1 /\
  findKeywordIndex words "to" (findKeywordIndex words "for" 0 + 1) <> -1.

Definition creditAnchorsFound (words : list string) : Prop :=
  findKeywordIndex words "credit" 0 <> -1 /\
  findKeywordIndex words "to" 0 <> -1 /\
  findKeywordIndex words "for" 0 <> -1 /\
  findKeywordIndex words "from" (findKeywordIndex words "for" 0 + 1) <> -1.

(** An instruction naming the same, malformed, account id twice. *)
Definition same_malformed_id : ParsedInstruction :=
  {| type := DEBIT; amount := num 500; currency := "NGN";
     debit_account := Some "A#"; credit_account := Some "A#";
     execute_by := None |}.

(** An instruction naming the same, well-formed, account id twice. *)
Definition same_wellformed_id : ParsedInstruction :=
  {| type := DEBIT; amount := num 500; currency := "NGN";
     debit_account := Some "A001"; credit_account := Some "A001";
     execute_by := None |}.

(** The anchors of the DEBIT form in another order: the account clauses
    first, the [debit] clause last. *)
Definition reordered_words : list string :=
  ["from"; "Account"; "A001"; "for"; "credit"; "to"; "Account"; "B002";
   "Debit"; "500"; "NGN"].

(** A host whose [Date] constructor accepts every string it is given
    (as some instant), to exercise the pattern test on its own. *)
Definition host_lenient : Host :=
  {| now := msPerDay * days_from_civil 2026 11 1 + 12 * 3600000;
     LocalTZA := 0;
     hostDateParse := fun _ => Some 0 |}.

(** The example instruction deferred to [date]. *)
Definition example_deferred (date : string) : ParsedInstruction :=
  {| type := DEBIT; amount := num 500; currency := "NGN";
     debit_account := Some "A001"; credit_account := Some "B002";
     execute_by := Some date |}.

(** An instruction that carries the phrases of both surface forms. *)
Definition both_forms_instruction : string :=
  "Debit 500 NGN from Account A001 for credit to Account B002 for debit from Account C003".

(** The example accounts with a second entry for the id ["A001"]. *)
Definition duplicated_accounts : list Account.t :=
  [ {| Account.id := "A001"; Account.balance := num 1000; Account.currency := "NGN" |};
    {| Account.id := "A001"; Account.balance := num 50; Account.currency := "NGN" |};
    {| Account.id := "B002"; Account.balance := num 200; Account.currency := "NGN" |} ].

(** Every object of [s] is still there, unchanged, in [s']. *)
Definition preserved (s s' : store) : Prop :=
  forall l o, nth_error s l = Some o -> nth_error s' l = Some o.

(** From [s] to [s'] the store has only grown, and of the objects of [s]
    none but the one at [r] has changed. *)
Definition changesOnly (r : loc) (s s' : store) : Prop :=
  (length s <= length s')%nat /\
  forall l, (l < length s)%nat -> l <> r -> nth_error s' l = nth_error s l.

(** The object at [r] is an array whose elements were all allocated
    after [r]. *)
Definition arrayOfLater (r : loc) (s : store) : Prop :=
  exists elems, nth_error s r = Some (ObjArray elems) /\
                forall e, In e elems -> (r < e)%nat.

(** The outcome [r] of a run over the store agrees with the outcome
    [pure] of the run over the values: the same failure, or a response
    object that reads back from [s'] as the same response. *)
Definition agrees (s' : store) (r : result ResponseObj.t) (pure : result Response.t) : Prop :=
  match pure with
  | Ok response => exists obj, r = Ok obj /\ readResponse s' obj = Some response
  | Err e => r = Err e
  end.

(** The local calendar day of the clock, as a day number. *)
Definition localToday (h : Host) : Z := Day (LocalTime h (now h)).

(** The two halves of the calendar conversions that work inside one era
    of 400 years (146097 days): the day of the era of a date, and the
    year of the era, month and day of a day of the era. *)
Definition doe_of (yoe m d : Z) : Z :=
  let doy := (153 * (if 2 <? m then m - 3 else m + 9) + 2) / 5 + d - 1 in
  yoe * 365 + yoe / 4 - yoe / 100 + doy.

Definition civil_of_doe (doe : Z) : Z * Z * Z :=
  let yoe := (doe - doe / 1460 + doe / 36524 - doe / 146096) / 365 in
  let doy := doe - (365 * yoe + yoe / 4 - yoe / 100) in
  let mp := (5 * doy + 2) / 153 in
  let d := doy - (153 * mp + 2) / 5 + 1 in
  let m := if mp <? 10 then mp + 3 else mp - 9 in
  (yoe, m, d).

(** The DEBIT sentence of the specification's example, for an amount, a
    currency and two account ids. *)
Definition canonicalDebitText (amt cur debit credit : string) : string :=
  "Debit " ++ amt ++ " " ++ cur ++ " from Account " ++ debit ++
  " for credit to Account " ++ credit.

(** Every character of the string passes the test. *)
Fixpoint allChars (p : ascii -> bool) (s : string) : bool :=
  match s with
  | EmptyString => true
  | String c r => (p c && allChars p r)%bool
  end.

(** A non-empty string of decimal digits, and the number it writes. *)
Definition isDecimal (s : string) : bool :=
  (startsWithDigit s && allChars isDigit s)%bool.

Definition decimalValue (s : string) : Z := digitsPrefix s 0.

Definition notSpace (c : ascii) : bool := negb (Ascii.eqb c " "%char).

(** ** The request handler

    The handler registered for [POST /payment-instructions].  The
    constants [helpers.http_statuses.HTTP_400_BAD_REQUEST] and
    [helpers.http_statuses.HTTP_200_OK] are not among the sources and are
    taken as they come, as two fields of [helpers]. *)
Record HttpStatuses : Type := mkHttpStatuses {
  HTTP_400_BAD_REQUEST : Z;
  HTTP_200_OK : Z
}.

Module Reply.
Record t : Type := make {
  status : Z;
  data : Response.t
}.
End Reply.

(** [async handler(rc, helpers)], [payload] being [rc.body]: a failure of
    [parseInstruction] is not caught here. *)
Definition handler (h : Host) (helpers : HttpStatuses) (payload : ServiceData)
    : result Reply.t :=
  response <- parseInstruction h payload ;;
  let statusCode :=
    if String.eqb (Response.status response) "failed"
    then HTTP_400_BAD_REQUEST helpers
    else HTTP_200_OK helpers in
  Ok {| Reply.status := statusCode; Reply.data := response |}.

(** ** Further vocabulary *)

(** The CREDIT sentence that says what [canonicalDebitText] says. *)
Definition canonicalCreditText (amt cur debit credit : string) : string :=
  "Credit " ++ amt ++ " " ++ cur ++ " to Account " ++ credit ++
  " for debit from Account " ++ debit.

(** The characters of account ids, by class: ASCII letters, digits and
    the four signs [-], [_], [.], [@]. *)
Definition isAccountIdChar (c : ascii) : bool :=
  (isLowerAscii c || isUpperAscii c || isDigit c ||
   Ascii.eqb c "-"%char || Ascii.eqb c "_"%char ||
   Ascii.eqb c "."%char || Ascii.eqb c "@"%char)%bool.

(** Sum of a list of balances. *)
Definition total (balances : list Z) : Z := fold_right Z.add 0 balances.

(** The supplied account ids are pairwise distinct. *)
Definition distinctIds (accounts : list Account.t) : Prop :=
  NoDup (map Account.id accounts).

(** [!currency || !SUPPORTED_CURRENCIES.includes(currency)], on the token
    read as currency. *)
Definition unsupportedCurrency (word : option string) : bool :=
  match word with
  | Some c => negb (array_includes SUPPORTED_CURRENCIES (toUpperCase c))
  | None => true
  end.

(** The typed failures of the parser and of the validator. *)
Definition failureMessages : list PaymentMessage :=
  [ MALFORMED_INSTRUCTION; INVALID_KEYWORD_ORDER; INVALID_AMOUNT;
    UNSUPPORTED_CURRENCY; MISSING_KEYWORD; INVALID_ACCOUNT_ID;
    SAME_ACCOUNT_ERROR; ACCOUNT_NOT_FOUND; CURRENCY_MISMATCH;
    INSUFFICIENT_FUNDS; INVALID_DATE_FORMAT ].

(** A response with its [type] field replaced. *)
Definition retyped (t : InstructionType) (response : Response.t) : Response.t :=
  {| Response.type := t;
     Response.amount := Response.amount response;
     Response.currency := Response.currency response;
     Response.debit_account := Response.debit_account response;
     Response.credit_account := Response.credit_account response;
     Response.execute_by := Response.execute_by response;
     Response.status := Response.status response;
     Response.status_reason := Response.status_reason response;
     Response.status_code := Response.status_code response;
     Response.accounts := Response.accounts response |}.

(** ** Vocabulary on numbers and amounts *)

(** The Number is finite: neither [NaN] nor an infinity. *)
Definition isFinite (a : number) : bool :=
  match a with
  | Finite _ => true
  | _ => false
  end.

(** The Number is an integer. *)
Definition isInteger (a : number) : bool :=
  match a with
  | Finite n => n mod 2 ^ 1074 =? 0
  | _ => false
  end.

(** The integer written by a string of decimal digits, the most
    significant digit first. *)
Fixpoint numeral (digits : string) : Z :=
  match digits with
  | EmptyString => 0
  | String c r => digitValue c * 10 ^ Z.of_nat (String.length r) + numeral r
  end.

(** Text made of ASCII characters only. *)
Definition isAsciiText (s : string) : bool :=
  allChars (fun c => Nat.ltb (nat_of_ascii c) 128) s.




(** The example accounts, the credit account holding [2^53]. *)
Definition large_credit_accounts : list Account.t :=
  [ {| Account.id := "A001"; Account.balance := num 1000; Account.currency := "NGN" |};
    {| Account.id := "B002"; Account.balance := num 9007199254740992;
       Account.currency := "NGN" |} ].


(** The Number is the integer [k], of magnitude at most [2^53]: the
    range in which every integer is a Number and sums and differences
    that stay in it are exact. *)
Definition exactInteger (a : number) (k : Z) : Prop :=
  a = num k /\ - 2 ^ 53 <= k <= 2 ^ 53.

(** The integer part of a finite Number (its value when it is an
    integer). *)
Definition integerValue (a : number) : Z :=
  match a with
  | Finite n => n / 2 ^ 1074
  | _ => 0
  end.

(** The response to the specification's example. *)
Definition example_response : Response.t :=
  {| Response.type := DEBIT;
     Response.amount := num 500;
     Response.currency := "NGN";
     Response.debit_account := Some "A001";
     Response.credit_account := Some "B002";
     Response.execute_by := None;
     Response.status := "successful";
     Response.status_reason := TRANSACTION_SUCCESSFUL;
     Response.status_code := "AP00";
     Response.accounts :=
       [ {| Projected.id := "A001"; Projected.balance := num 500;
            Projected.balance_before := num 1000; Projected.currency := "NGN" |};
         {| Projected.id := "B002"; Projected.balance := num 700;
            Projected.balance_before := num 200; Projected.currency := "NGN" |} ] |}.

(** * Properties *)

(** ** Generalities *)

Arguments dateRegex_test : simpl never.
Arguments Date_parse : simpl never.
Arguments isValidAccountIdStr : simpl never.
Arguments toUpperCase : simpl never.
Arguments toLowerCase : simpl never.
Arguments findAccount : simpl never.
Arguments shouldExecuteNow : simpl never.
Arguments num : simpl never.
Arguments roundDouble : simpl never.

(** Case analysis on every test met along a run that is known to end in
    a given outcome. *)
Ltac case_steps H :=
  repeat match type of H with
         | context [if ?b then _ else _] => destruct b; cbn [bind] in H; try discriminate
         | context [match ?b with _ => _ end] => destruct b; cbn [bind] in H; try discriminate
         end.

Lemma bind_Ok_inv (A B : Type) (r : result A) (k : A -> result B) (b : B) :
  bind r k = Ok b -> exists a, r = Ok a /\ k a = Ok b.
Proof.
  destruct r as [a | e]; simpl; intros H; [exists a; auto | discriminate].
Qed.

(** Splitting a run that ends in [Ok] into its steps, each of which ended
    in [Ok]. *)
Ltac ok_steps H :=
  repeat (let x := fresh "x" in
          let Hx := fresh "Hstep" in
          apply bind_Ok_inv in H; destruct H as (x & Hx & H)).

Lemma sameId_true (id : string) (ref : option string) :
  sameId id ref = true <-> ref = Some id.
Proof.
  destruct ref as [s |]; simpl.
  - rewrite String.eqb_eq. split; intros; congruence.
  - split; intros; discriminate.
Qed.

(** ** Rounding to a Number *)

Lemma roundToEven_bounds (m s : Z) :
  0 <= m -> 0 < s ->
  m / 2 ^ s <= roundToEven m s <= m / 2 ^ s + 1.
Proof.
  intros Hm Hs. unfold roundToEven.
  rewrite Z.shiftr_div_pow2 by lia.
  destruct (_ <? _); [lia |].
  destruct (_ <? _); [lia |].
  destruct (Z.even _); lia.
Qed.

Lemma roundToEven_exact (q s : Z) :
  0 <= q -> 0 < s -> roundToEven (q * 2 ^ s) s = q.
Proof.
  intros Hq Hs. unfold roundToEven.
  rewrite Z.shiftr_div_pow2, Z.shiftl_mul_pow2 by lia.
  rewrite Z.div_mul by (apply Z.pow_nonzero; lia).
  rewrite Z.shiftl_mul_pow2 by lia.
  assert (0 < 2 ^ (s - 1)) by (apply Z.pow_pos_nonneg; lia).
  replace (q * 2 ^ s - q * 2 ^ s) with 0 by lia.
  destruct (0 <? 1 * 2 ^ (s - 1)) eqn:E; [reflexivity |].
  apply Z.ltb_ge in E. lia.
Qed.

Lemma roundMagnitude_nonneg (m : Z) : 0 <= m -> 0 <= roundMagnitude m.
Proof.
  intros Hm. unfold roundMagnitude.
  destruct (0 <? Z.log2 m + 1 - 53) eqn:E; [| assumption].
  apply Z.ltb_lt in E. apply Z.shiftl_nonneg.
  pose proof (roundToEven_bounds Hm E).
  assert (0 <= m / 2 ^ (Z.log2 m + 1 - 53)) by (apply Z.div_pos; [lia | apply Z.pow_pos_nonneg; lia]).
  lia.
Qed.

Lemma roundMagnitude_pos (m : Z) : 0 < m -> 0 < roundMagnitude m.
Proof.
  intros Hm. unfold roundMagnitude.
  destruct (0 <? Z.log2 m + 1 - 53) eqn:E; [| assumption].
  apply Z.ltb_lt in E.
  rewrite Z.shiftl_mul_pow2 by lia.
  assert (Hp : 0 < 2 ^ (Z.log2 m + 1 - 53)) by (apply Z.pow_pos_nonneg; lia).
  pose proof (roundToEven_bounds (Z.lt_le_incl _ _ Hm) E) as Hb.
  assert (1 <= m / 2 ^ (Z.log2 m + 1 - 53)).
  { apply Z.div_le_lower_bound; [assumption |].
    rewrite Z.mul_1_r.
    transitivity (2 ^ Z.log2 m); [apply Z.pow_le_mono_r; lia |].
    apply Z.log2_spec. assumption. }
  nia.
Qed.

(** A magnitude with at most 53 significant bits is its own rounding. *)
Lemma roundMagnitude_exact (q s : Z) :
  0 <= q <= 2 ^ 53 -> 0 <= s -> roundMagnitude (q * 2 ^ s) = q * 2 ^ s.
Proof.
  intros Hq Hs. unfold roundMagnitude.
  set (m := q * 2 ^ s).
  destruct (0 <? Z.log2 m + 1 - 53) eqn:E; [| reflexivity].
  apply Z.ltb_lt in E.
  assert (Hps : 0 < 2 ^ s) by (apply Z.pow_pos_nonneg; lia).
  assert (Hm : 0 < m).
  { destruct (Z.eq_dec q 0) as [-> | Hne]; [| subst m; nia].
    subst m. rewrite Z.mul_0_l in E. cbn in E. lia. }
  set (e := Z.log2 m + 1 - 53) in *.
  (* e <= s, or q = 2^53 and e = s + 1 *)
  assert (Hlog : Z.log2 m <= 53 + s).
  { rewrite <- (Z.log2_pow2 (53 + s)) by lia.
    apply Z.log2_le_mono. rewrite Z.pow_add_r by lia. subst m. nia. }
  destruct (Z.le_gt_cases e s) as [Hes | Hes].
  - replace m with ((q * 2 ^ (s - e)) * 2 ^ e).
    + assert (0 <= q * 2 ^ (s - e))
        by (apply Z.mul_nonneg_nonneg; [lia | apply Z.pow_nonneg; lia]).
      rewrite roundToEven_exact by lia.
      now rewrite Z.shiftl_mul_pow2 by lia.
    + subst m. rewrite <- Z.mul_assoc, <- Z.pow_add_r by lia. f_equal. f_equal. lia.
  - assert (He : e = s + 1) by lia.
    assert (Hq53 : q = 2 ^ 53).
    { destruct (Z.eq_dec q (2 ^ 53)) as [|Hne]; [assumption |]. exfalso.
      assert (Hlt : m < 2 ^ (53 + s)).
      { rewrite Z.pow_add_r by lia. subst m. nia. }
      apply Z.log2_lt_pow2 in Hlt; [| assumption]. lia. }
    replace m with (2 ^ 52 * 2 ^ e).
    + rewrite roundToEven_exact by lia.
      now rewrite Z.shiftl_mul_pow2 by lia.
    + subst m. rewrite Hq53, He, <- !Z.pow_add_r by lia. f_equal. lia.
Qed.

Lemma roundDouble_exact (q s : Z) :
  - 2 ^ 53 <= q <= 2 ^ 53 -> 0 <= s -> s + 53 < 2098 ->
  roundDouble (q * 2 ^ s) = Finite (q * 2 ^ s).
Proof.
  intros Hq Hs Hrange. unfold roundDouble.
  assert (Hps : 0 < 2 ^ s) by (apply Z.pow_pos_nonneg; lia).
  assert (Habs : Z.abs (q * 2 ^ s) = Z.abs q * 2 ^ s).
  { rewrite Z.abs_mul. f_equal. apply Z.abs_eq. lia. }
  rewrite Habs, roundMagnitude_exact by lia.
  assert (Hbound : Z.abs q * 2 ^ s < Z.shiftl 1 2098).
  { rewrite Z.shiftl_mul_pow2, Z.mul_1_l by lia.
    apply Z.le_lt_trans with (2 ^ 53 * 2 ^ s); [nia |].
    rewrite <- Z.pow_add_r by lia. apply Z.pow_lt_mono_r; lia. }
  apply Z.leb_gt in Hbound. rewrite Hbound.
  destruct (q * 2 ^ s <? 0) eqn:E; f_equal.
  - apply Z.ltb_lt in E. nia.
  - apply Z.ltb_ge in E. nia.
Qed.

(** Integers of magnitude at most [2^53] are Numbers. *)
Lemma num_exact (k : Z) :
  - 2 ^ 53 <= k <= 2 ^ 53 -> num k = Finite (k * 2 ^ 1074).
Proof.
  intros Hk. unfold num. rewrite Z.shiftl_mul_pow2 by lia.
  apply roundDouble_exact; lia.
Qed.

Lemma jsAdd_exact (a b : Z) :
  - 2 ^ 53 <= a <= 2 ^ 53 -> - 2 ^ 53 <= b <= 2 ^ 53 -> - 2 ^ 53 <= a + b <= 2 ^ 53 ->
  jsAdd (num a) (num b) = num (a + b).
Proof.
  intros Ha Hb Hab. rewrite !num_exact by assumption. cbn [jsAdd].
  rewrite <- Z.mul_add_distr_r. apply roundDouble_exact; lia.
Qed.

Lemma jsSub_exact (a b : Z) :
  - 2 ^ 53 <= a <= 2 ^ 53 -> - 2 ^ 53 <= b <= 2 ^ 53 -> - 2 ^ 53 <= a - b <= 2 ^ 53 ->
  jsSub (num a) (num b) = num (a - b).
Proof.
  intros Ha Hb Hab. rewrite !num_exact by assumption. cbn [jsSub].
  rewrite <- Z.mul_sub_distr_r. apply roundDouble_exact; lia.
Qed.

(** Rounding keeps the sign. *)
Lemma roundDouble_nonneg (n : Z) :
  0 <= n -> jsLe (Finite 0) (roundDouble n) = true.
Proof.
  intros Hn. unfold roundDouble.
  assert (E : (n <? 0) = false) by (apply Z.ltb_ge; lia). rewrite E.
  destruct (_ <=? _); [reflexivity |]. cbn [jsLe].
  apply Z.leb_le, roundMagnitude_nonneg. lia.
Qed.

Lemma roundDouble_pos (n : Z) :
  0 < n -> jsLt (Finite 0) (roundDouble n) = true.
Proof.
  intros Hn. unfold roundDouble.
  assert (E : (n <? 0) = false) by (apply Z.ltb_ge; lia). rewrite E.
  destruct (_ <=? _); [reflexivity |]. cbn [jsLt].
  apply Z.ltb_lt, roundMagnitude_pos. lia.
Qed.


Lemma num_zero : num 0 = Finite 0.
Proof. reflexivity. Qed.

Lemma shiftl_unit (k : Z) : Z.shiftl k 1074 = k * 2 ^ 1074.
Proof. apply Z.shiftl_mul_pow2. lia. Qed.

Lemma unit_pos : 0 < 2 ^ 1074.
Proof. apply Z.pow_pos_nonneg; lia. Qed.

(** A positive integer is read as a positive Number, and is a valid
    amount; zero and the negative integers are not. *)
Lemma num_pos (k : Z) : 0 < k -> jsLt (num 0) (num k) = true.
Proof.
  intros Hk. rewrite num_zero. unfold num. apply roundDouble_pos.
  rewrite shiftl_unit. pose proof unit_pos. nia.
Qed.

Lemma positive_valid (a : number) :
  jsLt (num 0) a = true -> invalidAmount a = false.
Proof.
  rewrite num_zero. unfold invalidAmount. rewrite num_zero.
  destruct a as [| [] | n]; cbn [jsLt jsLe isNaN orb negb]; try discriminate; try reflexivity.
  intros H. apply Z.ltb_lt in H. apply Z.leb_gt. lia.
Qed.

Lemma valid_positive (a : number) :
  invalidAmount a = false -> jsLt (num 0) a = true.
Proof.
  rewrite num_zero. unfold invalidAmount. rewrite num_zero.
  destruct a as [| [] | n]; cbn [jsLt jsLe isNaN orb negb]; try discriminate; try reflexivity.
  intros H. apply Z.leb_gt in H. apply Z.ltb_lt. lia.
Qed.

Lemma num_valid (k : Z) : 0 < k -> invalidAmount (num k) = false.
Proof. intros Hk. now apply positive_valid, num_pos. Qed.


(** Rounding at work: integers up to [2^53] are Numbers; beyond, only
    every second one is, then every fourth, and a tie goes to the even
    neighbour; from [2^1024 - 2^970] on the result is [Infinity]. *)
Example number_examples :
  jsSub (num 1000) (num 500) = num 500 /\
  jsAdd (num 9007199254740992) (num 1) = num 9007199254740992 /\
  jsAdd (num 9007199254740992) (num 2) = num 9007199254740994 /\
  num 9007199254740993 = num 9007199254740992 /\
  num 9007199254740995 = num 9007199254740996 /\
  jsAdd (num 9007199254740992) (num 3) = num 9007199254740996 /\
  isFinite (num (2 ^ 1024 - 2 ^ 970 - 1)) = true /\
  num (2 ^ 1024 - 2 ^ 970) = Infinity false /\
  jsSub (Infinity false) (Infinity false) = NaN /\
  jsLt NaN (num 1) = false /\
  jsLt (num 1) NaN = false.
Proof. vm_compute. repeat split; reflexivity. Qed.

(** ** [processAccounts] is a filter followed by a projection *)

Lemma processAccount_step parsed shouldExecute result account :
  processAccount parsed shouldExecute result account =
  (result ++ if referenced (debit_account parsed) (credit_account parsed) account
             then [project parsed shouldExecute account] else [])%list.
Proof.
  unfold processAccount, referenced, project.
  destruct (sameId _ _ || sameId _ _)%bool; [reflexivity | now rewrite app_nil_r].
Qed.

Lemma fold_processAccount parsed shouldExecute accounts : forall result,
  fold_left (processAccount parsed shouldExecute) accounts result =
  (result ++ map (project parsed shouldExecute)
               (filter (referenced (debit_account parsed) (credit_account parsed))
                       accounts))%list.
Proof.
  induction accounts as [| a accounts IH]; intros result; simpl.
  - now rewrite app_nil_r.
  - rewrite IH, processAccount_step.
    destruct (referenced _ _ a); simpl.
    + now rewrite <- app_assoc.
    + now rewrite app_nil_r.
Qed.

Lemma processAccounts_filter accounts parsed shouldExecute :
  processAccounts accounts parsed shouldExecute =
  map (project parsed shouldExecute)
      (filter (referenced (debit_account parsed) (credit_account parsed)) accounts).
Proof.
  unfold processAccounts. now rewrite fold_processAccount.
Qed.

(** ** The validator *)

Lemma validateExecuteBy_cases (h : Host) (executeBy : option string) :
  validateExecuteBy h executeBy =
  match executeBy with
  | Some (String _ _ as s) =>
      if (match Date_parse h s with Some _ => true | None => false end
          && dateRegex_test s)%bool
      then Ok tt else Err (AppError INVALID_DATE_FORMAT INVLDDATA)
  | _ => Ok tt
  end.
Proof.
  destruct executeBy as [[| c s] |]; try reflexivity.
  unfold validateExecuteBy; simpl truthy; cbv iota.
  destruct (Date_parse h (String c s)); [| reflexivity].
  destruct (dateRegex_test (String c s)); reflexivity.
Qed.

Lemma validateParsedData_rules (h : Host) (parsed : ParsedInstruction)
    (accounts : list Account.t) (debit credit : string) :
  debit_account parsed = Some debit ->
  credit_account parsed = Some credit ->
  validateParsedData h parsed accounts =
  reportFirst (nineRules h parsed debit credit accounts).
Proof.
  intros Hd Hc. unfold validateParsedData, nineRules.
  rewrite Hd, Hc, validateExecuteBy_cases. simpl.
  destruct (isValidAccountIdStr debit); simpl; [| reflexivity].
  destruct (isValidAccountIdStr credit); simpl; [| reflexivity].
  destruct (String.eqb debit credit); simpl; [reflexivity |].
  destruct (findAccount accounts (Some debit)) as [da |]; simpl; [| reflexivity].
  destruct (findAccount accounts (Some credit)) as [ca |]; simpl; [| reflexivity].
  destruct (String.eqb (toUpperCase (Account.currency da)) (currency parsed));
    simpl; [| reflexivity].
  destruct (String.eqb (toUpperCase (Account.currency ca)) (currency parsed));
    simpl; [| reflexivity].
  destruct (jsLt (Account.balance da) (amount parsed)); simpl; [reflexivity |].
  destruct (execute_by parsed) as [[| c s] |]; try reflexivity.
  destruct (match Date_parse h (String c s) with Some _ => true | None => false end
            && dateRegex_test (String c s))%bool; reflexivity.
Qed.

Lemma validateParsedData_Ok (h : Host) (parsed : ParsedInstruction)
    (accounts : list Account.t) :
  validateParsedData h parsed accounts = Ok tt <->
  exists debit credit debitAccount creditAccount,
    Validated h parsed accounts debit credit debitAccount creditAccount.
Proof.
  split.
  - intros H.
    destruct (debit_account parsed) as [d |] eqn:Hd;
      [| unfold validateParsedData in H; rewrite Hd in H; discriminate].
    destruct (credit_account parsed) as [c |] eqn:Hc;
      [| unfold validateParsedData in H; rewrite Hd, Hc in H; simpl in H;
         destruct (isValidAccountIdStr d); discriminate].
    rewrite (validateParsedData_rules h parsed accounts Hd Hc) in H.
    unfold nineRules in H; simpl in H.
    destruct (isValidAccountIdStr d) eqn:E1; simpl in H; [| discriminate].
    destruct (isValidAccountIdStr c) eqn:E2; simpl in H; [| discriminate].
    destruct (String.eqb d c) eqn:E3; [discriminate |].
    destruct (findAccount accounts (Some d)) as [da |] eqn:E4; [| discriminate].
    destruct (findAccount accounts (Some c)) as [ca |] eqn:E5; [| discriminate].
    destruct (String.eqb (toUpperCase (Account.currency da)) (currency parsed)) eqn:E6;
      simpl in H; [| discriminate].
    destruct (String.eqb (toUpperCase (Account.currency ca)) (currency parsed)) eqn:E7;
      simpl in H; [| discriminate].
    destruct (jsLt (Account.balance da) (amount parsed)) eqn:E8; [discriminate |].
    exists d, c, da, ca. constructor; auto.
    + now apply String.eqb_neq.
    + now apply String.eqb_eq.
    + now apply String.eqb_eq.
    + rewrite validateExecuteBy_cases.
      destruct (execute_by parsed) as [[| ch s] |]; try reflexivity.
      destruct (match Date_parse h (String ch s) with Some _ => true | None => false end
                && dateRegex_test (String ch s))%bool; [reflexivity | discriminate].
  - intros (d & c & da & ca & V).
    destruct V as [Vd Vc Vdid Vcid Vne Vdf Vcf Vdc Vcc Vfunds Vdate].
    unfold validateParsedData.
    rewrite Vd, Vc. simpl.
    rewrite Vdid, Vcid. simpl.
    apply String.eqb_neq in Vne. rewrite Vne. simpl.
    rewrite Vdf, Vcf. simpl.
    rewrite Vdc, Vcc, String.eqb_refl. simpl.
    rewrite Vfunds. simpl. assumption.
Qed.

Lemma findAccount_In (accounts : list Account.t) (id : string) (account : Account.t) :
  findAccount accounts (Some id) = Some account ->
  In account accounts /\ Account.id account = id.
Proof.
  unfold findAccount. intros H. apply find_some in H. destruct H as [Hin Hid].
  split; [assumption |]. simpl in Hid. now apply String.eqb_eq.
Qed.

Lemma In_processAccounts accounts parsed shouldExecute (a : Projected.t) :
  In a (processAccounts accounts parsed shouldExecute) <->
  exists account,
    In account accounts /\
    referenced (debit_account parsed) (credit_account parsed) account = true /\
    a = project parsed shouldExecute account.
Proof.
  rewrite processAccounts_filter, in_map_iff. split.
  - intros (account & Ha & Hin). apply filter_In in Hin. exists account. intuition.
  - intros (account & Hin & Href & Ha). exists account.
    split; [now symmetry | apply filter_In; auto].
Qed.

Lemma shouldExecuteNow_absent (h : Host) : shouldExecuteNow h None = true.
Proof. reflexivity. Qed.

(** ** Immediate execution of a DEBIT instruction *)

(** C1 (as amended).  A DEBIT instruction that parses, carries no
    [execute_by] and satisfies the validator's conditions (both ids
    well-formed and distinct, both accounts present with the
    instruction's currency, the debit balance not below the amount) is
    processed successfully: the response has status ["successful"] and
    code ["AP00"] and carries the instruction's amount; it lists the
    debit account the validator found, with its supplied balance as
    [balance_before] and that balance minus the amount as [balance], and
    the credit account, with its supplied balance as [balance_before] and
    that balance plus the amount as [balance]; and every listed entry of
    the debit (credit) id stands in that way for a supplied account of
    that id.  Minus and plus are those of JavaScript Numbers: the exact
    difference and sum whenever the balance, the amount and the result
    are integers of magnitude at most [2^53], the nearest double
    otherwise. *)
Theorem debit_instruction_executes (h : Host) (accts : list Account.t)
    (text : string) (parsed : ParsedInstruction) (debit credit : string)
    (debitAccount creditAccount : Account.t) :
  parseInstructionText (trim text) = Ok parsed ->
  type parsed = DEBIT ->
  execute_by parsed = None ->
  Validated h parsed accts debit credit debitAccount creditAccount ->
  exists response,
    parseInstruction h (mkServiceData accts text) = Ok response /\
    Response.type response = DEBIT /\
    Response.amount response = amount parsed /\
    Response.status response = "successful" /\
    Response.status_code response = "AP00" /\
    In {| Projected.id := debit;
          Projected.balance := jsSub (Account.balance debitAccount) (amount parsed);
          Projected.balance_before := Account.balance debitAccount;
          Projected.currency := toUpperCase (Account.currency debitAccount) |}
       (Response.accounts response) /\
    In {| Projected.id := credit;
          Projected.balance := jsAdd (Account.balance creditAccount) (amount parsed);
          Projected.balance_before := Account.balance creditAccount;
          Projected.currency := toUpperCase (Account.currency creditAccount) |}
       (Response.accounts response) /\
    (forall a, In a (Response.accounts response) -> Projected.id a = debit ->
       exists account,
         In account accts /\ Account.id account = debit /\
         Projected.balance_before a = Account.balance account /\
         Projected.balance a = jsSub (Account.balance account) (amount parsed)) /\
    (forall a, In a (Response.accounts response) -> Projected.id a = credit ->
       exists account,
         In account accts /\ Account.id account = credit /\
         Projected.balance_before a = Account.balance account /\
         Projected.balance a = jsAdd (Account.balance account) (amount parsed)) /\
    (forall a before k,
       In a (Response.accounts response) ->
       Projected.balance_before a = num before -> amount parsed = num k ->
       - 2 ^ 53 <= before <= 2 ^ 53 -> - 2 ^ 53 <= k <= 2 ^ 53 ->
       (Projected.id a = debit -> - 2 ^ 53 <= before - k <= 2 ^ 53 ->
        Projected.balance a = num (before - k)) /\
       (Projected.id a = credit -> - 2 ^ 53 <= before + k <= 2 ^ 53 ->
        Projected.balance a = num (before + k))).
Proof.
  intros Hparse Htype Hnone V.
  assert (Hvalid : validateParsedData h parsed accts = Ok tt).
  { apply validateParsedData_Ok. now exists debit, credit, debitAccount, creditAccount. }
  destruct V as [Vd Vc Vdid Vcid Vne Vdf Vcf Vdc Vcc Vfunds Vdate].
  assert (Hcd : String.eqb credit debit = false).
  { apply String.eqb_neq. congruence. }
  assert (Hdebit : forall a, In a (processAccounts accts parsed true) ->
            Projected.id a = debit ->
            exists account,
              In account accts /\ Account.id account = debit /\
              Projected.balance_before a = Account.balance account /\
              Projected.balance a = jsSub (Account.balance account) (amount parsed)).
  { intros a Hin Hid. apply In_processAccounts in Hin.
    destruct Hin as (account & Hacc & _ & ->). cbn [project Projected.id] in Hid.
    exists account. repeat split; try assumption.
    cbn [project Projected.balance]. rewrite Vd, Hid. cbn [sameId].
    now rewrite String.eqb_refl. }
  assert (Hcredit : forall a, In a (processAccounts accts parsed true) ->
            Projected.id a = credit ->
            exists account,
              In account accts /\ Account.id account = credit /\
              Projected.balance_before a = Account.balance account /\
              Projected.balance a = jsAdd (Account.balance account) (amount parsed)).
  { intros a Hin Hid. apply In_processAccounts in Hin.
    destruct Hin as (account & Hacc & _ & ->). cbn [project Projected.id] in Hid.
    exists account. repeat split; try assumption.
    cbn [project Projected.balance]. rewrite Vd, Vc, Hid. cbn [sameId].
    now rewrite Hcd, String.eqb_refl. }
  unfold parseInstruction. cbn [accounts instruction].
  rewrite Hparse. cbn [bind]. rewrite Hvalid. cbn [bind].
  rewrite Hnone, shouldExecuteNow_absent.
  eexists. split; [reflexivity |]. cbn [Response.type Response.status
    Response.status_code Response.accounts Response.amount].
  split; [assumption |]. split; [reflexivity |].
  split; [reflexivity |]. split; [reflexivity |].
  split; [| split; [| split; [exact Hdebit | split; [exact Hcredit |]]]].
  - destruct (findAccount_In _ _ Vdf) as [Hin Hid].
    apply In_processAccounts. exists debitAccount. split; [assumption |]. split.
    + unfold referenced. rewrite Vd, Hid. cbn [sameId]. now rewrite String.eqb_refl.
    + unfold project. rewrite Vd, Hid. cbn [sameId]. now rewrite String.eqb_refl.
  - destruct (findAccount_In _ _ Vcf) as [Hin Hid].
    apply In_processAccounts. exists creditAccount. split; [assumption |]. split.
    + unfold referenced. rewrite Vc, Hid. cbn [sameId].
      rewrite String.eqb_refl. apply orb_true_r.
    + unfold project. rewrite Vd, Vc, Hid. cbn [sameId].
      now rewrite Hcd, String.eqb_refl.
  - intros a before k Hin Hbefore Hk Hb Hkr. split; intros Hid Hres.
    + destruct (Hdebit a Hin Hid) as (account & _ & _ & Hbb & ->).
      rewrite <- Hbb, Hbefore, Hk. now apply jsSub_exact.
    + destruct (Hcredit a Hin Hid) as (account & _ & _ & Hbb & ->).
      rewrite <- Hbb, Hbefore, Hk. now apply jsAdd_exact.
Qed.

(** The specification's example instruction and accounts are such an
    input. *)
Lemma debit_instruction_executes_example :
  exists response,
    parseInstruction host_utc (mkServiceData example_accounts example_instruction)
      = Ok response /\
    Response.type response = DEBIT /\
    Response.amount response = num 500 /\
    Response.status response = "successful" /\
    Response.status_code response = "AP00" /\
    In {| Projected.id := "A001";
          Projected.balance := jsSub (num 1000) (num 500);
          Projected.balance_before := num 1000;
          Projected.currency := toUpperCase "NGN" |}
       (Response.accounts response) /\
    In {| Projected.id := "B002";
          Projected.balance := jsAdd (num 200) (num 500);
          Projected.balance_before := num 200;
          Projected.currency := toUpperCase "NGN" |}
       (Response.accounts response) /\
    (forall a, In a (Response.accounts response) -> Projected.id a = "A001" ->
       exists account,
         In account example_accounts /\ Account.id account = "A001" /\
         Projected.balance_before a = Account.balance account /\
         Projected.balance a = jsSub (Account.balance account) (num 500)) /\
    (forall a, In a (Response.accounts response) -> Projected.id a = "B002" ->
       exists account,
         In account example_accounts /\ Account.id account = "B002" /\
         Projected.balance_before a = Account.balance account /\
         Projected.balance a = jsAdd (Account.balance account) (num 500)) /\
    (forall a before k,
       In a (Response.accounts response) ->
       Projected.balance_before a = num before -> num 500 = num k ->
       - 2 ^ 53 <= before <= 2 ^ 53 -> - 2 ^ 53 <= k <= 2 ^ 53 ->
       (Projected.id a = "A001" -> - 2 ^ 53 <= before - k <= 2 ^ 53 ->
        Projected.balance a = num (before - k)) /\
       (Projected.id a = "B002" -> - 2 ^ 53 <= before + k <= 2 ^ 53 ->
        Projected.balance a = num (before + k))).
Proof.
  apply (@debit_instruction_executes host_utc example_accounts example_instruction
           {| type := DEBIT; amount := num 500; currency := "NGN";
              debit_account := Some "A001"; credit_account := Some "B002";
              execute_by := None |}
           "A001" "B002"
           {| Account.id := "A001"; Account.balance := num 1000; Account.currency := "NGN" |}
           {| Account.id := "B002"; Account.balance := num 200; Account.currency := "NGN" |}).
  - vm_compute. reflexivity.
  - reflexivity.
  - reflexivity.
  - constructor; try (vm_compute; reflexivity).
    intros H; discriminate H.
Defined.

(** The claim as first stated, with the exact difference and sum, fails
    beyond [2^53]: a credit of 1 to a balance of [2^53] leaves the balance
    where it was, [2^53 + 1] not being a Number. *)
Lemma credit_of_one_unit_is_lost :
  parseInstruction host_utc
    (mkServiceData large_credit_accounts
       "Debit 1 NGN from Account A001 for credit to Account B002") =
  Ok {| Response.type := DEBIT;
        Response.amount := num 1;
        Response.currency := "NGN";
        Response.debit_account := Some "A001";
        Response.credit_account := Some "B002";
        Response.execute_by := None;
        Response.status := "successful";
        Response.status_reason := TRANSACTION_SUCCESSFUL;
        Response.status_code := "AP00";
        Response.accounts :=
          [ {| Projected.id := "A001"; Projected.balance := num 999;
               Projected.balance_before := num 1000; Projected.currency := "NGN" |};
            {| Projected.id := "B002"; Projected.balance := num 9007199254740992;
               Projected.balance_before := num 9007199254740992;
               Projected.currency := "NGN" |} ] |} /\
  integerValue (num 9007199254740992) = 9007199254740992 /\
  integerValue (num 1) = 1.
Proof. vm_compute. repeat split; reflexivity. Qed.

(** ** Reading the canonical DEBIT sentence *)

Lemma mapString_app (f : ascii -> ascii) (a b : string) :
  mapString f (a ++ b) = mapString f a ++ mapString f b.
Proof. induction a as [| c a IH]; simpl; [reflexivity | now rewrite IH]. Qed.

Lemma toLowerCase_app (a b : string) :
  toLowerCase (a ++ b) = toLowerCase a ++ toLowerCase b.
Proof. apply mapString_app. Qed.

Lemma startsWith_app (sub r : string) : startsWith (sub ++ r) sub = true.
Proof.
  induction sub as [| c sub IH]; simpl; [reflexivity |].
  now rewrite Ascii.eqb_refl, IH.
Qed.

Lemma includes_here (s sub : string) : startsWith s sub = true -> includes s sub = true.
Proof. intros H. destruct s; simpl in *; rewrite H; reflexivity. Qed.

Lemma includes_app_r (a b sub : string) :
  includes b sub = true -> includes (a ++ b) sub = true.
Proof.
  intros H. induction a as [| c a IH]; simpl; [assumption |].
  rewrite IH. apply orb_true_r.
Qed.

Lemma includes_middle (a sub r : string) : includes (a ++ sub ++ r) sub = true.
Proof. apply includes_app_r, includes_here, startsWith_app. Qed.

Lemma split_space_word (w rest : string) :
  allChars notSpace w = true ->
  split_space (w ++ String " " rest) = w :: split_space rest.
Proof.
  induction w as [| c w IH]; simpl; intros H; [reflexivity |].
  apply andb_true_iff in H. destruct H as [Hc Hw].
  unfold notSpace in Hc. apply negb_true_iff in Hc. rewrite Hc.
  now rewrite (IH Hw).
Qed.

Lemma split_space_last (w : string) :
  allChars notSpace w = true -> split_space w = [w].
Proof.
  induction w as [| c w IH]; simpl; intros H; [reflexivity |].
  apply andb_true_iff in H. destruct H as [Hc Hw].
  unfold notSpace in Hc. apply negb_true_iff in Hc. rewrite Hc.
  now rewrite (IH Hw).
Qed.

Lemma trimEnd_nonempty (b : string) :
  b <> "" -> allChars (fun c => negb (isWhiteSpace c)) b = true -> trimEnd b = b.
Proof.
  induction b as [| c b IH]; intros Hne H; [congruence |].
  simpl in H. apply andb_true_iff in H. destruct H as [Hc Hb].
  apply negb_true_iff in Hc. cbn [trimEnd].
  destruct b as [| c' b']; [cbn [trimEnd]; now rewrite Hc |].
  rewrite IH by (congruence || assumption). reflexivity.
Qed.

Lemma trimEnd_app (a b : string) :
  b <> "" -> trimEnd b = b -> trimEnd (a ++ b) = a ++ b.
Proof.
  intros Hne Hb. induction a as [| c a IH]; simpl; [assumption |].
  rewrite IH. destruct (a ++ b) eqn:E; [| reflexivity].
  destruct a; simpl in E; [congruence | discriminate].
Qed.

(** Characters of account ids are neither spaces nor other white space. *)
Lemma valid_char_not_space (c : ascii) :
  charIn c VALID_ACCOUNT_CHARS = true ->
  notSpace c = true /\ isWhiteSpace c = false.
Proof.
  destruct c as [[] [] [] [] [] [] [] []]; vm_compute; intros H;
    try discriminate H; split; reflexivity.
Qed.

Lemma valid_id_chars (id : string) :
  allValidChars id = true ->
  allChars notSpace id = true /\
  allChars (fun c => negb (isWhiteSpace c)) id = true.
Proof.
  induction id as [| c id IH]; cbn [allValidChars allChars]; [auto |].
  destruct (charIn c VALID_ACCOUNT_CHARS) eqn:E; [| discriminate].
  intros H. destruct (IH H) as [H1 H2].
  destruct (valid_char_not_space c E) as [Hs Hw].
  now rewrite Hs, Hw, H1, H2.
Qed.

Lemma valid_id_facts (id : string) :
  isValidAccountIdStr id = true ->
  id <> "" /\ allChars notSpace id = true /\
  allChars (fun c => negb (isWhiteSpace c)) id = true.
Proof.
  unfold isValidAccountIdStr.
  destruct (allValidChars id) eqn:E; [| discriminate].
  intros H. split; [| now apply valid_id_chars].
  destruct id; [discriminate H | discriminate].
Qed.

Lemma isDecimal_facts (amt : string) :
  isDecimal amt = true ->
  amt <> "" /\ allChars notSpace amt = true /\
  parseInt (Some amt) = num (decimalValue amt) /\
  startsWithDigit (toLowerCase amt) = true.
Proof.
  unfold isDecimal. intros H. apply andb_true_iff in H. destruct H as [Hfirst Hall].
  assert (Hsp : forall s, allChars isDigit s = true -> allChars notSpace s = true).
  { induction s as [| c s IH]; cbn [allChars]; [auto |].
    intros Hs. apply andb_true_iff in Hs. destruct Hs as [Hc Hs].
    rewrite (IH Hs), andb_true_r.
    destruct c as [[] [] [] [] [] [] [] []]; try discriminate Hc; reflexivity. }
  destruct amt as [| c amt]; [discriminate Hfirst |].
  split; [discriminate |]. split; [now apply Hsp |].
  cbn [startsWithDigit] in Hfirst.
  split.
  - unfold parseInt, decimalValue.
    assert (Hws : isWhiteSpace c = false)
      by (destruct c as [[] [] [] [] [] [] [] []]; try discriminate Hfirst; reflexivity).
    cbn [trimStart]. rewrite Hws.
    assert (Hsign : c <> "-"%char /\ c <> "+"%char)
      by (split; intros ->; discriminate Hfirst).
    destruct Hsign as [Hm Hp].
    destruct c as [[] [] [] [] [] [] [] []]; try congruence;
      cbn [startsWithDigit]; rewrite Hfirst; now rewrite Z.mul_1_l.
  - unfold toLowerCase. cbn [mapString startsWithDigit].
    destruct c as [[] [] [] [] [] [] [] []]; try discriminate Hfirst; reflexivity.
Qed.

(** A token that starts with a digit is none of the keywords. *)
Lemma digit_first_not_keyword (w keyword : string) :
  startsWithDigit (toLowerCase w) = true ->
  startsWithDigit (toLowerCase keyword) = false ->
  String.eqb (toLowerCase w) (toLowerCase keyword) = false.
Proof.
  intros Hw Hk. apply String.eqb_neq. intros E. rewrite E in Hw. congruence.
Qed.

Lemma upper_lower_char (c : ascii) : upperChar (lowerChar c) = upperChar c.
Proof. destruct c as [[] [] [] [] [] [] [] []]; reflexivity. Qed.

Lemma toUpperCase_toLowerCase (s : string) :
  toUpperCase (toLowerCase s) = toUpperCase s.
Proof.
  unfold toUpperCase, toLowerCase.
  induction s as [| c s IH]; cbn [mapString]; [reflexivity |].
  now rewrite upper_lower_char, IH.
Qed.

(** A token whose uppercase form is a supported currency is none of the
    keywords. *)
Lemma currency_not_keyword (cur keyword : string) :
  array_includes SUPPORTED_CURRENCIES (toUpperCase cur) = true ->
  array_includes SUPPORTED_CURRENCIES (toUpperCase (toLowerCase keyword)) = false ->
  String.eqb (toLowerCase cur) (toLowerCase keyword) = false.
Proof.
  intros Hc Hk. apply String.eqb_neq. intros E.
  rewrite <- toUpperCase_toLowerCase, E in Hc. congruence.
Qed.

Lemma upperChar_space (c : ascii) : notSpace (upperChar c) = true -> notSpace c = true.
Proof. destruct c as [[] [] [] [] [] [] [] []]; intros H; exact H || reflexivity. Qed.

Lemma currency_facts (cur : string) :
  array_includes SUPPORTED_CURRENCIES (toUpperCase cur) = true ->
  cur <> "" /\ allChars notSpace cur = true /\
  checkedCurrency (Some cur) = Ok (toUpperCase cur).
Proof.
  intros H.
  assert (Hup : allChars notSpace (toUpperCase cur) = true /\ toUpperCase cur <> "").
  { unfold array_includes, SUPPORTED_CURRENCIES in H. cbn [existsb] in H.
    repeat (apply orb_true_iff in H; destruct H as [H | H]);
      try discriminate H; apply String.eqb_eq in H; rewrite H;
      split; (reflexivity || discriminate). }
  destruct Hup as [Hsp Hne].
  split; [intros ->; now apply Hne |]. split.
  - clear H Hne. unfold toUpperCase in Hsp.
    induction cur as [| c cur IH]; cbn [mapString allChars] in *; [reflexivity |].
    apply andb_true_iff in Hsp. destruct Hsp as [Hc Hs].
    now rewrite (upperChar_space c Hc), (IH Hs).
  - unfold checkedCurrency. cbn [option_map]. rewrite H.
    destruct (toUpperCase cur); [congruence | reflexivity].
Qed.

Lemma tokenize_canonical (amt cur debit credit : string) :
  amt <> "" -> allChars notSpace amt = true ->
  cur <> "" -> allChars notSpace cur = true ->
  debit <> "" -> allChars notSpace debit = true ->
  credit <> "" -> allChars notSpace credit = true ->
  tokenize (canonicalDebitText amt cur debit credit) =
  ["Debit"; amt; cur; "from"; "Account"; debit; "for"; "credit"; "to"; "Account"; credit].
Proof.
  intros Ha Hsa Hc Hsc Hd Hsd He Hse.
  assert (Hlen : forall w, w <> "" -> Nat.ltb 0 (String.length w) = true)
    by (intros [| c w] Hw; [congruence | reflexivity]).
  unfold tokenize, canonicalDebitText.
  change ("Debit " ++ amt ++ " " ++ cur ++ " from Account " ++ debit ++
          " for credit to Account " ++ credit)
    with ("Debit" ++ String " " (amt ++ String " " (cur ++ String " "
          ("from" ++ String " " ("Account" ++ String " " (debit ++ String " "
          ("for" ++ String " " ("credit" ++ String " " ("to" ++ String " "
          ("Account" ++ String " " credit)))))))))).
  rewrite !split_space_word by (assumption || reflexivity).
  rewrite (split_space_last credit Hse).
  cbn [filter]. rewrite !Hlen by (assumption || discriminate). reflexivity.
Qed.

Lemma trimEnd_fixed_app (a b : string) :
  b <> "" /\ trimEnd b = b -> a ++ b <> "" /\ trimEnd (a ++ b) = a ++ b.
Proof.
  intros [Hne Hb]. split; [| now apply trimEnd_app].
  destruct a; simpl; [assumption | discriminate].
Qed.

Lemma trim_canonical (amt cur debit credit : string) :
  credit <> "" ->
  allChars (fun c => negb (isWhiteSpace c)) credit = true ->
  trim (canonicalDebitText amt cur debit credit) = canonicalDebitText amt cur debit credit.
Proof.
  intros Hne Hws. unfold trim, canonicalDebitText.
  change (trimStart ("Debit " ++ amt ++ " " ++ cur ++ " from Account " ++ debit ++
                     " for credit to Account " ++ credit))
    with ("Debit " ++ amt ++ " " ++ cur ++ " from Account " ++ debit ++
          " for credit to Account " ++ credit).
  apply (trimEnd_fixed_app "Debit "), trimEnd_fixed_app, (trimEnd_fixed_app " "),
    trimEnd_fixed_app, (trimEnd_fixed_app " from Account "), trimEnd_fixed_app,
    (trimEnd_fixed_app " for credit to Account ").
  split; [assumption | now apply trimEnd_nonempty].
Qed.

Lemma looksLikeDebit_canonical (amt cur debit credit : string) :
  looksLikeDebit (toLowerCase (canonicalDebitText amt cur debit credit)) = true.
Proof.
  unfold looksLikeDebit, canonicalDebitText.
  rewrite !toLowerCase_app.
  apply andb_true_iff. split; [apply andb_true_iff; split |].
  - reflexivity.
  - do 4 apply includes_app_r.
    match goal with
    | |- includes (_ ++ ?rest) _ = true =>
        change (includes (" " ++ "from account" ++ " " ++ rest) "from account" = true)
    end.
    apply includes_middle.
  - do 6 apply includes_app_r.
    match goal with
    | |- includes (_ ++ ?rest) _ = true =>
        change (includes (" " ++ "for credit to account" ++ " " ++ rest)
                         "for credit to account" = true)
    end.
    apply includes_middle.
Qed.

Lemma findKeywordLoop_skip (w keyword : string) (rest : list string) (i : Z) :
  String.eqb (toLowerCase w) (toLowerCase keyword) = false ->
  findKeywordLoop (w :: rest) keyword i = findKeywordLoop rest keyword (i + 1).
Proof. intros H. cbn [findKeywordLoop]. now rewrite H. Qed.

Lemma findKeywordLoop_hit (w keyword : string) (rest : list string) (i : Z) :
  String.eqb (toLowerCase w) (toLowerCase keyword) = true ->
  findKeywordLoop (w :: rest) keyword i = i.
Proof. intros H. cbn [findKeywordLoop]. now rewrite H. Qed.

Lemma checkedAmount_decimal (amt : string) :
  isDecimal amt = true -> 0 < decimalValue amt ->
  checkedAmount (Some amt) = Ok (num (decimalValue amt)).
Proof.
  intros Hdec Hpos. destruct (isDecimal_facts amt Hdec) as (_ & _ & Hparse & _).
  unfold checkedAmount. rewrite Hparse.
  now rewrite (num_valid Hpos).
Qed.

(** The tokens of the canonical sentence are read as the instruction they
    spell, provided the debit account is not called [on]. *)
Lemma parseDebitFormat_canonical (amt cur debit credit : string) :
  isDecimal amt = true ->
  0 < decimalValue amt ->
  array_includes SUPPORTED_CURRENCIES (toUpperCase cur) = true ->
  toLowerCase debit <> "on" ->
  parseDebitFormat
    ["Debit"; amt; cur; "from"; "Account"; debit; "for"; "credit"; "to"; "Account"; credit] =
  Ok {| type := DEBIT;
        amount := num (decimalValue amt);
        currency := toUpperCase cur;
        debit_account := Some debit;
        credit_account := Some credit;
        execute_by := None |}.
Proof.
  intros Hdec Hpos Hcur Hon.
  destruct (isDecimal_facts amt Hdec) as (_ & _ & _ & Hdigit).
  destruct (currency_facts cur Hcur) as (_ & _ & Hchecked).
  assert (Ka : forall keyword, startsWithDigit (toLowerCase keyword) = false ->
             String.eqb (toLowerCase amt) (toLowerCase keyword) = false)
    by (intros keyword; now apply digit_first_not_keyword).
  assert (Kc : forall keyword,
             array_includes SUPPORTED_CURRENCIES (toUpperCase (toLowerCase keyword)) = false ->
             String.eqb (toLowerCase cur) (toLowerCase keyword) = false)
    by (intros keyword; now apply currency_not_keyword).
  assert (Kd : String.eqb (toLowerCase debit) (toLowerCase "on") = false)
    by now apply String.eqb_neq.
  set (words := ["Debit"; amt; cur; "from"; "Account"; debit; "for"; "credit"; "to";
                 "Account"; credit]).
  assert (Hdebit : findKeywordIndex words "debit" 0 = 0).
  { unfold findKeywordIndex, words. cbn [Z.to_nat skipn].
    now rewrite findKeywordLoop_hit. }
  assert (Hfrom : findKeywordIndex words "from" 0 = 3).
  { unfold findKeywordIndex, words. cbn [Z.to_nat skipn].
    rewrite findKeywordLoop_skip by reflexivity.
    rewrite findKeywordLoop_skip by (apply Ka; reflexivity).
    rewrite findKeywordLoop_skip by (apply Kc; reflexivity).
    now rewrite findKeywordLoop_hit. }
  assert (Hfor : findKeywordIndex words "for" 0 = 5 \/ findKeywordIndex words "for" 0 = 6).
  { unfold findKeywordIndex, words. cbn [Z.to_nat skipn].
    rewrite findKeywordLoop_skip by reflexivity.
    rewrite findKeywordLoop_skip by (apply Ka; reflexivity).
    rewrite findKeywordLoop_skip by (apply Kc; reflexivity).
    rewrite findKeywordLoop_skip by reflexivity.
    rewrite findKeywordLoop_skip by reflexivity.
    destruct (String.eqb (toLowerCase debit) (toLowerCase "for")) eqn:E.
    - left. now rewrite findKeywordLoop_hit.
    - right. rewrite findKeywordLoop_skip by assumption.
      now rewrite findKeywordLoop_hit. }
  assert (Hto : findKeywordIndex words "to" (findKeywordIndex words "for" 0 + 1) = 8).
  { destruct Hfor as [-> | ->]; reflexivity. }
  assert (Hon' : executeByOf words = None).
  { unfold executeByOf.
    assert (Hidx : findKeywordIndex words "on" 0 = 10 \/ findKeywordIndex words "on" 0 = -1).
    { unfold findKeywordIndex, words. cbn [Z.to_nat skipn].
      rewrite findKeywordLoop_skip by reflexivity.
      rewrite findKeywordLoop_skip by (apply Ka; reflexivity).
      rewrite findKeywordLoop_skip by (apply Kc; reflexivity).
      rewrite findKeywordLoop_skip by reflexivity.
      rewrite findKeywordLoop_skip by reflexivity.
      rewrite findKeywordLoop_skip by assumption.
      rewrite findKeywordLoop_skip by reflexivity.
      rewrite findKeywordLoop_skip by reflexivity.
      rewrite findKeywordLoop_skip by reflexivity.
      rewrite findKeywordLoop_skip by reflexivity.
      destruct (String.eqb (toLowerCase credit) (toLowerCase "on")) eqn:E.
      - left. now rewrite findKeywordLoop_hit.
      - right. now rewrite findKeywordLoop_skip by assumption. }
    destruct Hidx as [-> | ->]; reflexivity. }
  unfold parseDebitFormat. fold words. cbv zeta.
  rewrite Hon', Hto, Hdebit, Hfrom.
  assert (Hguard :
    ((0 =? -1) || (3 =? -1) || (findKeywordIndex words "for" 0 =? -1) ||
     (findKeywordIndex words "for" 0 + 1 =? -1) || (8 =? -1))%bool = false)
    by (destruct Hfor as [-> | ->]; reflexivity).
  rewrite Hguard. cbn [throwIf bind].
  change (at_index words (0 + 1)) with (Some amt).
  rewrite (checkedAmount_decimal amt Hdec Hpos). cbn [bind].
  change (at_index words (0 + 2)) with (Some cur).
  rewrite Hchecked. cbn [bind].
  change (notAccountKeyword (at_index words (3 + 1))) with false.
  change (notAccountKeyword (at_index words (8 + 1))) with false.
  cbn [throwIf bind]. reflexivity.
Qed.

(** The canonical sentence, as text. *)
Lemma parseInstructionText_canonical (amt cur debit credit : string) :
  isDecimal amt = true ->
  0 < decimalValue amt ->
  array_includes SUPPORTED_CURRENCIES (toUpperCase cur) = true ->
  isValidAccountIdStr debit = true ->
  isValidAccountIdStr credit = true ->
  toLowerCase debit <> "on" ->
  parseInstructionText (trim (canonicalDebitText amt cur debit credit)) =
  Ok {| type := DEBIT;
        amount := num (decimalValue amt);
        currency := toUpperCase cur;
        debit_account := Some debit;
        credit_account := Some credit;
        execute_by := None |}.
Proof.
  intros Hdec Hpos Hcur Hd Hc Hon.
  destruct (isDecimal_facts amt Hdec) as (Ha & Hsa & _ & _).
  destruct (currency_facts cur Hcur) as (Hcne & Hsc & _).
  destruct (valid_id_facts debit Hd) as (Hdne & Hsd & _).
  destruct (valid_id_facts credit Hc) as (Hcrne & Hscr & Hws).
  rewrite (trim_canonical amt cur debit Hcrne Hws).
  unfold parseInstructionText.
  rewrite looksLikeDebit_canonical.
  rewrite (tokenize_canonical Ha Hsa Hcne Hsc Hdne Hsd Hcrne Hscr).
  now apply parseDebitFormat_canonical.
Qed.

(** X17.  The canonical DEBIT sentence, end to end: for a positive decimal
    amount, a supported currency in any letter case, two distinct
    well-formed account ids (the debit one not called [on]) that exist
    with that currency, and a debit balance that is not below the amount,
    the response is the executed transaction over the referenced
    accounts.  The amount is the Number nearest to the integer written,
    and the balances are moved by it in Number arithmetic. *)
Lemma canonical_debit_response (h : Host) (accts : list Account.t)
    (amt cur debit credit : string) (debitAccount creditAccount : Account.t) :
  isDecimal amt = true ->
  0 < decimalValue amt ->
  array_includes SUPPORTED_CURRENCIES (toUpperCase cur) = true ->
  isValidAccountIdStr debit = true ->
  isValidAccountIdStr credit = true ->
  toLowerCase debit <> "on" ->
  debit <> credit ->
  findAccount accts (Some debit) = Some debitAccount ->
  findAccount accts (Some credit) = Some creditAccount ->
  toUpperCase (Account.currency debitAccount) = toUpperCase cur ->
  toUpperCase (Account.currency creditAccount) = toUpperCase cur ->
  jsLt (Account.balance debitAccount) (num (decimalValue amt)) = false ->
  parseInstruction h (mkServiceData accts (canonicalDebitText amt cur debit credit)) =
  Ok {| Response.type := DEBIT;
        Response.amount := num (decimalValue amt);
        Response.currency := toUpperCase cur;
        Response.debit_account := Some debit;
        Response.credit_account := Some credit;
        Response.execute_by := None;
        Response.status := "successful";
        Response.status_reason := TRANSACTION_SUCCESSFUL;
        Response.status_code := "AP00";
        Response.accounts :=
          map (fun account =>
                 {| Projected.id := Account.id account;
                    Projected.balance :=
                      if String.eqb (Account.id account) debit
                      then jsSub (Account.balance account) (num (decimalValue amt))
                      else jsAdd (Account.balance account) (num (decimalValue amt));
                    Projected.balance_before := Account.balance account;
                    Projected.currency := toUpperCase (Account.currency account) |})
              (filter (referenced (Some debit) (Some credit)) accts) |}.
Proof.
  intros Hdec Hpos Hcur Hd Hc Hon Hne Hfd Hfc Hcd Hcc Hfunds.
  unfold parseInstruction. cbn [accounts instruction].
  rewrite (@parseInstructionText_canonical amt cur debit credit Hdec Hpos Hcur Hd Hc Hon).
  cbn [bind].
  set (parsed := {| type := DEBIT; amount := num (decimalValue amt);
                    currency := toUpperCase cur; debit_account := Some debit;
                    credit_account := Some credit; execute_by := None |}).
  assert (Hvalid : validateParsedData h parsed accts = Ok tt).
  { apply validateParsedData_Ok.
    exists debit, credit, debitAccount, creditAccount.
    constructor; try assumption; reflexivity. }
  rewrite Hvalid. subst parsed. cbn [bind execute_by].
  rewrite shouldExecuteNow_absent, processAccounts_filter.
  cbn [type amount currency debit_account credit_account execute_by].
  do 2 f_equal. apply map_ext_in. intros account Hin.
  apply filter_In in Hin. destruct Hin as [_ Href].
  unfold project. cbn [debit_account credit_account amount sameId].
  unfold referenced in Href. cbn [sameId] in Href.
  destruct (String.eqb (Account.id account) debit); [reflexivity |].
  cbn [orb] in Href. now rewrite Href.
Qed.

(** The specification's example is such a sentence. *)
Lemma canonical_debit_response_example :
  parseInstruction host_utc (mkServiceData example_accounts example_instruction) =
  Ok {| Response.type := DEBIT;
        Response.amount := num 500;
        Response.currency := "NGN";
        Response.debit_account := Some "A001";
        Response.credit_account := Some "B002";
        Response.execute_by := None;
        Response.status := "successful";
        Response.status_reason := TRANSACTION_SUCCESSFUL;
        Response.status_code := "AP00";
        Response.accounts :=
          [ {| Projected.id := "A001"; Projected.balance := num 500;
               Projected.balance_before := num 1000; Projected.currency := "NGN" |};
            {| Projected.id := "B002"; Projected.balance := num 700;
               Projected.balance_before := num 200; Projected.currency := "NGN" |} ] |}.
Proof.
  apply (@canonical_debit_response host_utc example_accounts "500" "NGN" "A001" "B002"
           {| Account.id := "A001"; Account.balance := num 1000; Account.currency := "NGN" |}
           {| Account.id := "B002"; Account.balance := num 200; Account.currency := "NGN" |});
    try reflexivity; try discriminate.
Defined.

(** ** Deferred execution *)

Lemma pending_leaves_balances accts parsed (a : Projected.t) :
  In a (processAccounts accts parsed false) ->
  Projected.balance a = Projected.balance_before a.
Proof.
  intros Hin. apply In_processAccounts in Hin.
  destruct Hin as (account & _ & _ & ->). reflexivity.
Qed.

(** The status, the status code and the balances follow the decision of
    [shouldExecuteNow]: when it is [false] the response is
    ["pending"]/["AP02"] with every balance equal to its
    [balance_before], and when it is [true] the response is
    ["successful"]/["AP00"]. *)
Lemma status_follows_decision (h : Host) (data : ServiceData) (response : Response.t) :
  parseInstruction h data = Ok response ->
  (shouldExecuteNow h (Response.execute_by response) = false /\
   Response.status response = "pending" /\
   Response.status_code response = "AP02" /\
   forall a, In a (Response.accounts response) ->
             Projected.balance a = Projected.balance_before a) \/
  (shouldExecuteNow h (Response.execute_by response) = true /\
   Response.status response = "successful" /\
   Response.status_code response = "AP00").
Proof.
  unfold parseInstruction. intros H.
  apply bind_Ok_inv in H. destruct H as (parsed & _ & H).
  apply bind_Ok_inv in H. destruct H as (u & _ & H).
  inversion H; subst; clear H. cbn [Response.execute_by Response.status
    Response.status_code Response.accounts].
  destruct (shouldExecuteNow h (execute_by parsed)) eqn:E.
  - right. auto.
  - left. repeat split; auto. intros a. apply pending_leaves_balances.
Qed.

(** The specification's example with [on 2099-01-01] appended, read in
    November 2026: pending, balances unchanged. *)
Example pending_example :
  parseInstruction host_utc
    (mkServiceData example_accounts (example_instruction ++ " on 2099-01-01")) =
  Ok {| Response.type := DEBIT;
        Response.amount := num 500;
        Response.currency := "NGN";
        Response.debit_account := Some "A001";
        Response.credit_account := Some "B002";
        Response.execute_by := Some "2099-01-01";
        Response.status := "pending";
        Response.status_reason := TRANSACTION_PENDING;
        Response.status_code := "AP02";
        Response.accounts :=
          [ {| Projected.id := "A001"; Projected.balance := num 1000;
               Projected.balance_before := num 1000; Projected.currency := "NGN" |};
            {| Projected.id := "B002"; Projected.balance := num 200;
               Projected.balance_before := num 200; Projected.currency := "NGN" |} ] |}.
Proof. vm_compute. reflexivity. Qed.

(** C2.  The decision does not compare the calendar day written in
    [execute_by] with the local calendar day: [new Date("2099-01-01")] is
    midnight UTC, whose local date five hours west of UTC is still 31
    December 2098.  On that local day (year 2098, month index 11, day 31)
    an instruction dated 1 January 2099, strictly after the current
    calendar day, is executed at once: status ["successful"], code
    ["AP00"], balances moved. *)
Theorem future_date_executes_west_of_utc :
  (getFullYear host_west (now host_west),
   getMonth host_west (now host_west),
   getDate host_west (now host_west)) = (2098, 11, 31) /\
  isoDateOnly "2099-01-01" = Some (2099, 1, 1) /\
  shouldExecuteNow host_west (Some "2099-01-01") = true /\
  parseInstruction host_west
    (mkServiceData example_accounts (example_instruction ++ " on 2099-01-01")) =
  Ok {| Response.type := DEBIT;
        Response.amount := num 500;
        Response.currency := "NGN";
        Response.debit_account := Some "A001";
        Response.credit_account := Some "B002";
        Response.execute_by := Some "2099-01-01";
        Response.status := "successful";
        Response.status_reason := TRANSACTION_SUCCESSFUL;
        Response.status_code := "AP00";
        Response.accounts :=
          [ {| Projected.id := "A001"; Projected.balance := num 500;
               Projected.balance_before := num 1000; Projected.currency := "NGN" |};
            {| Projected.id := "B002"; Projected.balance := num 700;
               Projected.balance_before := num 200; Projected.currency := "NGN" |} ] |}.
Proof. vm_compute. repeat split; reflexivity. Qed.

(** ** The calendar *)

(** Day 0 is 1 January 1970; some later days. *)
Example days_from_civil_examples :
  days_from_civil 1970 1 1 = 0 /\
  days_from_civil 1970 1 2 = 1 /\
  days_from_civil 1969 12 31 = -1 /\
  days_from_civil 2000 3 1 = 11017 /\
  days_from_civil 2024 2 29 = 19782 /\
  civil_from_days 19782 = (2024, 2, 29) /\
  civil_from_days 19783 = (2024, 3, 1) /\
  civil_from_days (-1) = (1969, 12, 31).
Proof. vm_compute. repeat split; reflexivity. Qed.

Lemma daysInMonth_cases (y m : Z) :
  1 <= m <= 12 ->
  (m = 2 /\ ((y mod 4 = 0 /\ (y mod 100 <> 0 \/ y mod 400 = 0)) /\ daysInMonth y m = 29
             \/ (~ (y mod 4 = 0 /\ (y mod 100 <> 0 \/ y mod 400 = 0))) /\ daysInMonth y m = 28)) \/
  ((m = 4 \/ m = 6 \/ m = 9 \/ m = 11) /\ daysInMonth y m = 30) \/
  ((m = 1 \/ m = 3 \/ m = 5 \/ m = 7 \/ m = 8 \/ m = 10 \/ m = 12) /\ daysInMonth y m = 31).
Proof.
  intros Hm. unfold daysInMonth, isLeapYear.
  destruct (m =? 2) eqn:E2.
  - apply Z.eqb_eq in E2. left. split; [assumption |].
    destruct (y mod 4 =? 0) eqn:E4; destruct (y mod 100 =? 0) eqn:E100;
      destruct (y mod 400 =? 0) eqn:E400; cbn [andb orb negb];
      rewrite ?Z.eqb_eq, ?Z.eqb_neq in *; intuition lia.
  - apply Z.eqb_neq in E2.
    destruct (m =? 4) eqn:Ea; destruct (m =? 6) eqn:Eb; destruct (m =? 9) eqn:Ec;
      destruct (m =? 11) eqn:Ed; cbn [orb];
      rewrite ?Z.eqb_eq, ?Z.eqb_neq in *; intuition lia.
Qed.

Lemma civil_of_doe_ok (doe : Z) :
  0 <= doe < 146097 ->
  let '(yoe, m, d) := civil_of_doe doe in
  0 <= yoe < 400 /\ 1 <= m <= 12 /\
  1 <= d <= daysInMonth (yoe + (if m <=? 2 then 1 else 0)) m /\
  doe_of yoe m d = doe.
Proof.
  intros H. unfold civil_of_doe, doe_of. cbv zeta.
  set (yoe := (doe - doe / 1460 + doe / 36524 - doe / 146096) / 365).
  set (doy := doe - (365 * yoe + yoe / 4 - yoe / 100)).
  set (mp := (5 * doy + 2) / 153).
  assert (Hy : 0 <= yoe < 400 /\ 0 <= doy <= 365 /\
               (doy = 365 -> (yoe + 1) mod 4 = 0 /\ ((yoe + 1) mod 100 <> 0 \/ (yoe + 1) mod 400 = 0))).
  { unfold doy, yoe. (Z.div_mod_to_equations; lia). }
  destruct Hy as (Hyoe & Hdoy & Hleap).
  assert (Hmp : 0 <= mp <= 11) by (unfold mp; Z.div_mod_to_equations; lia).
  destruct (mp <? 10) eqn:Emp.
  - apply Z.ltb_lt in Emp.
    assert (Em : (mp + 3 <=? 2) = false) by (apply Z.leb_gt; lia).
    assert (Em' : (2 <? mp + 3) = true) by (apply Z.ltb_lt; lia).
    rewrite Em, Em'. 
    split; [assumption |]. split; [lia |]. split.
    + assert (Hm3 : 1 <= mp + 3 <= 12) by lia.
      destruct (@daysInMonth_cases (yoe + 0) (mp + 3) Hm3) as [[Ha Hb] | [[Ha Hb] | [Ha Hb]]]; try rewrite Hb;
        [lia | |]; unfold mp in *; (Z.div_mod_to_equations; lia).
    + replace (mp + 3 - 3) with mp by lia. unfold mp, doy. (Z.div_mod_to_equations; lia).
  - apply Z.ltb_ge in Emp.
    assert (Em : (mp - 9 <=? 2) = true) by (apply Z.leb_le; lia).
    assert (Em' : (2 <? mp - 9) = false) by (apply Z.ltb_ge; lia).
    rewrite Em, Em'.
    split; [assumption |]. split; [lia |]. split.
    + assert (Hm9 : 1 <= mp - 9 <= 12) by lia.
      destruct (@daysInMonth_cases (yoe + 1) (mp - 9) Hm9)
        as [[Ha [[Hb Hc] | [Hb Hc]]] | [[Ha Hc] | [Ha Hc]]]; rewrite Hc;
        unfold mp in *; (Z.div_mod_to_equations; lia).
    + replace (mp - 9 + 9) with mp by lia. unfold mp, doy. (Z.div_mod_to_equations; lia).
Qed.

Lemma civil_of_doe_unique (doe yoe doy mp : Z) :
  0 <= yoe < 400 ->
  0 <= doy <= 365 ->
  (doy = 365 -> (yoe + 1) mod 4 = 0 /\ ((yoe + 1) mod 100 <> 0 \/ (yoe + 1) mod 400 = 0)) ->
  doe = yoe * 365 + yoe / 4 - yoe / 100 + doy ->
  (153 * mp + 2) / 5 <= doy < (153 * (mp + 1) + 2) / 5 ->
  0 <= mp <= 11 ->
  0 <= doe < 146097 /\
  civil_of_doe doe =
    (yoe, (if mp <? 10 then mp + 3 else mp - 9), doy - (153 * mp + 2) / 5 + 1).
Proof.
  intros Hy Hdoy Hleap Hdoe Hmp Hmp'.
  assert (Hrange : 0 <= doe < 146097) by (Z.div_mod_to_equations; lia).
  split; [assumption |].
  unfold civil_of_doe. cbv zeta.
  assert (Hyoe : (doe - doe / 1460 + doe / 36524 - doe / 146096) / 365 = yoe)
    by (Z.div_mod_to_equations; lia).
  rewrite Hyoe.
  replace (doe - (365 * yoe + yoe / 4 - yoe / 100)) with doy by lia.
  assert (Hmp2 : (5 * doy + 2) / 153 = mp) by (Z.div_mod_to_equations; lia).
  rewrite Hmp2. reflexivity.
Qed.

Lemma isLeapYear_true (y : Z) :
  isLeapYear y = true -> y mod 4 = 0 /\ (y mod 100 <> 0 \/ y mod 400 = 0).
Proof.
  unfold isLeapYear. intros H. apply andb_true_iff in H. destruct H as [H4 H].
  apply Z.eqb_eq in H4. split; [assumption |].
  apply orb_true_iff in H. destruct H as [H | H].
  - left. apply negb_true_iff, Z.eqb_neq in H. assumption.
  - right. now apply Z.eqb_eq in H.
Qed.

(** The months in the order of the era's year, which starts in March:
    the number of a month in that order, and the day of that year on
    which it starts. *)
Lemma doe_of_month (yoe m d : Z) :
  doe_of yoe m d =
  yoe * 365 + yoe / 4 - yoe / 100 +
  ((153 * (if 2 <? m then m - 3 else m + 9) + 2) / 5 + d - 1).
Proof. reflexivity. Qed.

Lemma doe_of_range (yoe m d : Z) :
  0 <= yoe < 400 -> 1 <= m <= 12 ->
  1 <= d <= daysInMonth (yoe + (if m <=? 2 then 1 else 0)) m ->
  0 <= doe_of yoe m d < 146097 /\
  civil_of_doe (doe_of yoe m d) = (yoe, m, d).
Proof.
  intros Hy Hm Hd.
  assert (Hleap : m = 2 -> d = 29 ->
                  (yoe + 1) mod 4 = 0 /\
                  ((yoe + 1) mod 100 <> 0 \/ (yoe + 1) mod 400 = 0)).
  { intros -> ->.
    change (1 <= 29 <= (if isLeapYear (yoe + 1) then 29 else 28)) in Hd.
    destruct (isLeapYear (yoe + 1)) eqn:E; [now apply isLeapYear_true | lia]. }
  assert (Hlen : 1 <= d <= 31 /\ (m = 2 -> d <= 29) /\
                 (m = 4 \/ m = 6 \/ m = 9 \/ m = 11 -> d <= 30)).
  { destruct (@daysInMonth_cases (yoe + (if m <=? 2 then 1 else 0)) m Hm)
      as [[Ha [[Hb Hc] | [Hb Hc]]] | [[Ha Hc] | [Ha Hc]]]; rewrite Hc in Hd; lia. }
  clear Hd. destruct Hlen as (H31 & H29 & H30).
  pose proof (doe_of_month yoe m d) as Hdoe.
  assert (Hcases : m = 1 \/ m = 2 \/ m = 3 \/ m = 4 \/ m = 5 \/ m = 6 \/
                   m = 7 \/ m = 8 \/ m = 9 \/ m = 10 \/ m = 11 \/ m = 12) by lia.
  repeat (destruct Hcases as [Hcases | Hcases]); subst m;
    cbn [Z.ltb Z.compare Pos.compare Pos.compare_cont Z.add Z.sub Z.opp Z.pos_sub
         Pos.add Pos.succ Pos.add_carry Pos.pred_double Z.succ_double Z.pred_double
         Z.double] in Hdoe;
    match type of Hdoe with
    | doe_of yoe ?mm d = _ + ((153 * ?mp + 2) / 5 + d - 1) =>
        assert (P2 : 0 <= (153 * mp + 2) / 5 + d - 1 <= 365)
          by (Z.div_mod_to_equations; lia);
        assert (P3 : (153 * mp + 2) / 5 + d - 1 = 365 ->
                     (yoe + 1) mod 4 = 0 /\
                     ((yoe + 1) mod 100 <> 0 \/ (yoe + 1) mod 400 = 0))
          by (intros Hlast; apply Hleap; Z.div_mod_to_equations; lia);
        assert (P5 : (153 * mp + 2) / 5 <= (153 * mp + 2) / 5 + d - 1
                     < (153 * (mp + 1) + 2) / 5)
          by (Z.div_mod_to_equations; lia);
        assert (P6 : 0 <= mp <= 11) by lia;
        destruct (@civil_of_doe_unique (doe_of yoe mm d) yoe
                    ((153 * mp + 2) / 5 + d - 1) mp Hy P2 P3 Hdoe P5 P6)
          as [Hrange Hciv];
        split; [exact Hrange |];
        rewrite Hciv; cbn [Z.ltb Z.compare Pos.compare Pos.compare_cont];
        repeat f_equal; Z.div_mod_to_equations; lia
    end.
Qed.

Lemma isLeapYear_era (y era : Z) : isLeapYear (y + era * 400) = isLeapYear y.
Proof.
  unfold isLeapYear.
  replace (y + era * 400) with (y + (era * 100) * 4) at 1 by lia.
  replace (y + era * 400) with (y + (era * 4) * 100) at 1 by lia.
  now rewrite !Z_mod_plus_full.
Qed.

Lemma daysInMonth_era (y era m : Z) : daysInMonth (y + era * 400) m = daysInMonth y m.
Proof. unfold daysInMonth. now rewrite isLeapYear_era. Qed.

Lemma days_from_civil_era (y m d : Z) :
  days_from_civil y m d =
  let y' := if m <=? 2 then y - 1 else y in
  (y' / 400) * 146097 + doe_of (y' - (y' / 400) * 400) m d - 719468.
Proof. reflexivity. Qed.

Lemma civil_from_days_era (z : Z) :
  civil_from_days z =
  let era := (z + 719468) / 146097 in
  let '(yoe, m, d) := civil_of_doe (z + 719468 - era * 146097) in
  ((if m <=? 2 then yoe + era * 400 + 1 else yoe + era * 400), m, d).
Proof. reflexivity. Qed.

(** Every day number is the day number of its civil date, which is a
    date of the calendar. *)
Lemma days_from_civil_from_days (z : Z) :
  let '(y, m, d) := civil_from_days z in
  days_from_civil y m d = z /\
  1 <= m <= 12 /\ 1 <= d <= daysInMonth y m /\
  ((z + 719468) / 146097) * 400 <= y.
Proof.
  rewrite civil_from_days_era. cbv zeta.
  set (era := (z + 719468) / 146097).
  set (doe := z + 719468 - era * 146097).
  assert (Hdoe : 0 <= doe < 146097).
  { unfold doe, era. pose proof (Z.div_mod (z + 719468) 146097 ltac:(lia)).
    pose proof (Z.mod_pos_bound (z + 719468) 146097 ltac:(lia)). lia. }
  pose proof (@civil_of_doe_ok doe Hdoe) as Hc.
  destruct (civil_of_doe doe) as [[yoe m] d].
  destruct Hc as ((H1 & H2) & (H3 & H4) & (H5 & H6) & H7).
  rewrite days_from_civil_era. cbv zeta.
  destruct (m <=? 2) eqn:Em.
  - replace (yoe + era * 400 + 1 - 1) with (yoe + era * 400) by lia.
    assert (Hera : (yoe + era * 400) / 400 = era).
    { symmetry. apply (Z.div_unique _ _ _ yoe); lia. }
    rewrite Hera.
    replace (yoe + era * 400 - era * 400) with yoe by lia.
    rewrite H7.
    replace (yoe + era * 400 + 1) with (yoe + 1 + era * 400) by lia.
    rewrite daysInMonth_era. unfold doe. repeat split; lia.
  - assert (Hera : (yoe + era * 400) / 400 = era).
    { symmetry. apply (Z.div_unique _ _ _ yoe); lia. }
    rewrite Hera.
    replace (yoe + era * 400 - era * 400) with yoe by lia.
    rewrite H7, daysInMonth_era.
    rewrite Z.add_0_r in H6. unfold doe. repeat split; lia.
Qed.

(** Every date of the calendar is the civil date of its day number. *)
Lemma civil_from_days_from_civil (y m d : Z) :
  1 <= m <= 12 -> 1 <= d <= daysInMonth y m ->
  civil_from_days (days_from_civil y m d) = (y, m, d).
Proof.
  intros Hm Hd. rewrite days_from_civil_era. cbv zeta.
  set (y' := if m <=? 2 then y - 1 else y).
  set (era := y' / 400).
  set (yoe := y' - era * 400).
  assert (Hyoe : 0 <= yoe < 400).
  { unfold yoe, era. pose proof (Z.div_mod y' 400 ltac:(lia)).
    pose proof (Z.mod_pos_bound y' 400 ltac:(lia)). lia. }
  assert (Hy : y = yoe + (if m <=? 2 then 1 else 0) + era * 400).
  { unfold yoe, y'. destruct (m <=? 2); lia. }
  assert (Hdim : 1 <= d <= daysInMonth (yoe + (if m <=? 2 then 1 else 0)) m).
  { rewrite <- (daysInMonth_era _ era), <- Hy. assumption. }
  destruct (@doe_of_range yoe m d Hyoe Hm Hdim) as [[H1 H2] Hciv].
  set (doe := doe_of yoe m d) in *.
  rewrite civil_from_days_era. cbv zeta.
  replace (era * 146097 + doe - 719468 + 719468) with (doe + era * 146097) by lia.
  assert (Hera : (doe + era * 146097) / 146097 = era).
  { symmetry. apply (Z.div_unique _ _ _ doe); lia. }
  rewrite Hera.
  replace (doe + era * 146097 - era * 146097) with doe by lia.
  rewrite Hciv.
  f_equal. f_equal. rewrite Hy. destruct (m <=? 2); lia.
Qed.

(** ** The decision of [shouldExecuteNow], in day numbers *)

(** [new Date(d.getFullYear(), d.getMonth(), d.getDate())] is local
    midnight of the local day of [d] (for days from 31 December 1969 on,
    where no two-digit year is met). *)
Lemma dateOnly_is_local_midnight (h : Host) (t : Z) :
  -1 <= Day (LocalTime h t) ->
  dateOnly h (Some t) = Some (msPerDay * Day (LocalTime h t) - LocalTZA h).
Proof.
  intros Hday. unfold dateOnly, option_map, newDateYMD, getFullYear, getMonth, getDate.
  set (n := Day (LocalTime h t)) in *.
  pose proof (days_from_civil_from_days n) as Hn.
  destruct (civil_from_days n) as [[y m] d].
  destruct Hn as (Hdays & Hm & Hd & Hy).
  assert (Hera : 4 <= (n + 719468) / 146097).
  { apply Z.div_le_lower_bound; lia. }
  assert (Hyear : ((0 <=? y) && (y <=? 99))%bool = false).
  { apply andb_false_iff. right. apply Z.leb_gt. lia. }
  rewrite Hyear. replace (m - 1 + 1) with m by lia. now rewrite Hdays.
Qed.

Lemma isoDateOnly_nonempty (s : string) (ymd : Z * Z * Z) :
  isoDateOnly s = Some ymd -> truthy (Some s) = true.
Proof.
  unfold isoDateOnly. destruct s as [| c s]; [| reflexivity].
  unfold dateRegex_test. discriminate.
Qed.

Lemma Day_of_utc_midnight (n tza : Z) :
  - msPerDay <= tza < msPerDay ->
  (msPerDay * n + tza) / msPerDay = n + (if tza <? 0 then -1 else 0).
Proof.
  unfold msPerDay. intros H. destruct (tza <? 0) eqn:E.
  - apply Z.ltb_lt in E. symmetry.
    apply (Z.div_unique _ _ _ (tza + 86400000)); lia.
  - apply Z.ltb_ge in E. symmetry. apply (Z.div_unique _ _ _ tza); lia.
Qed.

(** For a date written [YYYY-MM-DD], not before 1970, and a clock not
    before 1970, the decision compares day numbers: the local day of
    midnight UTC of the written date, against the local day of the clock.
    The former is the written date itself at or east of UTC, and the day
    before it west of UTC. *)
Lemma shouldExecuteNow_compares_local_days (h : Host) (s : string) (Y M D : Z) :
  isoDateOnly s = Some (Y, M, D) ->
  0 <= days_from_civil Y M D ->
  0 <= localToday h ->
  - msPerDay <= LocalTZA h < msPerDay ->
  shouldExecuteNow h (Some s) =
  (days_from_civil Y M D + (if LocalTZA h <? 0 then -1 else 0) <=? localToday h).
Proof.
  intros Hiso Hepoch Htoday Htz.
  unfold shouldExecuteNow. rewrite (isoDateOnly_nonempty _ Hiso). cbn [negb].
  unfold Date_parse. rewrite Hiso.
  assert (Hlocal : Day (LocalTime h (msPerDay * days_from_civil Y M D)) =
                   days_from_civil Y M D + (if LocalTZA h <? 0 then -1 else 0)).
  { unfold Day, LocalTime. now apply Day_of_utc_midnight. }
  rewrite !dateOnly_is_local_midnight.
  - rewrite Hlocal. unfold date_le. fold (localToday h).
    apply Bool.eq_true_iff_eq. rewrite !Z.leb_le. unfold msPerDay. lia.
  - fold (localToday h). lia.
  - rewrite Hlocal. destruct (LocalTZA h <? 0); lia.
Qed.

(** At or east of UTC the decision is the one the specification states:
    execute now exactly when the written date is not after the local
    day. *)
Lemma shouldExecuteNow_east_of_utc (h : Host) (s : string) (Y M D : Z) :
  isoDateOnly s = Some (Y, M, D) ->
  0 <= days_from_civil Y M D ->
  0 <= localToday h ->
  0 <= LocalTZA h < msPerDay ->
  shouldExecuteNow h (Some s) = (days_from_civil Y M D <=? localToday h).
Proof.
  intros Hiso Hepoch Htoday Htz.
  rewrite (shouldExecuteNow_compares_local_days h _ Hiso Hepoch Htoday)
    by (unfold msPerDay in *; lia).
  assert (E : (LocalTZA h <? 0) = false) by (apply Z.ltb_ge; lia).
  rewrite E. now rewrite Z.add_0_r.
Qed.

(** X18.  West of UTC the comparison is off by one day: an instruction
    dated tomorrow is executed today. *)
Lemma shouldExecuteNow_west_of_utc (h : Host) (s : string) (Y M D : Z) :
  isoDateOnly s = Some (Y, M, D) ->
  0 <= localToday h ->
  - msPerDay <= LocalTZA h < 0 ->
  days_from_civil Y M D = localToday h + 1 ->
  shouldExecuteNow h (Some s) = true.
Proof.
  intros Hiso Htoday Htz Htomorrow.
  rewrite (shouldExecuteNow_compares_local_days h _ Hiso)
    by (unfold msPerDay in *; lia).
  assert (E : (LocalTZA h <? 0) = true) by (apply Z.ltb_lt; lia).
  rewrite E. apply Z.leb_le. lia.
Qed.

(** X19.  In a process at or east of UTC, a run whose instruction is dated
    after the local day ends pending, with code ["AP02"] and every
    balance unchanged; one dated on or before the local day is
    executed. *)
Lemma dated_run_east_of_utc (h : Host) (data : ServiceData) (response : Response.t)
    (s : string) (Y M D : Z) :
  parseInstruction h data = Ok response ->
  Response.execute_by response = Some s ->
  isoDateOnly s = Some (Y, M, D) ->
  0 <= days_from_civil Y M D ->
  0 <= localToday h ->
  0 <= LocalTZA h < msPerDay ->
  (localToday h < days_from_civil Y M D ->
   Response.status response = "pending" /\
   Response.status_code response = "AP02" /\
   forall a, In a (Response.accounts response) ->
             Projected.balance a = Projected.balance_before a) /\
  (days_from_civil Y M D <= localToday h ->
   Response.status response = "successful" /\
   Response.status_code response = "AP00").
Proof.
  intros Hrun Hby Hiso Hepoch Htoday Htz.
  pose proof (status_follows_decision h data Hrun) as Hstatus.
  rewrite Hby, (shouldExecuteNow_east_of_utc h s Hiso Hepoch Htoday Htz) in Hstatus.
  split; intros Hcmp.
  - destruct Hstatus as [(_ & H) | (Hnow & _)]; [exact H |].
    apply Z.leb_le in Hnow. lia.
  - destruct Hstatus as [(Hlater & _) | (_ & H)]; [| exact H].
    apply Z.leb_gt in Hlater. lia.
Qed.

(** ** Failures that are not typed *)

(** C7.  An instruction that ends right after the second [Account]
    keyword leaves the credit account id [undefined]; the validator then
    reads [.length] of it and the call ends in a [TypeError], which is not
    one of the typed failures, whatever the accounts and the host. *)
Theorem missing_account_id_raises_TypeError (h : Host) (accts : list Account.t) :
  parseInstructionText (trim "Debit 500 NGN from Account A001 for credit to Account") =
    Ok {| type := DEBIT; amount := num 500; currency := "NGN";
          debit_account := Some "A001"; credit_account := None;
          execute_by := None |} /\
  parseInstruction h
    (mkServiceData accts "Debit 500 NGN from Account A001 for credit to Account") =
  Err TypeError.
Proof.
  assert (Hparse :
    parseInstructionText (trim "Debit 500 NGN from Account A001 for credit to Account") =
    Ok {| type := DEBIT; amount := num 500; currency := "NGN";
          debit_account := Some "A001"; credit_account := None;
          execute_by := None |}) by (vm_compute; reflexivity).
  split; [exact Hparse |].
  unfold parseInstruction. cbn [accounts instruction].
  rewrite Hparse. reflexivity.
Qed.

(** Apart from a missing account id, every failure is a typed one. *)
Lemma untyped_failure_only_from_missing_id (h : Host) (data : ServiceData) :
  parseInstruction h data = Err TypeError ->
  exists parsed,
    parseInstructionText (trim (instruction data)) = Ok parsed /\
    (debit_account parsed = None \/ credit_account parsed = None).
Proof.
  unfold parseInstruction.
  destruct (parseInstructionText (trim (instruction data))) as [parsed | e] eqn:Hparse.
  - intros H. exists parsed. split; [reflexivity |].
    destruct (debit_account parsed) as [d |] eqn:Hd; [| now left].
    destruct (credit_account parsed) as [c |] eqn:Hc; [| now right].
    exfalso. cbn [bind] in H.
    rewrite (validateParsedData_rules h parsed (accounts data) Hd Hc) in H.
    unfold nineRules in H. cbn [reportFirst] in H.
    case_steps H.
  - intros H. exfalso. cbn [bind] in H. inversion H; subst; clear H.
    unfold parseInstructionText in Hparse.
    destruct (looksLikeDebit _).
    + unfold parseDebitFormat, checkedAmount, checkedCurrency, throwIf, throwAppError in Hparse.
      case_steps Hparse.
    + destruct (looksLikeCredit _); [| discriminate].
      unfold parseCreditFormat, checkedAmount, checkedCurrency, throwIf, throwAppError in Hparse.
      case_steps Hparse.
Qed.

(** ** Order of the validator's rules *)

(** C3 (as amended).  For an instruction whose two account ids are
    present, the validator reports the first violated rule of the nine, in
    the order: debit id well-formed, credit id well-formed, same account,
    debit exists, credit exists, debit currency, credit currency,
    sufficient funds, date format.  In particular, when [debit_account]
    equals [credit_account] and that id is well-formed, the result is
    [SAME_ACCOUNT_ERROR] whatever the accounts, the amount, the currency
    and [execute_by] are. *)
Theorem validator_reports_first_violated_rule (h : Host) (parsed : ParsedInstruction)
    (accts : list Account.t) (debit credit : string) :
  debit_account parsed = Some debit ->
  credit_account parsed = Some credit ->
  validateParsedData h parsed accts =
    reportFirst (nineRules h parsed debit credit accts) /\
  (debit = credit -> isValidAccountIdStr debit = true ->
   validateParsedData h parsed accts = Err (AppError SAME_ACCOUNT_ERROR INVLDDATA)).
Proof.
  intros Hd Hc.
  pose proof (validateParsedData_rules h parsed accts Hd Hc) as Hrules.
  split; [exact Hrules |].
  intros Heq Hvalid. rewrite Hrules. unfold nineRules. cbn [reportFirst].
  subst credit. rewrite Hvalid, String.eqb_refl. reflexivity.
Qed.

Lemma validator_reports_same_account :
  validateParsedData host_utc same_wellformed_id example_accounts =
  Err (AppError SAME_ACCOUNT_ERROR INVLDDATA).
Proof.
  exact (proj2 (@validator_reports_first_violated_rule host_utc same_wellformed_id
                  example_accounts "A001" "A001" eq_refl eq_refl)
               eq_refl eq_refl).
Defined.

(** The claim as first stated fails: a malformed id named twice is
    reported as [INVALID_ACCOUNT_ID], the rule checked first. *)
Lemma same_account_with_malformed_id :
  parseInstructionText "Debit 500 NGN from Account A# for credit to Account A#" =
    Ok same_malformed_id /\
  debit_account same_malformed_id = credit_account same_malformed_id /\
  validateParsedData host_utc same_malformed_id example_accounts =
    Err (AppError INVALID_ACCOUNT_ID INVLDDATA).
Proof. vm_compute. repeat split; reflexivity. Qed.

(** ** Keyword lookups *)

Lemma findKeywordLoop_spec (keyword : string) (rest : list string) : forall i,
  (findKeywordLoop rest keyword i = -1 /\
   forall n w, nth_error rest n = Some w -> toLowerCase w <> toLowerCase keyword) \/
  (exists n w,
     findKeywordLoop rest keyword i = i + Z.of_nat n /\
     nth_error rest n = Some w /\
     toLowerCase w = toLowerCase keyword /\
     forall m w', (m < n)%nat -> nth_error rest m = Some w' ->
                  toLowerCase w' <> toLowerCase keyword).
Proof.
  induction rest as [| w rest IH]; intros i; simpl.
  - left. split; [reflexivity |]. intros [| n] w' H; discriminate H.
  - destruct (String.eqb (toLowerCase w) (toLowerCase keyword)) eqn:E.
    + right. exists 0%nat, w. apply String.eqb_eq in E.
      repeat split; [lia | assumption | intros m w' Hm; lia].
    + apply String.eqb_neq in E.
      destruct (IH (i + 1)) as [[Hnone Hall] | (n & w' & Hi & Hn & Hw & Hless)].
      * left. split; [assumption |].
        intros [| n] w' H; simpl in H; [congruence | eauto].
      * right. exists (S n), w'. repeat split; try assumption; [lia |].
        intros [| m] w'' Hm H; simpl in H; [congruence |].
        apply (Hless m); [lia | assumption].
Qed.

Lemma at_index_skipn (words : list string) (start : Z) (n : nat) :
  0 <= start ->
  at_index words (start + Z.of_nat n) = nth_error (skipn (Z.to_nat start) words) n.
Proof.
  intros H. unfold at_index.
  destruct (start + Z.of_nat n <? 0) eqn:E; [apply Z.ltb_lt in E; lia |].
  rewrite nth_error_skipn. f_equal. lia.
Qed.

Lemma findKeywordIndex_spec (words : list string) (keyword : string) (start : Z) :
  0 <= start ->
  FirstMatchFrom words keyword start (findKeywordIndex words keyword start).
Proof.
  intros Hstart. unfold FirstMatchFrom, findKeywordIndex, matchesKeyword.
  destruct (findKeywordLoop_spec keyword (skipn (Z.to_nat start) words) start)
    as [[Hnone Hall] | (n & w & Hi & Hn & Hw & Hless)].
  - left. split; [assumption |].
    intros j Hj (w & Hat & Hw).
    replace j with (start + Z.of_nat (Z.to_nat (j - start))) in Hat by lia.
    rewrite at_index_skipn in Hat by assumption.
    exact (Hall _ _ Hat Hw).
  - right. rewrite Hi. split; [lia |]. split.
    + exists w. rewrite at_index_skipn by assumption. auto.
    + intros j Hj (w' & Hat & Hw').
      replace j with (start + Z.of_nat (Z.to_nat (j - start))) in Hat by lia.
      rewrite at_index_skipn in Hat by assumption.
      apply (Hless (Z.to_nat (j - start)) w'); [lia | assumption | assumption].
Qed.

Lemma findKeywordIndex_lower_bound (words : list string) (keyword : string) (start : Z) :
  0 <= start -> -1 <= findKeywordIndex words keyword start.
Proof.
  intros H. destruct (findKeywordIndex_spec words keyword H) as [[-> _] | [Hle _]]; lia.
Qed.

(** The guard of [parseDebitFormat] fires exactly when a lookup failed. *)
Lemma debit_guard_iff (words : list string) :
  ((findKeywordIndex words "debit" 0 =? -1) ||
   (findKeywordIndex words "from" 0 =? -1) ||
   (findKeywordIndex words "for" 0 =? -1) ||
   (findKeywordIndex words "for" 0 + 1 =? -1) ||
   (findKeywordIndex words "to" (findKeywordIndex words "for" 0 + 1) =? -1))%bool = false
  <-> debitAnchorsFound words.
Proof.
  unfold debitAnchorsFound.
  pose proof (@findKeywordIndex_lower_bound words "for" 0 ltac:(lia)) as Hfor.
  rewrite !orb_false_iff, !Z.eqb_neq. intuition lia.
Qed.

Lemma credit_guard_iff (words : list string) :
  ((findKeywordIndex words "credit" 0 =? -1) ||
   (findKeywordIndex words "to" 0 =? -1) ||
   (findKeywordIndex words "for" 0 =? -1) ||
   (findKeywordIndex words "for" 0 + 1 =? -1) ||
   (findKeywordIndex words "from" (findKeywordIndex words "for" 0 + 1) =? -1))%bool = false
  <-> creditAnchorsFound words.
Proof.
  unfold creditAnchorsFound.
  pose proof (@findKeywordIndex_lower_bound words "for" 0 ltac:(lia)) as Hfor.
  rewrite !orb_false_iff, !Z.eqb_neq. intuition lia.
Qed.

(** C4 (as amended).  [findKeywordIndex] returns the least index at or
    after its start index whose token equals the keyword
    case-insensitively, or -1.  The debit-format parser makes four
    lookups: the first [debit], the first [from] and the first [for],
    each from the start of the tokens, and the first [to] at or after the
    index that follows [for].  It fails with [INVALID_KEYWORD_ORDER]
    exactly when one of the four finds nothing; the relative order of the
    anchors is not otherwise checked. *)
Theorem parseDebitFormat_anchor_lookups (words : list string) :
  (forall keyword start, 0 <= start ->
     FirstMatchFrom words keyword start (findKeywordIndex words keyword start)) /\
  (parseDebitFormat words = Err (AppError INVALID_KEYWORD_ORDER INVLDDATA) <->
   ~ debitAnchorsFound words).
Proof.
  split; [intros keyword start; apply findKeywordIndex_spec |].
  rewrite <- debit_guard_iff. unfold parseDebitFormat.
  destruct ((findKeywordIndex words "debit" 0 =? -1) || _ || _ || _ || _)%bool eqn:G.
  - split; [intros _; discriminate | reflexivity].
  - split; [| intros H; now contradiction H].
    intros H. exfalso. cbn [throwIf bind] in H.
    unfold checkedAmount, checkedCurrency, throwIf, throwAppError in H.
    case_steps H.
Qed.

(** Tokens with no [to] after the [for] clause. *)
Lemma missing_to_is_keyword_order_failure :
  parseDebitFormat ["Debit"; "500"; "NGN"; "from"; "Account"; "A001"; "for";
                    "credit"; "Account"; "B002"] =
  Err (AppError INVALID_KEYWORD_ORDER INVLDDATA).
Proof.
  apply (proj2 (parseDebitFormat_anchor_lookups
                  ["Debit"; "500"; "NGN"; "from"; "Account"; "A001"; "for";
                   "credit"; "Account"; "B002"])).
  unfold debitAnchorsFound. vm_compute. intros (_ & _ & _ & H). now apply H.
Defined.

(** The claim as first stated fails: with [from] and [for] before
    [debit], the anchors are not in the stated order, and the parser
    accepts the tokens. *)
Lemma reordered_anchors_accepted :
  findKeywordIndex reordered_words "debit" 0 = 8 /\
  findKeywordIndex reordered_words "from" 0 = 0 /\
  findKeywordIndex reordered_words "for" 0 = 3 /\
  findKeywordIndex reordered_words "to" 4 = 5 /\
  parseDebitFormat reordered_words =
    Ok {| type := DEBIT; amount := num 500; currency := "NGN";
          debit_account := Some "A001"; credit_account := Some "B002";
          execute_by := None |} /\
  parseInstructionText
    "from Account A001 for credit to Account B002 Debit 500 NGN" =
    Ok {| type := DEBIT; amount := num 500; currency := "NGN";
          debit_account := Some "A001"; credit_account := Some "B002";
          execute_by := None |}.
Proof. vm_compute. repeat split; reflexivity. Qed.

(** ** The amount *)

Lemma trimStart_white (ws s : string) :
  allChars isWhiteSpace ws = true -> trimStart (ws ++ s) = trimStart s.
Proof.
  induction ws as [| c ws IH]; cbn [allChars append trimStart]; [reflexivity |].
  intros H. apply andb_true_iff in H. destruct H as [Hc Hws].
  rewrite Hc. now apply IH.
Qed.



Lemma digitsPrefix_numeral (digits rest : string) (acc : Z) :
  allChars isDigit digits = true ->
  startsWithDigit rest = false ->
  digitsPrefix (digits ++ rest) acc =
  acc * 10 ^ Z.of_nat (String.length digits) + numeral digits.
Proof.
  intros Hd Hr. revert acc.
  induction digits as [| c digits IH]; intros acc.
  - cbn [append String.length numeral Z.of_nat]. rewrite Z.pow_0_r, Z.mul_1_r, Z.add_0_r.
    destruct rest as [| c r]; [reflexivity |].
    cbn [startsWithDigit] in Hr. cbn [digitsPrefix]. now rewrite Hr.
  - cbn [allChars] in Hd. apply andb_true_iff in Hd. destruct Hd as [Hc Hd].
    cbn [append digitsPrefix]. rewrite Hc, (IH Hd).
    cbn [String.length numeral]. rewrite Nat2Z.inj_succ, Z.pow_succ_r by lia. ring.
Qed.

Lemma append_empty_r (s : string) : s ++ "" = s.
Proof. induction s as [| c s IH]; cbn [append]; [reflexivity | now rewrite IH]. Qed.

Lemma decimalValue_numeral (digits : string) :
  allChars isDigit digits = true -> decimalValue digits = numeral digits.
Proof.
  intros Hd. unfold decimalValue.
  rewrite <- (append_empty_r digits) at 1.
  now rewrite (@digitsPrefix_numeral digits "" 0 Hd eq_refl).
Qed.




Lemma num_not_NaN (k : Z) : num k <> NaN.
Proof. unfold num, roundDouble. destruct (_ <=? _); discriminate. Qed.


Lemma checkedAmount_Ok (amountStr : option string) (a : number) :
  checkedAmount amountStr = Ok a ->
  parseInt amountStr = a /\ invalidAmount a = false.
Proof.
  unfold checkedAmount, throwAppError.
  destruct (invalidAmount (parseInt amountStr)) eqn:E; [discriminate |].
  intros H. inversion H; subst. auto.
Qed.






(** [parseInt] reads the leading integer of a token and ignores what
    follows it: ["500abc"] is the amount 500, ["12.5"] is 12; ["abc"],
    ["-5"] and ["0"] are refused; an integer beyond [2^53] is read as the
    nearest double. *)
Example parseInt_examples :
  parseInt (Some "500abc") = num 500 /\
  parseInt (Some "12.5") = num 12 /\
  parseInt (Some "abc") = NaN /\
  parseInt (Some "-5") = num (-5) /\
  parseInt None = NaN /\
  parseInt (Some "9007199254740993") = num 9007199254740992 /\
  parseDebitFormat ["Debit"; "0"; "NGN"; "from"; "Account"; "A001"; "for";
                    "credit"; "to"; "Account"; "B002"] =
    Err (AppError INVALID_AMOUNT INVLDDATA) /\
  parseDebitFormat ["Debit"; "abc"; "NGN"; "from"; "Account"; "A001"; "for";
                    "credit"; "to"; "Account"; "B002"] =
    Err (AppError INVALID_AMOUNT INVLDDATA).
Proof. vm_compute. repeat split; reflexivity. Qed.

(** ** The date rule *)

Lemma validateParsedData_date (h : Host) (parsed : ParsedInstruction)
    (accts : list Account.t) :
  validateParsedData h (withoutExecuteBy parsed) accts = Ok tt ->
  validateParsedData h parsed accts = validateExecuteBy h (execute_by parsed).
Proof.
  unfold validateParsedData, withoutExecuteBy.
  cbn [debit_account credit_account currency amount execute_by].
  intros H.
  destruct (isValidAccountId (debit_account parsed)) as [v1 |]; [| discriminate].
  cbn [bind] in *.
  destruct (throwIf (negb v1) _ _); [| discriminate]. cbn [bind] in *.
  destruct (isValidAccountId (credit_account parsed)) as [v2 |]; [| discriminate].
  cbn [bind] in *.
  destruct (throwIf (negb v2) _ _); [| discriminate]. cbn [bind] in *.
  destruct (throwIf (strictEq _ _) _ _); [| discriminate]. cbn [bind] in *.
  destruct (found (findAccount accts (debit_account parsed))) as [da |]; [| discriminate].
  cbn [bind] in *.
  destruct (found (findAccount accts (credit_account parsed))) as [ca |]; [| discriminate].
  cbn [bind] in *.
  destruct (throwIf (negb (String.eqb (toUpperCase (Account.currency da)) _)) _ _);
    [| discriminate]. cbn [bind] in *.
  destruct (throwIf (negb (String.eqb (toUpperCase (Account.currency ca)) _)) _ _);
    [| discriminate]. cbn [bind] in *.
  destruct (throwIf (jsLt (Account.balance da) (amount parsed)) _ _); [| discriminate].
  reflexivity.
Qed.

(** C6.  For an instruction whose [execute_by] is present (a non-empty
    token) and which passes every other rule of the validator, validation
    succeeds exactly when [new Date(execute_by)] is a valid date and the
    text matches [/^\d{4}-\d{2}-\d{2}$/]; when either condition fails the
    validator fails with [INVALID_DATE_FORMAT]. *)
Theorem execute_by_must_parse_and_match (h : Host) (parsed : ParsedInstruction)
    (accts : list Account.t) (s : string) :
  execute_by parsed = Some s ->
  s <> "" ->
  validateParsedData h (withoutExecuteBy parsed) accts = Ok tt ->
  (validateParsedData h parsed accts = Ok tt <->
   Date_parse h s <> None /\ dateRegex_test s = true) /\
  (~ (Date_parse h s <> None /\ dateRegex_test s = true) ->
   validateParsedData h parsed accts = Err (AppError INVALID_DATE_FORMAT INVLDDATA)).
Proof.
  intros He Hs Hrest.
  rewrite (validateParsedData_date h parsed accts Hrest), He, validateExecuteBy_cases.
  destruct s as [| c s]; [congruence |].
  destruct (Date_parse h (String c s)) as [t |];
    destruct (dateRegex_test (String c s)); cbn [andb]; split;
    try (split; [intros H; try discriminate H; split; congruence
                | intros [H1 H2]; congruence]);
    try (intros H; try reflexivity; exfalso; apply H; split; congruence).
Qed.

Lemma execute_by_canonical_date_accepted :
  validateParsedData host_utc (example_deferred "2099-01-01") example_accounts = Ok tt.
Proof.
  apply (proj1 (@execute_by_must_parse_and_match host_utc
                  (example_deferred "2099-01-01") example_accounts "2099-01-01"
                  eq_refl ltac:(discriminate) eq_refl)).
  split; [discriminate | reflexivity].
Defined.

(** A date the host can parse but that is not written [YYYY-MM-DD] is
    refused; so is the specification's ["2024-13-40"]. *)
Example execute_by_examples :
  Date_parse host_lenient "2099-01-01T10:00" = Some 0 /\
  validateParsedData host_lenient (example_deferred "2099-01-01T10:00") example_accounts =
    Err (AppError INVALID_DATE_FORMAT INVLDDATA) /\
  validateParsedData host_lenient (example_deferred "1/1/2099") example_accounts =
    Err (AppError INVALID_DATE_FORMAT INVLDDATA) /\
  validateParsedData host_utc (example_deferred "2024-13-40") example_accounts =
    Err (AppError INVALID_DATE_FORMAT INVLDDATA).
Proof. vm_compute. repeat split; reflexivity. Qed.

(** ** The format detector *)

(** C8 (as amended).  The DEBIT phrases are tested first: when they are
    all contained the debit-format parser is run, whether or not the
    CREDIT phrases are contained as well; when they are not and the CREDIT
    phrases are, the credit-format parser is run; when neither test holds
    the detector fails with [MALFORMED_INSTRUCTION]. *)
Theorem detector_checks_debit_first (text : string) :
  (looksLikeDebit (toLowerCase text) = true ->
   parseInstructionText text = parseDebitFormat (tokenize text)) /\
  (looksLikeDebit (toLowerCase text) = false ->
   looksLikeCredit (toLowerCase text) = true ->
   parseInstructionText text = parseCreditFormat (tokenize text)) /\
  (looksLikeDebit (toLowerCase text) = false ->
   looksLikeCredit (toLowerCase text) = false ->
   parseInstructionText text = Err (AppError MALFORMED_INSTRUCTION INVLDDATA)).
Proof.
  unfold parseInstructionText.
  repeat split; intros Hd; try intros Hc; rewrite Hd; try rewrite Hc; reflexivity.
Qed.

(** A text with none of the phrases. *)
Lemma neither_format_is_malformed :
  parseInstructionText "Send 500 NGN to B002" =
  Err (AppError MALFORMED_INSTRUCTION INVLDDATA).
Proof.
  apply (proj2 (proj2 (detector_checks_debit_first "Send 500 NGN to B002")));
    reflexivity.
Defined.

(** The claim as first stated fails: both containment tests hold for one
    and the same instruction, which is then read as a DEBIT. *)
Lemma both_formats_detected :
  looksLikeDebit (toLowerCase both_forms_instruction) = true /\
  looksLikeCredit (toLowerCase both_forms_instruction) = true /\
  parseInstructionText both_forms_instruction =
    Ok {| type := DEBIT; amount := num 500; currency := "NGN";
          debit_account := Some "A001"; credit_account := Some "B002";
          execute_by := None |}.
Proof. vm_compute. repeat split; reflexivity. Qed.

(** ** The accounts of the response *)

Lemma filter_disjoint_length (A : Type) (f g : A -> bool) (l : list A) :
  (forall x, f x = true -> g x = true -> False) ->
  length (filter (fun x => f x || g x)%bool l) =
  (length (filter f l) + length (filter g l))%nat.
Proof.
  intros Hdis. induction l as [| x l IH]; simpl; [reflexivity |].
  destruct (f x) eqn:Ef, (g x) eqn:Eg; simpl; rewrite IH; try lia.
  exfalso. eauto.
Qed.

Lemma filter_id_none (l : list Account.t) (d : string) :
  ~ In d (map Account.id l) ->
  filter (fun x => sameId (Account.id x) (Some d)) l = [].
Proof.
  induction l as [| x l IH]; cbn [filter map In]; intros H; [reflexivity |].
  destruct (sameId (Account.id x) (Some d)) eqn:E.
  - apply sameId_true in E. inversion E; subst. exfalso. apply H. now left.
  - apply IH. intros Hin. apply H. now right.
Qed.

Lemma filter_id_present (l : list Account.t) (d : string) :
  In d (map Account.id l) ->
  (1 <= length (filter (fun x => sameId (Account.id x) (Some d)) l))%nat.
Proof.
  induction l as [| x l IH]; cbn [filter map In]; intros H; [contradiction |].
  destruct (sameId (Account.id x) (Some d)) eqn:E; cbn [length]; [lia |].
  destruct H as [H | H]; [| auto].
  subst d. simpl in E. rewrite String.eqb_refl in E. discriminate.
Qed.

Lemma filter_id_NoDup (l : list Account.t) (d : string) :
  NoDup (map Account.id l) ->
  In d (map Account.id l) ->
  length (filter (fun x => sameId (Account.id x) (Some d)) l) = 1%nat.
Proof.
  induction l as [| x l IH]; cbn [filter map In]; intros Hnd Hin; [contradiction |].
  inversion Hnd as [| ? ? Hnotin Hnd']; subst.
  destruct (sameId (Account.id x) (Some d)) eqn:E; cbn [length].
  - apply sameId_true in E. inversion E; subst. now rewrite filter_id_none.
  - destruct Hin as [Hin | Hin]; [| auto].
    subst d. simpl in E. rewrite String.eqb_refl in E. discriminate.
Qed.

Lemma findAccount_id_In (accts : list Account.t) (d : string) (a : Account.t) :
  findAccount accts (Some d) = Some a -> In d (map Account.id accts).
Proof.
  intros H. apply findAccount_In in H. destruct H as [Hin <-]. now apply in_map.
Qed.

(** C9 (as amended).  In a successful run the response's [accounts] are,
    in input order, the supplied accounts whose id is the instruction's
    [debit_account] or [credit_account], each with its id,
    [balance_before] equal to the supplied balance and its currency
    uppercased; no other account appears.  There are at least two
    entries, and exactly two when the supplied account ids are pairwise
    distinct. *)
Theorem response_lists_referenced_accounts (h : Host) (data : ServiceData)
    (response : Response.t) :
  parseInstruction h data = Ok response ->
  let refs := filter (referenced (Response.debit_account response)
                                 (Response.credit_account response))
                     (accounts data) in
  map Projected.id (Response.accounts response) = map Account.id refs /\
  map Projected.balance_before (Response.accounts response) = map Account.balance refs /\
  map Projected.currency (Response.accounts response) =
    map (fun a => toUpperCase (Account.currency a)) refs /\
  (forall a, In a (Response.accounts response) ->
     Response.debit_account response = Some (Projected.id a) \/
     Response.credit_account response = Some (Projected.id a)) /\
  (2 <= length (Response.accounts response))%nat /\
  (NoDup (map Account.id (accounts data)) ->
   length (Response.accounts response) = 2%nat).
Proof.
  unfold parseInstruction. intros H.
  apply bind_Ok_inv in H. destruct H as (parsed & _ & H).
  apply bind_Ok_inv in H. destruct H as ([] & Hvalid & H).
  inversion H; subst; clear H.
  cbn [Response.accounts Response.debit_account Response.credit_account].
  rewrite processAccounts_filter, !map_map. cbn [project Projected.id
    Projected.balance_before Projected.currency].
  apply validateParsedData_Ok in Hvalid.
  destruct Hvalid as (d & c & da & ca & V).
  destruct V as [Vd Vc Vdid Vcid Vne Vdf Vcf Vdc Vcc Vfunds Vdate].
  assert (Hlen : forall l : list Account.t,
    length (map (project parsed (shouldExecuteNow h (execute_by parsed)))
      (filter (referenced (debit_account parsed) (credit_account parsed)) l)) =
    (length (filter (fun x => sameId (Account.id x) (Some d)) l) +
     length (filter (fun x => sameId (Account.id x) (Some c)) l))%nat).
  { intros l. rewrite length_map, Vd, Vc. unfold referenced.
    apply filter_disjoint_length. intros x H1 H2.
    apply sameId_true in H1, H2. congruence. }
  repeat split.
  - intros a Hin. apply in_map_iff in Hin. destruct Hin as (account & <- & Hin).
    apply filter_In in Hin. destruct Hin as [_ Href]. unfold referenced in Href.
    apply orb_true_iff in Href. cbn [project Projected.id].
    destruct Href as [Href | Href]; apply sameId_true in Href; auto.
  - rewrite Hlen.
    pose proof (filter_id_present _ _ (findAccount_id_In _ _ Vdf)).
    pose proof (filter_id_present _ _ (findAccount_id_In _ _ Vcf)).
    lia.
  - intros Hnd. rewrite Hlen.
    rewrite (filter_id_NoDup _ _ Hnd (findAccount_id_In _ _ Vdf)).
    rewrite (filter_id_NoDup _ _ Hnd (findAccount_id_In _ _ Vcf)).
    reflexivity.
Qed.

Lemma response_lists_two_accounts_example :
  exists response,
    parseInstruction host_utc (mkServiceData example_accounts example_instruction)
      = Ok response /\
    map Projected.id (Response.accounts response) = ["A001"; "B002"] /\
    map Projected.balance_before (Response.accounts response) = [num 1000; num 200] /\
    length (Response.accounts response) = 2%nat.
Proof.
  eexists. split; [vm_compute; reflexivity |].
  pose proof (@response_lists_referenced_accounts host_utc
                (mkServiceData example_accounts example_instruction) _ eq_refl)
    as (Hid & Hbefore & _ & _ & _ & Hlen).
  split; [exact Hid |]. split; [exact Hbefore |].
  apply Hlen. vm_compute.
  constructor; [intros [H | []]; discriminate H |].
  constructor; [intros [] | constructor].
Defined.

(** The claim as first stated fails: when the supplied set holds two
    accounts with the debit id, the response lists three accounts. *)
Lemma duplicated_id_yields_three_accounts :
  parseInstruction host_utc (mkServiceData duplicated_accounts example_instruction) =
  Ok {| Response.type := DEBIT;
        Response.amount := num 500;
        Response.currency := "NGN";
        Response.debit_account := Some "A001";
        Response.credit_account := Some "B002";
        Response.execute_by := None;
        Response.status := "successful";
        Response.status_reason := TRANSACTION_SUCCESSFUL;
        Response.status_code := "AP00";
        Response.accounts :=
          [ {| Projected.id := "A001"; Projected.balance := num 500;
               Projected.balance_before := num 1000; Projected.currency := "NGN" |};
            {| Projected.id := "A001"; Projected.balance := num (-450);
               Projected.balance_before := num 50; Projected.currency := "NGN" |};
            {| Projected.id := "B002"; Projected.balance := num 700;
               Projected.balance_before := num 200; Projected.currency := "NGN" |} ] |}.
Proof. vm_compute. reflexivity. Qed.

(** ** The store: what a call reads, allocates and overwrites *)

Lemma nth_error_set_nth_other (s : store) (l l' : loc) (o : object) :
  l <> l' -> nth_error (set_nth s l o) l' = nth_error s l'.
Proof.
  revert l l'. induction s as [| x s IH]; intros [| l] [| l'] H; simpl;
    try reflexivity; try congruence.
  apply IH. congruence.
Qed.

Lemma nth_error_set_nth_same (s : store) (l : loc) (o : object) :
  (l < length s)%nat -> nth_error (set_nth s l o) l = Some o.
Proof.
  revert l. induction s as [| x s IH]; intros [| l] H; simpl in *;
    try lia; try reflexivity.
  apply IH. lia.
Qed.

Lemma length_set_nth (s : store) (l : loc) (o : object) :
  length (set_nth s l o) = length s.
Proof.
  revert l. induction s as [| x s IH]; intros [| l]; simpl; auto.
Qed.

Lemma changesOnly_refl (r : loc) (s : store) : changesOnly r s s.
Proof. split; auto. Qed.

Lemma changesOnly_trans (r : loc) (s1 s2 s3 : store) :
  changesOnly r s1 s2 -> changesOnly r s2 s3 -> changesOnly r s1 s3.
Proof.
  intros [L1 H1] [L2 H2]. split; [lia |].
  intros l Hl Hr. rewrite H2 by (auto; lia). auto.
Qed.

Lemma readAccount_store (l : loc) (s s' : store) (r : result Account.t) :
  readAccount l s = (s', r) -> s' = s.
Proof.
  unfold readAccount. destruct (nth_error s l) as [[a | p | es] |];
    intros H; inversion H; reflexivity.
Qed.

Lemma readArray_store (l : loc) (s s' : store) (r : result (list loc)) :
  readArray l s = (s', r) -> s' = s.
Proof.
  unfold readArray. destruct (nth_error s l) as [[a | p | es] |];
    intros H; inversion H; reflexivity.
Qed.

Lemma findAccountM_store (ref : option string) (elems : list loc) :
  forall s s' r, findAccountM elems ref s = (s', r) -> s' = s.
Proof.
  induction elems as [| l elems IH]; intros s s' r; simpl.
  - unfold retM. intros H; inversion H; reflexivity.
  - unfold bindM. destruct (readAccount l s) as [s1 [a | e]] eqn:E;
      apply readAccount_store in E; subst s1.
    + destruct (sameId (Account.id a) ref).
      * unfold retM. intros H; inversion H; reflexivity.
      * apply IH.
    + intros H; inversion H; reflexivity.
Qed.

(** A step that only reads leaves the store as it was; this unfolds a
    sequence of such steps. *)
Ltac read_only_steps H :=
  repeat match type of H with
         | bindM (liftM ?x) _ _ = _ =>
             unfold bindM at 1 in H; unfold liftM at 1 in H; destruct x
         | liftM _ _ = _ => unfold liftM in H
         | (_, _) = (_, _) => inversion H; subst; clear H
         end.

(** The validator only reads. *)
Lemma validateParsedDataM_store (h : Host) (parsed : ParsedInstruction) (accts : loc)
    (s s' : store) (r : result unit) :
  validateParsedDataM h parsed accts s = (s', r) -> s' = s.
Proof.
  unfold validateParsedDataM. intros H.
  read_only_steps H; try reflexivity.
  unfold bindM at 1 in H.
  destruct (readArray accts s) as [s1 [elems | e]] eqn:E1;
    apply readArray_store in E1; subst s1; [| inversion H; reflexivity].
  unfold bindM at 1 in H.
  destruct (findAccountM elems (debit_account parsed) s) as [s1 [da | e]] eqn:E2;
    apply findAccountM_store in E2; subst s1; [| inversion H; reflexivity].
  unfold bindM at 1 in H.
  destruct (findAccountM elems (credit_account parsed) s) as [s1 [ca | e]] eqn:E3;
    apply findAccountM_store in E3; subst s1; [| inversion H; reflexivity].
  read_only_steps H; reflexivity.
Qed.

Lemma push_after_alloc (r : loc) (s : store) (o : object) :
  (r < length s)%nat ->
  arrayOfLater r s ->
  exists elems,
    nth_error s r = Some (ObjArray elems) /\
    push r (length s) (s ++ [o])%list =
      (set_nth (s ++ [o])%list r (ObjArray (elems ++ [length s])%list), Ok tt).
Proof.
  intros Hr (elems & Harr & _). exists elems. split; [assumption |].
  unfold push. rewrite nth_error_app1 by assumption. now rewrite Harr.
Qed.

(** One turn of the [forEach] of [processAccounts]: the store grows, only
    the result array is overwritten, and the result array still holds
    only objects allocated after it. *)
Lemma processAccountM_frame (parsed : ParsedInstruction) (shouldExecute : bool)
    (r l : loc) (s s' : store) (u : result unit) :
  (r < length s)%nat ->
  arrayOfLater r s ->
  processAccountM parsed shouldExecute r l s = (s', u) ->
  changesOnly r s s' /\ arrayOfLater r s'.
Proof.
  intros Hr Harr. unfold processAccountM, bindM.
  destruct (readAccount l s) as [s1 [a | e]] eqn:E;
    apply readAccount_store in E; subst s1.
  - destruct (sameId (Account.id a) (debit_account parsed) ||
              sameId (Account.id a) (credit_account parsed))%bool.
    + unfold alloc.
      destruct (@push_after_alloc r s
                  (ObjProjected
                     {| Projected.id := Account.id a;
                        Projected.balance :=
                          if shouldExecute then
                            if sameId (Account.id a) (debit_account parsed)
                            then jsSub (Account.balance a) (amount parsed)
                            else if sameId (Account.id a) (credit_account parsed)
                            then jsAdd (Account.balance a) (amount parsed)
                            else Account.balance a
                          else Account.balance a;
                        Projected.balance_before := Account.balance a;
                        Projected.currency := toUpperCase (Account.currency a) |})
                  Hr Harr) as (elems & Hat & Hpush).
      rewrite Hpush. intros H. inversion H; subst; clear H.
      split; [split |].
      * rewrite length_set_nth, length_app. simpl. lia.
      * intros l' Hl' Hne.
        rewrite nth_error_set_nth_other by congruence.
        now rewrite nth_error_app1.
      * exists (elems ++ [length s])%list. split.
        -- apply nth_error_set_nth_same. rewrite length_app. simpl. lia.
        -- intros e He. apply in_app_or in He. destruct He as [He | [<- | []]].
           ++ destruct Harr as (elems' & Hat' & Hlater).
              rewrite Hat in Hat'. inversion Hat'; subst. auto.
           ++ assumption.
    + unfold retM. intros H. inversion H; subst.
      split; [apply changesOnly_refl | assumption].
  - intros H. inversion H; subst.
    split; [apply changesOnly_refl | assumption].
Qed.

Lemma forEachM_frame (parsed : ParsedInstruction) (shouldExecute : bool) (r : loc)
    (elems : list loc) : forall (s s' : store) (u : result unit),
  (r < length s)%nat ->
  arrayOfLater r s ->
  forEachM (processAccountM parsed shouldExecute r) elems s = (s', u) ->
  changesOnly r s s' /\ arrayOfLater r s'.
Proof.
  induction elems as [| l elems IH]; intros s s' u Hr Harr; simpl.
  - unfold retM. intros H. inversion H; subst.
    split; [apply changesOnly_refl | assumption].
  - unfold bindM.
    destruct (processAccountM parsed shouldExecute r l s) as [s1 [[] | e]] eqn:E;
      destruct (@processAccountM_frame _ _ _ _ _ _ _ Hr Harr E) as [Hch Harr1].
    + intros H. apply IH in H; [| destruct Hch; lia | assumption].
      destruct H as [Hch' Harr']. split; [| assumption].
      eapply changesOnly_trans; eassumption.
    + intros H. inversion H; subst. auto.
Qed.

(** [processAccounts] leaves every object of the store it was called on
    as it was; the array it returns is a new object, and so is every
    element of that array. *)
Lemma processAccountsM_frame (accts : loc) (parsed : ParsedInstruction)
    (shouldExecute : bool) (s s' : store) (r : result loc) :
  processAccountsM accts parsed shouldExecute s = (s', r) ->
  preserved s s' /\
  forall result, r = Ok result ->
    (length s <= result)%nat /\
    exists elems, nth_error s' result = Some (ObjArray elems) /\
                  forall e, In e elems -> (length s <= e)%nat.
Proof.
  unfold processAccountsM, bindM at 1, alloc.
  set (s1 := (s ++ [ObjArray []])%list).
  assert (Hlen : length s1 = S (length s)).
  { unfold s1. rewrite length_app. simpl. lia. }
  assert (Harr1 : arrayOfLater (length s) s1).
  { exists []. split; [| intros e []].
    unfold s1. rewrite nth_error_app2 by lia. now rewrite Nat.sub_diag. }
  assert (Hpre1 : preserved s s1).
  { intros l o Hl. unfold s1. rewrite nth_error_app1; [assumption |].
    apply nth_error_Some. congruence. }
  assert (Hr1 : (length s < length s1)%nat) by lia.
  unfold bindM at 1.
  destruct (readArray accts s1) as [s2 [elems | e]] eqn:E;
    apply readArray_store in E; subst s2.
  - unfold bindM.
    destruct (forEachM (processAccountM parsed shouldExecute (length s)) elems s1)
      as [s2 [[] | e]] eqn:F;
      destruct (@forEachM_frame _ _ _ _ _ _ _ Hr1 Harr1 F) as [[Hgrow Hsame] Harr2];
      intros H; inversion H; subst; clear H.
    + split.
      * intros l o Hl.
        assert (l < length s)%nat by (apply nth_error_Some; congruence).
        rewrite Hsame by lia. now apply Hpre1.
      * intros result Hres. inversion Hres; subst. split; [lia |].
        destruct Harr2 as (es & Hat & Hlater). exists es.
        split; [assumption |]. intros e He. apply Hlater in He. lia.
    + split; [| intros result Hres; discriminate Hres].
      intros l o Hl.
      assert (l < length s)%nat by (apply nth_error_Some; congruence).
      rewrite Hsame by lia. now apply Hpre1.
  - intros H. inversion H; subst; clear H.
    split; [assumption | intros result Hres; discriminate Hres].
Qed.

(** The whole call, on any store. *)
Lemma parseInstructionM_frame (h : Host) (accts : loc) (text : string)
    (s s' : store) (r : result ResponseObj.t) :
  parseInstructionM h accts text s = (s', r) ->
  preserved s s' /\
  forall obj, r = Ok obj ->
    (length s <= ResponseObj.accounts obj)%nat /\
    exists elems, nth_error s' (ResponseObj.accounts obj) = Some (ObjArray elems) /\
                  forall e, In e elems -> (length s <= e)%nat.
Proof.
  unfold parseInstructionM, bindM at 1, liftM.
  destruct (parseInstructionText (trim text)) as [parsed | e];
    [| intros H; inversion H; subst; split;
       [intros l o Hl; exact Hl | intros obj Hobj; discriminate Hobj]].
  unfold bindM at 1.
  destruct (validateParsedDataM h parsed accts s) as [s1 [[] | e]] eqn:V;
    apply validateParsedDataM_store in V; subst s1;
    [| intros H; inversion H; subst; split;
       [intros l o Hl; exact Hl | intros obj Hobj; discriminate Hobj]].
  unfold bindM.
  destruct (processAccountsM accts parsed (shouldExecuteNow h (execute_by parsed)) s)
    as [s1 [result | e]] eqn:P;
    destruct (@processAccountsM_frame _ _ _ _ _ _ P) as [Hpre Hfresh];
    intros H; inversion H; subst; clear H.
  - split; [assumption |]. intros obj Hobj. inversion Hobj; subst.
    cbn [ResponseObj.accounts]. now apply Hfresh.
  - split; [assumption | intros obj Hobj; discriminate Hobj].
Qed.

(** ** The store: agreement with the functions over values *)

Lemma readAccounts_stable (s s' : store) (elems : list loc) : forall accs,
  (forall l a, nth_error s l = Some (ObjAccount a) -> nth_error s' l = Some (ObjAccount a)) ->
  readAccounts s elems = Some accs ->
  readAccounts s' elems = Some accs.
Proof.
  induction elems as [| l elems IH]; intros accs Hsame; simpl; [auto |].
  destruct (nth_error s l) as [[a | p | es] |] eqn:E; try discriminate.
  destruct (readAccounts s elems) as [accs' |] eqn:R; [| discriminate].
  intros H. rewrite (Hsame _ _ E), (IH accs' Hsame eq_refl). exact H.
Qed.

Lemma readProjecteds_stable (s s' : store) (elems : list loc) : forall ps,
  (forall l p, nth_error s l = Some (ObjProjected p) ->
               nth_error s' l = Some (ObjProjected p)) ->
  readProjecteds s elems = Some ps ->
  readProjecteds s' elems = Some ps.
Proof.
  induction elems as [| l elems IH]; intros ps Hsame; simpl; [auto |].
  destruct (nth_error s l) as [[a | p | es] |] eqn:E; try discriminate.
  destruct (readProjecteds s elems) as [ps' |] eqn:R; [| discriminate].
  intros H. rewrite (Hsame _ _ E), (IH ps' Hsame eq_refl). exact H.
Qed.

Lemma readProjecteds_app (s : store) (es1 es2 : list loc) (ps1 ps2 : list Projected.t) :
  readProjecteds s es1 = Some ps1 ->
  readProjecteds s es2 = Some ps2 ->
  readProjecteds s (es1 ++ es2) = Some (ps1 ++ ps2)%list.
Proof.
  revert ps1. induction es1 as [| l es1 IH]; intros ps1; simpl.
  - intros H. inversion H; subst. auto.
  - destruct (nth_error s l) as [[a | p | es] |]; try discriminate.
    destruct (readProjecteds s es1) as [ps' |]; [| discriminate].
    intros H H2. inversion H; subst. now rewrite (IH ps' eq_refl H2).
Qed.

Lemma findAccountM_values (ref : option string) (s : store) (elems : list loc) :
  forall accs,
  readAccounts s elems = Some accs ->
  findAccountM elems ref s = (s, Ok (findAccount accs ref)).
Proof.
  induction elems as [| l elems IH]; intros accs; simpl.
  - intros H. inversion H; subst. reflexivity.
  - destruct (nth_error s l) as [[a | p | es] |] eqn:E; try discriminate.
    destruct (readAccounts s elems) as [accs' |]; [| discriminate].
    intros H. inversion H; subst; clear H.
    unfold bindM, readAccount. rewrite E.
    unfold findAccount. cbn [find]. fold (findAccount accs' ref).
    destruct (sameId (Account.id a) ref); [reflexivity | now apply IH].
Qed.

Lemma validateParsedDataM_values (h : Host) (parsed : ParsedInstruction)
    (accts : loc) (s : store) (accs : list Account.t) :
  snapshot s accts = Some accs ->
  validateParsedDataM h parsed accts s = (s, validateParsedData h parsed accs).
Proof.
  unfold snapshot.
  destruct (nth_error s accts) as [[a | p | elems] |] eqn:E; try discriminate.
  intros Hread.
  unfold validateParsedDataM, validateParsedData.
  unfold bindM at 1, liftM at 1.
  destruct (isValidAccountId (debit_account parsed)) as [v1 |]; [| reflexivity].
  unfold bindM at 1, liftM at 1. cbn [bind].
  destruct (throwIf (negb v1) _ _); [| reflexivity].
  unfold bindM at 1, liftM at 1. cbn [bind].
  destruct (isValidAccountId (credit_account parsed)) as [v2 |]; [| reflexivity].
  unfold bindM at 1, liftM at 1. cbn [bind].
  destruct (throwIf (negb v2) _ _); [| reflexivity].
  unfold bindM at 1, liftM at 1. cbn [bind].
  destruct (throwIf (strictEq _ _) _ _); [| reflexivity].
  unfold bindM at 1, readArray. rewrite E. cbn [bind].
  unfold bindM at 1. rewrite (findAccountM_values _ _ _ Hread).
  unfold bindM at 1. rewrite (findAccountM_values _ _ _ Hread).
  unfold bindM at 1, liftM at 1.
  destruct (found (findAccount accs (debit_account parsed))) as [da |]; [| reflexivity].
  unfold bindM at 1, liftM at 1. cbn [bind].
  destruct (found (findAccount accs (credit_account parsed))) as [ca |]; [| reflexivity].
  unfold bindM at 1, liftM at 1. cbn [bind].
  destruct (throwIf (negb (String.eqb (toUpperCase (Account.currency da)) _)) _ _);
    [| reflexivity].
  unfold bindM at 1, liftM at 1. cbn [bind].
  destruct (throwIf (negb (String.eqb (toUpperCase (Account.currency ca)) _)) _ _);
    [| reflexivity].
  unfold bindM at 1, liftM at 1. cbn [bind].
  destruct (throwIf (jsLt (Account.balance da) (amount parsed)) _ _); reflexivity.
Qed.

Lemma forEachM_values (parsed : ParsedInstruction) (shouldExecute : bool) (r : loc)
    (elems : list loc) : forall (accs : list Account.t) (s : store)
    (es : list loc) (ps : list Projected.t),
  (r < length s)%nat ->
  readAccounts s elems = Some accs ->
  nth_error s r = Some (ObjArray es) ->
  readProjecteds s es = Some ps ->
  exists s' es',
    forEachM (processAccountM parsed shouldExecute r) elems s = (s', Ok tt) /\
    nth_error s' r = Some (ObjArray es') /\
    readProjecteds s' es' = Some (fold_left (processAccount parsed shouldExecute) accs ps).
Proof.
  induction elems as [| l elems IH]; intros accs s es ps Hr Hread Harr Hps.
  - simpl in Hread. inversion Hread; subst. exists s, es. simpl. auto.
  - simpl in Hread.
    destruct (nth_error s l) as [[a | p | es0] |] eqn:E; try discriminate.
    destruct (readAccounts s elems) as [accs' |] eqn:Hrest; [| discriminate].
    inversion Hread; subst; clear Hread.
    cbn [forEachM fold_left]. unfold bindM at 1, processAccountM, bindM at 1, readAccount.
    rewrite E. unfold processAccount at 2.
    destruct (sameId (Account.id a) (debit_account parsed) ||
              sameId (Account.id a) (credit_account parsed))%bool.
    + unfold bindM at 1, alloc, push.
      rewrite nth_error_app1 by assumption. rewrite Harr.
      match goal with
      | |- context [set_nth (s ++ [?o])%list r ?arr] =>
          set (obj := o); set (s2 := set_nth (s ++ [obj])%list r arr)
      end.
      assert (Hkeep : forall l' o, nth_error s l' = Some o -> l' <> r ->
                                   nth_error s2 l' = Some o).
      { intros l' o Hl' Hne. unfold s2.
        rewrite nth_error_set_nth_other by congruence.
        rewrite nth_error_app1; [assumption |]. apply nth_error_Some. congruence. }
      assert (Hlen2 : length s2 = S (length s)).
      { unfold s2. rewrite length_set_nth, length_app. simpl. lia. }
      apply (IH accs' s2 (es ++ [length s])%list).
      * lia.
      * apply (readAccounts_stable s); [| assumption].
        intros l' a' Hl'. apply Hkeep; [assumption | congruence].
      * unfold s2. apply nth_error_set_nth_same. rewrite length_app. simpl. lia.
      * apply readProjecteds_app.
        -- apply (readProjecteds_stable s); [| assumption].
           intros l' p' Hl'. apply Hkeep; [assumption | congruence].
        -- cbn [readProjecteds]. unfold s2.
           rewrite nth_error_set_nth_other by lia.
           rewrite nth_error_app2 by lia. rewrite Nat.sub_diag. reflexivity.
    + unfold retM. now apply (IH accs' s es).
Qed.

Lemma processAccountsM_values (accts : loc) (parsed : ParsedInstruction)
    (shouldExecute : bool) (s : store) (accs : list Account.t) :
  snapshot s accts = Some accs ->
  exists s' result,
    processAccountsM accts parsed shouldExecute s = (s', Ok result) /\
    readProjectedArray s' result = Some (processAccounts accs parsed shouldExecute).
Proof.
  unfold snapshot.
  destruct (nth_error s accts) as [[a | p | elems] |] eqn:E; try discriminate.
  intros Hread.
  assert (Haccts : (accts < length s)%nat) by (apply nth_error_Some; congruence).
  unfold processAccountsM, bindM at 1, alloc.
  set (s1 := (s ++ [ObjArray []])%list).
  assert (Hpre1 : preserved s s1).
  { intros l o Hl. unfold s1. rewrite nth_error_app1; [assumption |].
    apply nth_error_Some. congruence. }
  unfold bindM at 1, readArray. rewrite (Hpre1 _ _ E).
  destruct (@forEachM_values parsed shouldExecute (length s) elems accs s1 [] [])
    as (s' & es' & Hrun & Harr & Hps).
  - unfold s1. rewrite length_app. simpl. lia.
  - apply (readAccounts_stable s); [| assumption]. intros l a. apply Hpre1.
  - unfold s1. rewrite nth_error_app2 by lia. now rewrite Nat.sub_diag.
  - reflexivity.
  - exists s', (length s). unfold bindM. rewrite Hrun. split; [reflexivity |].
    unfold readProjectedArray. rewrite Harr. exact Hps.
Qed.

Lemma parseInstructionM_values (h : Host) (accts : loc) (text : string)
    (s : store) (accs : list Account.t) :
  snapshot s accts = Some accs ->
  exists s' r,
    parseInstructionM h accts text s = (s', r) /\
    agrees s' r (parseInstruction h (mkServiceData accs text)).
Proof.
  intros Hsnap. unfold parseInstructionM, parseInstruction.
  cbn [accounts instruction]. unfold bindM at 1, liftM.
  destruct (parseInstructionText (trim text)) as [parsed | e];
    [| exists s, (Err e); split; reflexivity].
  cbn [bind]. unfold bindM at 1.
  rewrite (@validateParsedDataM_values h parsed accts s accs Hsnap).
  destruct (validateParsedData h parsed accs) as [[] | e];
    [| exists s, (Err e); split; reflexivity].
  cbn [bind].
  destruct (@processAccountsM_values accts parsed
              (shouldExecuteNow h (execute_by parsed)) s accs Hsnap)
    as (s' & result & Hrun & Hread).
  unfold bindM, retM. rewrite Hrun.
  eexists. eexists. split; [reflexivity |].
  eexists. split; [reflexivity |].
  unfold readResponse. cbn [ResponseObj.accounts]. rewrite Hread. reflexivity.
Qed.

Lemma snapshot_preserved (s s' : store) (accts : loc) (accs : list Account.t) :
  preserved s s' ->
  snapshot s accts = Some accs ->
  snapshot s' accts = Some accs.
Proof.
  intros Hpre. unfold snapshot.
  destruct (nth_error s accts) as [[a | p | elems] |] eqn:E; try discriminate.
  rewrite (Hpre _ _ E). apply readAccounts_stable. intros l a. apply Hpre.
Qed.

(** C10.  A call of [parseInstruction] on any store and any instruction
    leaves every object that existed before the call as it was (the
    [accounts] array and each account object included); the array in the
    response and every projected account in it are objects allocated by
    the call.  When the request is well-formed (the array refers to
    account objects), reading the accounts after the call gives the same
    ids, balances and currencies as before, and the outcome is the one
    [parseInstruction] computes from those values. *)
Theorem parseInstruction_does_not_mutate_accounts (h : Host) (accts : loc)
    (text : string) (s : store) :
  let s' := fst (parseInstructionM h accts text s) in
  let r := snd (parseInstructionM h accts text s) in
  (forall l o, nth_error s l = Some o -> nth_error s' l = Some o) /\
  (forall obj, r = Ok obj ->
     (length s <= ResponseObj.accounts obj)%nat /\
     exists elems, nth_error s' (ResponseObj.accounts obj) = Some (ObjArray elems) /\
                   forall e, In e elems -> (length s <= e)%nat) /\
  (forall accs, snapshot s accts = Some accs ->
     snapshot s' accts = Some accs /\
     agrees s' r (parseInstruction h (mkServiceData accs text))).
Proof.
  intros s' r.
  destruct (@parseInstructionM_frame h accts text s s' r) as [Hpre Hfresh].
  { unfold s', r. now destruct (parseInstructionM h accts text s). }
  split; [exact Hpre |]. split; [exact Hfresh |].
  intros accs Hsnap. split.
  - exact (@snapshot_preserved s s' accts accs Hpre Hsnap).
  - destruct (@parseInstructionM_values h accts text s accs Hsnap)
      as (s1 & r1 & Hrun & Hagree).
    unfold s', r. now rewrite Hrun.
Qed.

(** The specification's example, run on a store. *)
Lemma parseInstruction_does_not_mutate_example :
  snapshot (fst (parseInstructionM host_utc 2%nat example_instruction example_store))
           2%nat = Some example_accounts /\
  agrees (fst (parseInstructionM host_utc 2%nat example_instruction example_store))
         (snd (parseInstructionM host_utc 2%nat example_instruction example_store))
         (parseInstruction host_utc (mkServiceData example_accounts example_instruction)).
Proof.
  exact (proj2 (proj2 (parseInstruction_does_not_mutate_accounts
                         host_utc 2%nat example_instruction example_store))
               example_accounts eq_refl).
Defined.


(** * Further properties *)

(** ** The request handler *)

Lemma status_is_successful_or_pending (h : Host) (data : ServiceData)
    (response : Response.t) :
  parseInstruction h data = Ok response ->
  Response.status response = "successful" \/ Response.status response = "pending".
Proof.
  unfold parseInstruction. intros H.
  apply bind_Ok_inv in H. destruct H as (parsed & _ & H).
  apply bind_Ok_inv in H. destruct H as (u & _ & H).
  inversion H; subst; clear H. cbn [Response.status].
  destruct (shouldExecuteNow h (execute_by parsed)); auto.
Qed.

(** X1.  Whatever the request, the handler never answers with
    [HTTP_400_BAD_REQUEST]: when [parseInstruction] returns a response the
    reply carries [HTTP_200_OK] and that response (its status is never
    ["failed"]), and when [parseInstruction] throws, the same failure
    leaves the handler. *)
Theorem handler_replies_200_or_throws (h : Host) (helpers : HttpStatuses)
    (payload : ServiceData) :
  match parseInstruction h payload with
  | Ok response =>
      handler h helpers payload =
      Ok {| Reply.status := HTTP_200_OK helpers; Reply.data := response |}
  | Err e => handler h helpers payload = Err e
  end.
Proof.
  unfold handler.
  destruct (parseInstruction h payload) as [response | e] eqn:Hrun; [| reflexivity].
  cbn [bind].
  destruct (status_is_successful_or_pending h payload Hrun) as [-> | ->]; reflexivity.
Qed.

(** ** Account ids, by character class *)

Lemma charIn_valid_chars (c : ascii) :
  charIn c VALID_ACCOUNT_CHARS = isAccountIdChar c.
Proof. destruct c as [[] [] [] [] [] [] [] []]; vm_compute; reflexivity. Qed.

Lemma allValidChars_classes (s : string) :
  allValidChars s = allChars isAccountIdChar s.
Proof.
  induction s as [| c s IH]; cbn [allValidChars allChars]; [reflexivity |].
  rewrite charIn_valid_chars, IH. now destruct (isAccountIdChar c).
Qed.

(** X2.  [isValidAccountId] accepts exactly the non-empty strings made of
    ASCII letters, digits and the signs [-], [_], [.], [@]; on a missing
    id ([undefined]) it throws a [TypeError] instead of answering. *)
Theorem isValidAccountId_by_class (accountId : option string) :
  isValidAccountId accountId =
  match accountId with
  | Some s => Ok (negb (String.eqb s "") && allChars isAccountIdChar s)%bool
  | None => Err TypeError
  end.
Proof.
  destruct accountId as [s |]; [| reflexivity].
  unfold isValidAccountId, isValidAccountIdStr. rewrite allValidChars_classes.
  destruct s as [| c s]; [reflexivity |].
  cbn [String.length Nat.ltb Nat.leb]. 
  replace (String.eqb (String c s) "") with false by reflexivity.
  cbn [negb andb]. now destruct (allChars isAccountIdChar (String c s)).
Qed.

(** ** The tokenizer *)

Lemma split_space_nonempty (s : string) : split_space s <> [].
Proof.
  induction s as [| c s IH]; cbn [split_space]; [discriminate |].
  destruct (Ascii.eqb c " "); [discriminate |].
  destruct (split_space s); discriminate.
Qed.

Lemma split_space_app (a b : string) :
  split_space (a ++ String " " b) = (split_space a ++ split_space b)%list.
Proof.
  induction a as [| c a IH]; [reflexivity |].
  cbn [append split_space]. rewrite IH.
  destruct (Ascii.eqb c " "); [reflexivity |].
  pose proof (split_space_nonempty a) as Hne.
  destruct (split_space a) as [| w ws]; [congruence | reflexivity].
Qed.

Lemma split_space_pieces (s : string) :
  Forall (fun w => allChars notSpace w = true) (split_space s).
Proof.
  induction s as [| c s IH]; cbn [split_space].
  - repeat constructor.
  - destruct (Ascii.eqb c " ") eqn:E; [constructor; [reflexivity | assumption] |].
    pose proof (split_space_nonempty s) as Hne.
    destruct (split_space s) as [| w ws]; [congruence |].
    inversion IH; subst. constructor; [| assumption].
    cbn [allChars]. unfold notSpace at 1. now rewrite E.
Qed.

(** X3.  The tokenizer returns words only: every token is non-empty and
    holds no space; and it works piecewise, the tokens of two texts joined
    by a space being the tokens of the first followed by those of the
    second (so that runs of spaces, and spaces at either end, leave no
    trace). *)
Theorem tokenize_words (text : string) :
  (forall w, In w (tokenize text) -> w <> "" /\ allChars notSpace w = true) /\
  (forall a b, tokenize (a ++ " " ++ b) = (tokenize a ++ tokenize b)%list).
Proof.
  split.
  - intros w Hin. unfold tokenize in Hin. apply filter_In in Hin.
    destruct Hin as [Hin Hlen]. split.
    + intros ->. discriminate Hlen.
    + pose proof (split_space_pieces text) as Hall.
      rewrite Forall_forall in Hall. now apply Hall.
  - intros a b. unfold tokenize.
    change (a ++ " " ++ b) with (a ++ String " " b).
    now rewrite split_space_app, filter_app.
Qed.

(** ** White space around the instruction *)

Lemma trimEnd_white (ws : string) :
  allChars isWhiteSpace ws = true -> trimEnd ws = "".
Proof.
  induction ws as [| c ws IH]; cbn [allChars trimEnd]; [reflexivity |].
  intros H. apply andb_true_iff in H. destruct H as [Hc Hws].
  now rewrite (IH Hws), Hc.
Qed.

Lemma trimEnd_app_white (s ws : string) :
  allChars isWhiteSpace ws = true -> trimEnd (s ++ ws) = trimEnd s.
Proof.
  intros Hws. induction s as [| c s IH]; cbn [append trimEnd].
  - now apply trimEnd_white.
  - now rewrite IH.
Qed.

Lemma trim_app_white (s ws : string) :
  allChars isWhiteSpace ws = true -> trim (s ++ ws) = trim s.
Proof.
  intros Hws. unfold trim. induction s as [| c s IH]; cbn [append trimStart].
  - assert (E : trimStart ws = "").
    { clear -Hws. induction ws as [| c ws IH]; cbn [allChars trimStart] in *;
        [reflexivity |].
      apply andb_true_iff in Hws. destruct Hws as [Hc Hws]. rewrite Hc. auto. }
    now rewrite E.
  - destruct (isWhiteSpace c); [assumption |].
    change (String c (s ++ ws)) with (String c s ++ ws).
    now apply trimEnd_app_white.
Qed.

(** X4.  White space (spaces, tabs, line ends) before and after the
    instruction text has no effect on the outcome. *)
Theorem surrounding_white_space_ignored (h : Host) (accts : list Account.t)
    (before text after : string) :
  allChars isWhiteSpace before = true ->
  allChars isWhiteSpace after = true ->
  parseInstruction h (mkServiceData accts (before ++ text ++ after)) =
  parseInstruction h (mkServiceData accts text).
Proof.
  intros Hb Ha. unfold parseInstruction. cbn [accounts instruction].
  assert (E : trim (before ++ text ++ after) = trim text).
  { unfold trim at 1. rewrite (@trimStart_white before (text ++ after) Hb).
    fold (trim (text ++ after)). now apply trim_app_white. }
  now rewrite E.
Qed.

Lemma surrounding_white_space_ignored_example :
  parseInstruction host_utc
    (mkServiceData example_accounts ("  " ++ example_instruction ++ " ")) =
  parseInstruction host_utc (mkServiceData example_accounts example_instruction).
Proof.
  apply (@surrounding_white_space_ignored host_utc example_accounts
           "  " example_instruction " "); reflexivity.
Defined.

(** ** What every response satisfies *)

Lemma checkedCurrency_Ok (word : option string) (c : string) :
  checkedCurrency word = Ok c ->
  array_includes SUPPORTED_CURRENCIES c = true /\
  exists token, word = Some token /\ c = toUpperCase token.
Proof.
  unfold checkedCurrency, throwAppError.
  destruct word as [token |]; cbn [option_map]; [| discriminate].
  destruct (array_includes SUPPORTED_CURRENCIES (toUpperCase token)) eqn:E.
  - destruct (truthy (Some (toUpperCase token))); cbn [negb orb]; [| discriminate].
    intros H. inversion H; subst. split; [assumption |]. now exists token.
  - rewrite orb_true_r. discriminate.
Qed.

Lemma executeByOf_nonempty (words : list string) (s : string) :
  executeByOf words = Some s -> s <> "".
Proof.
  unfold executeByOf.
  destruct (negb (findKeywordIndex words "on" 0 =? -1)); cbn [andb]; [| discriminate].
  destruct (at_index words (findKeywordIndex words "on" 0 + 1)) as [[| c w] |];
    cbn [truthy]; try discriminate.
  intros H. inversion H; subst. discriminate.
Qed.

(** What both structured parsers guarantee of the instruction they
    return. *)
Lemma parsed_fields (text : string) (parsed : ParsedInstruction) :
  parseInstructionText text = Ok parsed ->
  jsLt (num 0) (amount parsed) = true /\
  array_includes SUPPORTED_CURRENCIES (currency parsed) = true /\
  (forall s, execute_by parsed = Some s -> s <> "").
Proof.
  unfold parseInstructionText. intros H.
  destruct (looksLikeDebit (toLowerCase text)).
  - unfold parseDebitFormat in H.
    apply bind_Ok_inv in H. destruct H as (u & _ & H).
    apply bind_Ok_inv in H. destruct H as (a & Ha & H).
    apply bind_Ok_inv in H. destruct H as (c & Hc & H).
    apply bind_Ok_inv in H. destruct H as (u1 & _ & H).
    apply bind_Ok_inv in H. destruct H as (u2 & _ & H).
    inversion H; subst; clear H. cbn [amount currency execute_by].
    split; [apply checkedAmount_Ok in Ha; now apply valid_positive |].
    split; [now apply checkedCurrency_Ok in Hc |].
    intros s. apply executeByOf_nonempty.
  - destruct (looksLikeCredit (toLowerCase text)); [| discriminate].
    unfold parseCreditFormat in H.
    apply bind_Ok_inv in H. destruct H as (u & _ & H).
    apply bind_Ok_inv in H. destruct H as (a & Ha & H).
    apply bind_Ok_inv in H. destruct H as (c & Hc & H).
    apply bind_Ok_inv in H. destruct H as (u1 & _ & H).
    apply bind_Ok_inv in H. destruct H as (u2 & _ & H).
    inversion H; subst; clear H. cbn [amount currency execute_by].
    split; [apply checkedAmount_Ok in Ha; now apply valid_positive |].
    split; [now apply checkedCurrency_Ok in Hc |].
    intros s. apply executeByOf_nonempty.
Qed.

(** A successful run, taken apart. *)
Lemma successful_run (h : Host) (data : ServiceData) (response : Response.t) :
  parseInstruction h data = Ok response ->
  exists parsed debit credit debitAccount creditAccount,
    parseInstructionText (trim (instruction data)) = Ok parsed /\
    Validated h parsed (accounts data) debit credit debitAccount creditAccount /\
    Response.type response = type parsed /\
    Response.amount response = amount parsed /\
    Response.currency response = currency parsed /\
    Response.debit_account response = Some debit /\
    Response.credit_account response = Some credit /\
    Response.execute_by response = execute_by parsed /\
    Response.accounts response =
      map (project parsed (shouldExecuteNow h (execute_by parsed)))
          (filter (referenced (Some debit) (Some credit)) (accounts data)).
Proof.
  unfold parseInstruction. intros H.
  apply bind_Ok_inv in H. destruct H as (parsed & Hparse & H).
  apply bind_Ok_inv in H. destruct H as ([] & Hvalid & H).
  inversion H; subst; clear H.
  apply validateParsedData_Ok in Hvalid.
  destruct Hvalid as (d & c & da & ca & V).
  exists parsed, d, c, da, ca.
  cbn [Response.type Response.amount Response.currency Response.debit_account
       Response.credit_account Response.execute_by Response.accounts].
  rewrite processAccounts_filter.
  destruct V as [Vd Vc Vdid Vcid Vne Vdf Vcf Vdc Vcc Vfunds Vdate].
  rewrite Vd, Vc.
  repeat split; try assumption; try reflexivity.
Qed.

(** X5.  Every response that is returned describes a well-formed
    movement: a positive amount, a currency of the supported set, two
    well-formed and distinct account ids, and an [execute_by] that is
    either absent or a date written [YYYY-MM-DD]. *)
Theorem response_is_well_formed (h : Host) (data : ServiceData)
    (response : Response.t) :
  parseInstruction h data = Ok response ->
  jsLt (num 0) (Response.amount response) = true /\
  In (Response.currency response) SUPPORTED_CURRENCIES /\
  (exists debit credit,
     Response.debit_account response = Some debit /\
     Response.credit_account response = Some credit /\
     debit <> credit /\
     isValidAccountIdStr debit = true /\
     isValidAccountIdStr credit = true) /\
  (Response.execute_by response = None \/
   exists s, Response.execute_by response = Some s /\ dateRegex_test s = true).
Proof.
  intros Hrun.
  destruct (successful_run h data Hrun)
    as (parsed & d & c & da & ca & Hparse & V & _ & Ham & Hcur & Hd & Hc & Hby & _).
  destruct (parsed_fields _ Hparse) as (Hpos & Hsup & Hne).
  destruct V as [Vd Vc Vdid Vcid Vne Vdf Vcf Vdc Vcc Vfunds Vdate].
  rewrite Ham, Hcur, Hby.
  split; [assumption |]. split.
  - unfold array_includes in Hsup. apply existsb_exists in Hsup.
    destruct Hsup as (x & Hin & Heq). apply String.eqb_eq in Heq. now subst x.
  - split; [exists d, c; auto |].
    destruct (execute_by parsed) as [s |] eqn:E; [right | now left].
    exists s. split; [reflexivity |].
    specialize (Hne s eq_refl).
    rewrite validateExecuteBy_cases in Vdate.
    destruct s as [| ch s]; [congruence |].
    destruct (Date_parse h (String ch s)); cbn [andb] in Vdate; [| discriminate].
    destruct (dateRegex_test (String ch s)); [reflexivity | discriminate].
Qed.

Lemma response_is_well_formed_example :
  exists response,
    parseInstruction host_utc (mkServiceData example_accounts example_instruction)
      = Ok response /\
    jsLt (num 0) (Response.amount response) = true /\
    In (Response.currency response) SUPPORTED_CURRENCIES.
Proof.
  eexists. split; [vm_compute; reflexivity |].
  pose proof (@response_is_well_formed host_utc
                (mkServiceData example_accounts example_instruction) _ eq_refl)
    as (Hpos & Hcur & _).
  split; [exact Hpos | exact Hcur].
Defined.

(** ** Supplied accounts with pairwise distinct ids *)

Lemma distinct_ids_unique (accts : list Account.t) (x y : Account.t) :
  distinctIds accts -> In x accts -> In y accts ->
  Account.id x = Account.id y -> x = y.
Proof.
  unfold distinctIds. induction accts as [| a accts IH]; cbn [map In];
    intros Hnd Hx Hy Hid; [contradiction |].
  inversion Hnd as [| ? ? Hnotin Hnd']; subst.
  destruct Hx as [-> | Hx]; destruct Hy as [-> | Hy]; try reflexivity.
  - exfalso. apply Hnotin. rewrite Hid. now apply in_map.
  - exfalso. apply Hnotin. rewrite <- Hid. now apply in_map.
  - now apply IH.
Qed.

(** With distinct ids, the accounts of the response are the debit
    account and the credit account the validator found, and no other. *)
Lemma listed_accounts_are_the_two (h : Host) (data : ServiceData)
    (response : Response.t) :
  parseInstruction h data = Ok response ->
  distinctIds (accounts data) ->
  exists parsed debit credit debitAccount creditAccount,
    parseInstructionText (trim (instruction data)) = Ok parsed /\
    Response.accounts response =
      map (project parsed (shouldExecuteNow h (execute_by parsed)))
          (filter (referenced (Some debit) (Some credit)) (accounts data)) /\
    Validated h parsed (accounts data) debit credit debitAccount creditAccount /\
    Response.amount response = amount parsed /\
    Response.currency response = currency parsed /\
    Response.debit_account response = Some debit /\
    Response.credit_account response = Some credit /\
    forall a, In a (Response.accounts response) ->
      a = project parsed (shouldExecuteNow h (execute_by parsed)) debitAccount \/
      a = project parsed (shouldExecuteNow h (execute_by parsed)) creditAccount.
Proof.
  intros Hrun Hnd.
  destruct (successful_run h data Hrun)
    as (parsed & d & c & da & ca & Hparse & V & _ & Ham & Hcur & Hd & Hc & _ & Hacc).
  exists parsed, d, c, da, ca.
  split; [exact Hparse |]. split; [exact Hacc |].
  split; [exact V |]. split; [exact Ham |]. split; [exact Hcur |].
  split; [exact Hd |]. split; [exact Hc |].
  intros a Hin. rewrite Hacc in Hin. apply in_map_iff in Hin.
  destruct Hin as (x & <- & Hx). apply filter_In in Hx. destruct Hx as [Hx Href].
  destruct V as [Vd Vc Vdid Vcid Vne Vdf Vcf Vdc Vcc Vfunds Vdate].
  destruct (findAccount_In _ _ Vdf) as [Hda Hdid].
  destruct (findAccount_In _ _ Vcf) as [Hca Hcid].
  unfold referenced in Href. apply orb_true_iff in Href.
  destruct Href as [Href | Href]; apply sameId_true in Href; inversion Href; subst.
  - left. f_equal. apply (@distinct_ids_unique (accounts data) x da Hnd Hx Hda). congruence.
  - right. f_equal. apply (@distinct_ids_unique (accounts data) x ca Hnd Hx Hca). congruence.
Qed.

Lemma example_run :
  parseInstruction host_utc (mkServiceData example_accounts example_instruction) =
  Ok example_response.
Proof. vm_compute. reflexivity. Qed.

(** X6.  With distinct account ids the debit account is never overdrawn:
    the entry of the debit account, when its balance before is a finite
    Number, has [balance_before >= amount] and a returned balance that is
    not negative. *)
Theorem debit_account_not_overdrawn (h : Host) (data : ServiceData)
    (response : Response.t) :
  parseInstruction h data = Ok response ->
  distinctIds (accounts data) ->
  forall a, In a (Response.accounts response) ->
    Response.debit_account response = Some (Projected.id a) ->
    isFinite (Projected.balance_before a) = true ->
    jsLe (Response.amount response) (Projected.balance_before a) = true /\
    jsLe (num 0) (Projected.balance a) = true.
Proof.
  intros Hrun Hnd a Hin Hid Hfin.
  destruct (listed_accounts_are_the_two h data Hrun Hnd)
    as (parsed & d & c & da & ca & Hparse & _ & V & Ham & _ & Hd & _ & Htwo).
  destruct (parsed_fields _ Hparse) as (Hpos & _).
  destruct V as [Vd Vc Vdid Vcid Vne Vdf Vcf Vdc Vcc Vfunds Vdate].
  destruct (findAccount_In _ _ Vdf) as [_ Hdid].
  destruct (findAccount_In _ _ Vcf) as [_ Hcid].
  rewrite Hd in Hid. inversion Hid as [Hid']. rewrite Ham in *.
  rewrite num_zero in *.
  destruct (Htwo a Hin) as [-> | ->]; cbn [project Projected.id
    Projected.balance Projected.balance_before] in *.
  - rewrite Vd, Hdid. cbn [sameId]. rewrite String.eqb_refl.
    destruct (Account.balance da) as [| s | b]; try discriminate Hfin.
    destruct (amount parsed) as [| [] | k];
      cbn [jsLt jsLe jsSub negb] in *; try discriminate.
    apply Z.ltb_lt in Hpos. apply Z.ltb_ge in Vfunds.
    split; [apply Z.leb_le; lia |].
    destruct (shouldExecuteNow h (execute_by parsed)).
    + apply roundDouble_nonneg. lia.
    + cbn [jsLe]. apply Z.leb_le. lia.
  - exfalso. apply Vne. congruence.
Qed.

Lemma example_accounts_distinct : distinctIds example_accounts.
Proof.
  unfold distinctIds. cbn [map example_accounts Account.id].
  constructor; [intros [H | []]; discriminate H |].
  constructor; [intros [] | constructor].
Qed.

(** The entry of [A001] in the specification's example: amount 500,
    balance before 1000, balance 500. *)
Lemma debit_account_not_overdrawn_example :
  jsLe (num 500) (num 1000) = true /\ jsLe (num 0) (num 500) = true.
Proof.
  apply (@debit_account_not_overdrawn host_utc
           (mkServiceData example_accounts example_instruction) example_response
           example_run example_accounts_distinct
           {| Projected.id := "A001"; Projected.balance := num 500;
              Projected.balance_before := num 1000; Projected.currency := "NGN" |}).
  - left. reflexivity.
  - reflexivity.
  - vm_compute. reflexivity.
Defined.

(** X7.  With distinct account ids every listed account carries the
    currency of the instruction. *)
Theorem listed_accounts_share_currency (h : Host) (data : ServiceData)
    (response : Response.t) :
  parseInstruction h data = Ok response ->
  distinctIds (accounts data) ->
  forall a, In a (Response.accounts response) ->
    Projected.currency a = Response.currency response.
Proof.
  intros Hrun Hnd a Hin.
  destruct (listed_accounts_are_the_two h data Hrun Hnd)
    as (parsed & d & c & da & ca & _ & _ & V & _ & Hcur & _ & _ & Htwo).
  destruct V as [Vd Vc Vdid Vcid Vne Vdf Vcf Vdc Vcc Vfunds Vdate].
  rewrite Hcur.
  destruct (Htwo a Hin) as [-> | ->]; cbn [project Projected.currency]; assumption.
Qed.

(** The entry of [B002] in the specification's example. *)
Lemma listed_accounts_share_currency_example : "NGN" = "NGN".
Proof.
  apply (@listed_accounts_share_currency host_utc
           (mkServiceData example_accounts example_instruction) example_response
           example_run example_accounts_distinct
           {| Projected.id := "B002"; Projected.balance := num 700;
              Projected.balance_before := num 200; Projected.currency := "NGN" |}).
  right. left. reflexivity.
Defined.

Lemma filter_filter_implied (A : Type) (f g : A -> bool) (l : list A) :
  (forall x, f x = true -> g x = true) -> filter f (filter g l) = filter f l.
Proof.
  intros Himp. induction l as [| x l IH]; [reflexivity |].
  cbn [filter]. destruct (g x) eqn:Eg; cbn [filter].
  - now rewrite IH.
  - destruct (f x) eqn:Ef; [| exact IH].
    rewrite (Himp x Ef) in Eg. discriminate Eg.
Qed.

Lemma integerValue_num (k : Z) :
  - 2 ^ 53 <= k <= 2 ^ 53 -> integerValue (num k) = k.
Proof.
  intros Hk. rewrite (num_exact Hk). cbn [integerValue].
  apply Z.div_mul. pose proof unit_pos. lia.
Qed.

Lemma num_lt (a b : Z) :
  - 2 ^ 53 <= a <= 2 ^ 53 -> - 2 ^ 53 <= b <= 2 ^ 53 ->
  jsLt (num a) (num b) = (a <? b).
Proof.
  intros Ha Hb. rewrite !num_exact by assumption. cbn [jsLt].
  pose proof unit_pos.
  apply Bool.eq_true_iff_eq. rewrite !Z.ltb_lt. nia.
Qed.

(** X8.  With distinct account ids, and as long as the amount and the
    balances before of the listed accounts are integers of magnitude at
    most [2^53] and the credited balance does not exceed [2^53], a
    transaction moves money and makes none: the returned balances are
    integers again and add up to what the balances before added up
    to. *)
Theorem total_balance_is_conserved (h : Host) (data : ServiceData)
    (response : Response.t) (k : Z) :
  parseInstruction h data = Ok response ->
  distinctIds (accounts data) ->
  exactInteger (Response.amount response) k ->
  (forall a, In a (Response.accounts response) ->
     exists before,
       exactInteger (Projected.balance_before a) before /\
       (Response.credit_account response = Some (Projected.id a) ->
        before + k <= 2 ^ 53)) ->
  (forall a, In a (Response.accounts response) ->
     isInteger (Projected.balance a) = true) /\
  total (map (fun a => integerValue (Projected.balance a)) (Response.accounts response)) =
  total (map (fun a => integerValue (Projected.balance_before a))
             (Response.accounts response)).
Proof.
  intros Hrun Hnd [Hk Hkr] Hsafe.
  destruct (listed_accounts_are_the_two h data Hrun Hnd)
    as (parsed & d & c & da & ca & Hparse & Hacc & V & Ham & _ & Hd & Hc & Htwo).
  destruct (parsed_fields _ Hparse) as (Hpos & _).
  rewrite Ham in Hk. rewrite Hk in Hpos.
  destruct V as [Vd Vc Vdid Vcid Vne Vdf Vcf Vdc Vcc Vfunds Vdate].
  destruct (findAccount_In _ _ Vdf) as [_ Hdid].
  destruct (findAccount_In _ _ Vcf) as [_ Hcid].
  assert (Hkpos : 0 < k).
  { rewrite num_lt in Hpos by lia. now apply Z.ltb_lt. }
  assert (Hcd : String.eqb c d = false) by (apply String.eqb_neq; congruence).
  (* what each listed entry is, in integers *)
  assert (Hentry : forall a, In a (Response.accounts response) ->
            exists before after,
              Projected.balance_before a = num before /\
              - 2 ^ 53 <= before <= 2 ^ 53 /\
              Projected.balance a = num after /\
              - 2 ^ 53 <= after <= 2 ^ 53 /\
              ((a = project parsed (shouldExecuteNow h (execute_by parsed)) da /\
                after = if shouldExecuteNow h (execute_by parsed)
                        then before - k else before) \/
               (a = project parsed (shouldExecuteNow h (execute_by parsed)) ca /\
                after = if shouldExecuteNow h (execute_by parsed)
                        then before + k else before))).
  { intros a Hin. destruct (Hsafe a Hin) as (before & [Hb Hbr] & Hcredit).
    exists before.
    destruct (Htwo a Hin) as [Ha | Ha]; rewrite Ha in Hb, Hcredit |- *;
      cbn [project Projected.id Projected.balance Projected.balance_before]
        in Hb, Hcredit |- *.
    - rewrite Vd, Hdid. cbn [sameId]. rewrite String.eqb_refl.
      rewrite Hb, Hk in Vfunds. rewrite num_lt in Vfunds by lia.
      apply Z.ltb_ge in Vfunds.
      destruct (shouldExecuteNow h (execute_by parsed)).
      + exists (before - k). rewrite Hb, Hk, jsSub_exact by lia.
        repeat split; try lia. left. auto.
      + exists before. rewrite Hb. repeat split; try lia. left. auto.
    - rewrite Vd, Vc, Hcid. cbn [sameId]. rewrite Hcd, String.eqb_refl.
      rewrite Hc, Hcid in Hcredit. specialize (Hcredit eq_refl).
      destruct (shouldExecuteNow h (execute_by parsed)).
      + exists (before + k). rewrite Hb, Hk, jsAdd_exact by lia.
        repeat split; try lia. right. auto.
      + exists before. rewrite Hb. repeat split; try lia. right. auto. }
  split.
  - intros a Hin. destruct (Hentry a Hin) as (before & after & _ & _ & -> & Hr & _).
    rewrite (num_exact Hr). cbn [isInteger]. apply Z.eqb_eq, Z_mod_mult.
  - (* the list is the projection of the supplied accounts that are referenced *)
    assert (Hsum : forall l,
              (forall x, In x l -> In (project parsed (shouldExecuteNow h (execute_by parsed)) x)
                                      (Response.accounts response)) ->
              total (map (fun a => integerValue (Projected.balance a))
                         (map (project parsed (shouldExecuteNow h (execute_by parsed))) l)) =
              total (map (fun a => integerValue (Projected.balance_before a))
                         (map (project parsed (shouldExecuteNow h (execute_by parsed))) l))
              + (if shouldExecuteNow h (execute_by parsed) then k else 0) *
                (Z.of_nat (length (filter (fun x => sameId (Account.id x) (Some c)) l))
                 - Z.of_nat (length (filter (fun x => sameId (Account.id x) (Some d)) l)))).
    { induction l as [| x l IH]; intros Hl; [cbn; lia |].
      cbn [map total fold_right filter].
      fold (total (map (fun a => integerValue (Projected.balance a))
                       (map (project parsed (shouldExecuteNow h (execute_by parsed))) l))).
      fold (total (map (fun a => integerValue (Projected.balance_before a))
                       (map (project parsed (shouldExecuteNow h (execute_by parsed))) l))).
      rewrite IH by (intros y Hy; apply Hl; now right).
      destruct (Hentry _ (Hl x (or_introl eq_refl)))
        as (before & after & Hb & Hbr & Ha & Har & Hwhich).
      rewrite Hb, Ha, !integerValue_num by assumption.
      assert (Hx : (Account.id x = d /\ sameId (Account.id x) (Some d) = true /\
                    sameId (Account.id x) (Some c) = false /\
                    after = if shouldExecuteNow h (execute_by parsed)
                            then before - k else before) \/
                   (Account.id x = c /\ sameId (Account.id x) (Some d) = false /\
                    sameId (Account.id x) (Some c) = true /\
                    after = if shouldExecuteNow h (execute_by parsed)
                            then before + k else before)).
      { destruct Hwhich as [[Hp ->] | [Hp ->]];
          apply (f_equal Projected.id) in Hp; cbn [project Projected.id] in Hp;
          [left | right]; cbn [sameId]; rewrite Hp, ?Hdid, ?Hcid, String.eqb_refl.
        - repeat split. apply String.eqb_neq. congruence.
        - repeat split. assumption. }
      destruct Hx as [(_ & -> & -> & ->) | (_ & -> & -> & ->)];
        cbn [length]; destruct (shouldExecuteNow h (execute_by parsed)); lia. }
    rewrite Hacc.
    rewrite Hsum.
    + rewrite !filter_filter_implied
        by (intros x Hx; unfold referenced; rewrite Hx; auto using orb_true_r).
      rewrite (filter_id_NoDup _ _ Hnd (findAccount_id_In _ _ Vdf)).
      rewrite (filter_id_NoDup _ _ Hnd (findAccount_id_In _ _ Vcf)).
      lia.
    + intros x Hx. rewrite Hacc. now apply in_map.
Qed.

(** The specification's example: 500 + 700 after, 1000 + 200 before. *)
Lemma total_balance_is_conserved_example :
  (forall a, In a (Response.accounts example_response) ->
     isInteger (Projected.balance a) = true) /\
  total (map (fun a => integerValue (Projected.balance a))
             (Response.accounts example_response)) =
  total (map (fun a => integerValue (Projected.balance_before a))
             (Response.accounts example_response)).
Proof.
  apply (@total_balance_is_conserved host_utc
           (mkServiceData example_accounts example_instruction) example_response 500
           example_run example_accounts_distinct).
  - split; [reflexivity | lia].
  - intros a [<- | [<- | []]].
    + exists 1000. split; [split; [reflexivity | lia] | lia].
    + exists 200. split; [split; [reflexivity | lia] | lia].
Defined.

(** ** Accounts the instruction does not name *)

Lemma findAccount_skip (l1 l2 : list Account.t) (x : Account.t) (ref : option string) :
  sameId (Account.id x) ref = false ->
  findAccount (l1 ++ x :: l2) ref = findAccount (l1 ++ l2) ref.
Proof.
  intros Hx. unfold findAccount.
  induction l1 as [| a l1 IH]; cbn [app find].
  - now rewrite Hx.
  - destruct (sameId (Account.id a) ref); [reflexivity | exact IH].
Qed.

Lemma processAccounts_skip (l1 l2 : list Account.t) (x : Account.t)
    (parsed : ParsedInstruction) (shouldExecute : bool) :
  referenced (debit_account parsed) (credit_account parsed) x = false ->
  processAccounts (l1 ++ x :: l2) parsed shouldExecute =
  processAccounts (l1 ++ l2) parsed shouldExecute.
Proof.
  intros Hx. rewrite !processAccounts_filter, !filter_app. cbn [filter].
  now rewrite Hx.
Qed.

(** X9.  An account that the instruction names neither as debit nor as
    credit account has no influence: with or without it in the supplied
    set, wherever it stands, the outcome is the same. *)
Theorem unreferenced_account_is_irrelevant (h : Host) (before after : list Account.t)
    (x : Account.t) (text : string) :
  (forall parsed, parseInstructionText (trim text) = Ok parsed ->
     referenced (debit_account parsed) (credit_account parsed) x = false) ->
  parseInstruction h (mkServiceData (before ++ x :: after) text) =
  parseInstruction h (mkServiceData (before ++ after) text).
Proof.
  intros Hx. unfold parseInstruction. cbn [accounts instruction].
  destruct (parseInstructionText (trim text)) as [parsed | e]; [| reflexivity].
  specialize (Hx parsed eq_refl). cbn [bind].
  assert (Hboth : sameId (Account.id x) (debit_account parsed) = false /\
                  sameId (Account.id x) (credit_account parsed) = false)
    by (now apply orb_false_iff).
  destruct Hboth as [Hd Hc].
  assert (Hvalid : validateParsedData h parsed (before ++ x :: after) =
                   validateParsedData h parsed (before ++ after)).
  { unfold validateParsedData.
    now rewrite (findAccount_skip before after x _ Hd),
                (findAccount_skip before after x _ Hc). }
  rewrite Hvalid, (processAccounts_skip before after x parsed _ Hx).
  reflexivity.
Qed.

Lemma unreferenced_account_is_irrelevant_example :
  parseInstruction host_utc
    (mkServiceData
       ([ {| Account.id := "A001"; Account.balance := num 1000; Account.currency := "NGN" |} ] ++
        {| Account.id := "C003"; Account.balance := num 5; Account.currency := "USD" |} ::
        [ {| Account.id := "B002"; Account.balance := num 200; Account.currency := "NGN" |} ])
       example_instruction) =
  parseInstruction host_utc
    (mkServiceData
       ([ {| Account.id := "A001"; Account.balance := num 1000; Account.currency := "NGN" |} ] ++
        [ {| Account.id := "B002"; Account.balance := num 200; Account.currency := "NGN" |} ])
       example_instruction).
Proof.
  apply unreferenced_account_is_irrelevant.
  intros parsed H. vm_compute in H. inversion H; subst. reflexivity.
Defined.

(** ** The [on] clause *)

Lemma findKeywordLoop_first (keyword kw : string) (pre rest : list string) : forall i,
  (forall w, In w pre -> toLowerCase w <> toLowerCase keyword) ->
  toLowerCase kw = toLowerCase keyword ->
  findKeywordLoop (pre ++ kw :: rest) keyword i = i + Z.of_nat (length pre).
Proof.
  induction pre as [| w pre IH]; intros i Hpre Hkw; cbn [app findKeywordLoop length].
  - rewrite Hkw, String.eqb_refl. lia.
  - assert (E : String.eqb (toLowerCase w) (toLowerCase keyword) = false).
    { apply String.eqb_neq. apply Hpre. now left. }
    rewrite E, IH; [lia | | assumption].
    intros w' Hw'. apply Hpre. now right.
Qed.

Lemma findKeywordLoop_none (keyword : string) (words : list string) : forall i,
  (forall w, In w words -> toLowerCase w <> toLowerCase keyword) ->
  findKeywordLoop words keyword i = -1.
Proof.
  induction words as [| w words IH]; intros i Hall; cbn [findKeywordLoop];
    [reflexivity |].
  assert (E : String.eqb (toLowerCase w) (toLowerCase keyword) = false).
  { apply String.eqb_neq. apply Hall. now left. }
  rewrite E. apply IH. intros w' Hw'. apply Hall. now right.
Qed.

Lemma at_index_after (pre rest : list string) (kw : string) :
  at_index (pre ++ kw :: rest) (0 + Z.of_nat (length pre) + 1) = hd_error rest.
Proof.
  unfold at_index.
  destruct (0 + Z.of_nat (length pre) + 1 <? 0) eqn:E; [apply Z.ltb_lt in E; lia |].
  replace (Z.to_nat (0 + Z.of_nat (length pre) + 1)) with (length pre + 1)%nat by lia.
  rewrite nth_error_app2 by lia.
  replace (length pre + 1 - length pre)%nat with 1%nat by lia.
  destruct rest; reflexivity.
Qed.

(** Where [executeByOf] finds the date. *)
Lemma executeByOf_first_on (words : list string) :
  ((forall w, In w words -> toLowerCase w <> "on") -> executeByOf words = None) /\
  (forall pre kw rest,
     words = (pre ++ kw :: rest)%list ->
     (forall w, In w pre -> toLowerCase w <> "on") ->
     toLowerCase kw = "on" ->
     executeByOf words =
     match rest with
     | String c w :: _ => Some (String c w)
     | _ => None
     end).
Proof.
  split.
  - intros Hall. unfold executeByOf, findKeywordIndex. cbn [Z.to_nat skipn].
    now rewrite (findKeywordLoop_none "on" words 0 Hall).
  - intros pre kw rest -> Hpre Hkw.
    unfold executeByOf, findKeywordIndex. cbn [Z.to_nat skipn].
    rewrite (findKeywordLoop_first "on" kw pre rest 0 Hpre Hkw).
    rewrite at_index_after.
    assert (E : (0 + Z.of_nat (length pre) =? -1) = false) by (apply Z.eqb_neq; lia).
    rewrite E. cbn [negb andb].
    destruct rest as [| [| c w] rest]; reflexivity.
Qed.

Lemma parsers_read_executeBy (words : list string) (parsed : ParsedInstruction) :
  parseDebitFormat words = Ok parsed \/ parseCreditFormat words = Ok parsed ->
  execute_by parsed = executeByOf words.
Proof.
  intros [H | H]; [unfold parseDebitFormat in H | unfold parseCreditFormat in H];
    ok_steps H; inversion H; subst; reflexivity.
Qed.

(** X10.  The [execute_by] of the instruction that either structured
    parser returns is the token that follows the first token equal to
    [on] (in any letter case), wherever that token stands; it is [null]
    when no token is [on], and also when the first [on] is the last token
    or is followed by nothing: the [on] clause never makes a parser
    fail. *)
Theorem execute_by_follows_first_on (words : list string) (parsed : ParsedInstruction) :
  parseDebitFormat words = Ok parsed \/ parseCreditFormat words = Ok parsed ->
  ((forall w, In w words -> toLowerCase w <> "on") -> execute_by parsed = None) /\
  (forall pre kw rest,
     words = (pre ++ kw :: rest)%list ->
     (forall w, In w pre -> toLowerCase w <> "on") ->
     toLowerCase kw = "on" ->
     execute_by parsed =
     match rest with
     | String c w :: _ => Some (String c w)
     | _ => None
     end).
Proof.
  intros H. rewrite (@parsers_read_executeBy words parsed H). apply executeByOf_first_on.
Qed.

(** The example instruction followed by two [on] clauses: the first one
    counts. *)
Lemma execute_by_follows_first_on_example :
  execute_by (example_deferred "2099-01-01") = Some "2099-01-01".
Proof.
  apply (proj2 (@execute_by_follows_first_on
                  ["Debit"; "500"; "NGN"; "from"; "Account"; "A001"; "for"; "credit";
                   "to"; "Account"; "B002"; "ON"; "2099-01-01"; "on"; "2100-01-01"]
                  (example_deferred "2099-01-01")
                  ltac:(left; vm_compute; reflexivity))
               ["Debit"; "500"; "NGN"; "from"; "Account"; "A001"; "for"; "credit";
                "to"; "Account"; "B002"]
               "ON" ["2099-01-01"; "on"; "2100-01-01"]).
  - reflexivity.
  - intros w Hw. cbn [In] in Hw.
    repeat (destruct Hw as [<- | Hw]; [discriminate |]). contradiction.
  - reflexivity.
Defined.

(** ** Failures of the structured parsers *)

Lemma checkedCurrency_unsupported (word : option string) :
  unsupportedCurrency word = true ->
  checkedCurrency word = Err (AppError UNSUPPORTED_CURRENCY INVLDDATA).
Proof.
  unfold unsupportedCurrency, checkedCurrency.
  destruct word as [c |]; cbn [option_map]; [| reflexivity].
  intros H. rewrite H. now rewrite orb_true_r.
Qed.

Lemma checkedCurrency_supported (word : option string) :
  unsupportedCurrency word = false ->
  exists c, word = Some c /\ checkedCurrency word = Ok (toUpperCase c).
Proof.
  unfold unsupportedCurrency, checkedCurrency.
  destruct word as [c |]; cbn [option_map]; [| discriminate].
  intros H. apply negb_false_iff in H. exists c. split; [reflexivity |].
  rewrite H.
  destruct (toUpperCase c); [discriminate H | reflexivity].
Qed.

Lemma checkedAmount_valid (amountStr : option string) :
  invalidAmount (parseInt amountStr) = false ->
  exists a, checkedAmount amountStr = Ok a.
Proof.
  unfold checkedAmount. intros H.
  exists (parseInt amountStr). now rewrite H.
Qed.

(** X11.  In both structured parsers, once the anchors are found and the
    amount is valid, a currency token that is missing, or that is ASCII
    text whose uppercase form is not one of [NGN], [USD], [GBP], [GHS],
    makes the parser fail with [UNSUPPORTED_CURRENCY]; and the currency
    of every instruction that is returned is the uppercase form of that
    token and belongs to the set. *)
Theorem currency_must_be_supported (words : list string) :
  (debitAnchorsFound words ->
   invalidAmount (parseInt (at_index words (findKeywordIndex words "debit" 0 + 1))) = false ->
   (forall c, at_index words (findKeywordIndex words "debit" 0 + 2) = Some c ->
              isAsciiText c = true) ->
   unsupportedCurrency (at_index words (findKeywordIndex words "debit" 0 + 2)) = true ->
   parseDebitFormat words = Err (AppError UNSUPPORTED_CURRENCY INVLDDATA)) /\
  (forall parsed, parseDebitFormat words = Ok parsed ->
   option_map toUpperCase (at_index words (findKeywordIndex words "debit" 0 + 2)) =
     Some (currency parsed) /\
   In (currency parsed) SUPPORTED_CURRENCIES) /\
  (creditAnchorsFound words ->
   invalidAmount (parseInt (at_index words (findKeywordIndex words "credit" 0 + 1))) = false ->
   (forall c, at_index words (findKeywordIndex words "credit" 0 + 2) = Some c ->
              isAsciiText c = true) ->
   unsupportedCurrency (at_index words (findKeywordIndex words "credit" 0 + 2)) = true ->
   parseCreditFormat words = Err (AppError UNSUPPORTED_CURRENCY INVLDDATA)) /\
  (forall parsed, parseCreditFormat words = Ok parsed ->
   option_map toUpperCase (at_index words (findKeywordIndex words "credit" 0 + 2)) =
     Some (currency parsed) /\
   In (currency parsed) SUPPORTED_CURRENCIES).
Proof.
  assert (Hin : forall word c, checkedCurrency word = Ok c ->
            option_map toUpperCase word = Some c /\ In c SUPPORTED_CURRENCIES).
  { intros word c H. apply checkedCurrency_Ok in H.
    destruct H as (Hsup & token & -> & ->). split; [reflexivity |].
    unfold array_includes in Hsup. apply existsb_exists in Hsup.
    destruct Hsup as (x & Hx & Heq). apply String.eqb_eq in Heq. now subst x. }
  split; [| split; [| split]].
  - intros Hfound Hamount _ Hcur. apply debit_guard_iff in Hfound.
    unfold parseDebitFormat. rewrite Hfound. cbn [throwIf bind].
    destruct (checkedAmount_valid _ Hamount) as (a & ->). cbn [bind].
    now rewrite (checkedCurrency_unsupported _ Hcur).
  - intros parsed H. unfold parseDebitFormat in H.
    apply bind_Ok_inv in H. destruct H as (u & _ & H).
    apply bind_Ok_inv in H. destruct H as (a & _ & H).
    apply bind_Ok_inv in H. destruct H as (c & Hc & H).
    apply bind_Ok_inv in H. destruct H as (u1 & _ & H).
    apply bind_Ok_inv in H. destruct H as (u2 & _ & H).
    inversion H; subst; clear H. cbn [currency]. now apply Hin.
  - intros Hfound Hamount _ Hcur. apply credit_guard_iff in Hfound.
    unfold parseCreditFormat. rewrite Hfound. cbn [throwIf bind].
    destruct (checkedAmount_valid _ Hamount) as (a & ->). cbn [bind].
    now rewrite (checkedCurrency_unsupported _ Hcur).
  - intros parsed H. unfold parseCreditFormat in H.
    apply bind_Ok_inv in H. destruct H as (u & _ & H).
    apply bind_Ok_inv in H. destruct H as (a & _ & H).
    apply bind_Ok_inv in H. destruct H as (c & Hc & H).
    apply bind_Ok_inv in H. destruct H as (u1 & _ & H).
    apply bind_Ok_inv in H. destruct H as (u2 & _ & H).
    inversion H; subst; clear H. cbn [currency]. now apply Hin.
Qed.

Lemma currency_must_be_supported_example :
  parseDebitFormat ["Debit"; "500"; "EUR"; "from"; "Account"; "A001"; "for";
                    "credit"; "to"; "Account"; "B002"] =
  Err (AppError UNSUPPORTED_CURRENCY INVLDDATA).
Proof.
  apply (proj1 (currency_must_be_supported
                  ["Debit"; "500"; "EUR"; "from"; "Account"; "A001"; "for";
                   "credit"; "to"; "Account"; "B002"])).
  - unfold debitAnchorsFound. vm_compute. repeat split; discriminate.
  - vm_compute. reflexivity.
  - intros c H. vm_compute in H. inversion H; subst. reflexivity.
  - reflexivity.
Defined.

(** X12.  In both structured parsers, once the anchors are found and
    amount and currency are accepted, the token that follows [from] and
    the token that follows the located [to] must each be [account] (in
    any letter case), else the parser fails with [MISSING_KEYWORD]; and
    the account ids of every instruction that is returned are the tokens
    that follow those two [account] keywords ([undefined] where the
    tokens end). *)
Theorem account_keyword_required (words : list string) :
  let debitIndex := findKeywordIndex words "debit" 0 in
  let fromIndex := findKeywordIndex words "from" 0 in
  let toIndex := findKeywordIndex words "to" (findKeywordIndex words "for" 0 + 1) in
  let creditIndex' := findKeywordIndex words "credit" 0 in
  let toIndex' := findKeywordIndex words "to" 0 in
  let fromIndex' := findKeywordIndex words "from" (findKeywordIndex words "for" 0 + 1) in
  (debitAnchorsFound words ->
   invalidAmount (parseInt (at_index words (debitIndex + 1))) = false ->
   unsupportedCurrency (at_index words (debitIndex + 2)) = false ->
   notAccountKeyword (at_index words (fromIndex + 1)) = true \/
   notAccountKeyword (at_index words (toIndex + 1)) = true ->
   parseDebitFormat words = Err (AppError MISSING_KEYWORD INVLDDATA)) /\
  (forall parsed, parseDebitFormat words = Ok parsed ->
   notAccountKeyword (at_index words (fromIndex + 1)) = false /\
   notAccountKeyword (at_index words (toIndex + 1)) = false /\
   debit_account parsed = at_index words (fromIndex + 2) /\
   credit_account parsed = at_index words (toIndex + 2)) /\
  (creditAnchorsFound words ->
   invalidAmount (parseInt (at_index words (creditIndex' + 1))) = false ->
   unsupportedCurrency (at_index words (creditIndex' + 2)) = false ->
   notAccountKeyword (at_index words (toIndex' + 1)) = true \/
   notAccountKeyword (at_index words (fromIndex' + 1)) = true ->
   parseCreditFormat words = Err (AppError MISSING_KEYWORD INVLDDATA)) /\
  (forall parsed, parseCreditFormat words = Ok parsed ->
   notAccountKeyword (at_index words (toIndex' + 1)) = false /\
   notAccountKeyword (at_index words (fromIndex' + 1)) = false /\
   credit_account parsed = at_index words (toIndex' + 2) /\
   debit_account parsed = at_index words (fromIndex' + 2)).
Proof.
  cbv zeta.
  assert (Hplus : forall i, i + 1 + 1 = i + 2) by (intros; lia).
  split; [| split; [| split]].
  - intros Hfound Hamount Hcur Hkw. apply debit_guard_iff in Hfound.
    unfold parseDebitFormat. rewrite Hfound. cbn [throwIf bind].
    destruct (checkedAmount_valid _ Hamount) as (a & ->). cbn [bind].
    destruct (checkedCurrency_supported _ Hcur) as (c & _ & ->). cbn [bind].
    destruct (notAccountKeyword (at_index words (findKeywordIndex words "from" 0 + 1)));
      [reflexivity |].
    destruct Hkw as [Hkw | Hkw]; [discriminate Hkw |]. cbn [bind].
    now rewrite Hkw.
  - intros parsed H. unfold parseDebitFormat in H.
    apply bind_Ok_inv in H. destruct H as (u & _ & H).
    apply bind_Ok_inv in H. destruct H as (a & _ & H).
    apply bind_Ok_inv in H. destruct H as (c & _ & H).
    apply bind_Ok_inv in H. destruct H as (u1 & H1 & H).
    apply bind_Ok_inv in H. destruct H as (u2 & H2 & H).
    inversion H; subst; clear H. cbn [debit_account credit_account].
    rewrite !Hplus.
    unfold throwIf in H1, H2.
    destruct (notAccountKeyword (at_index words (findKeywordIndex words "from" 0 + 1)));
      [discriminate H1 |].
    destruct (notAccountKeyword
                (at_index words
                   (findKeywordIndex words "to" (findKeywordIndex words "for" 0 + 1) + 1)));
      [discriminate H2 |].
    auto.
  - intros Hfound Hamount Hcur Hkw. apply credit_guard_iff in Hfound.
    unfold parseCreditFormat. rewrite Hfound. cbn [throwIf bind].
    destruct (checkedAmount_valid _ Hamount) as (a & ->). cbn [bind].
    destruct (checkedCurrency_supported _ Hcur) as (c & _ & ->). cbn [bind].
    destruct (notAccountKeyword (at_index words (findKeywordIndex words "to" 0 + 1)));
      [reflexivity |].
    destruct Hkw as [Hkw | Hkw]; [discriminate Hkw |]. cbn [bind].
    now rewrite Hkw.
  - intros parsed H. unfold parseCreditFormat in H.
    apply bind_Ok_inv in H. destruct H as (u & _ & H).
    apply bind_Ok_inv in H. destruct H as (a & _ & H).
    apply bind_Ok_inv in H. destruct H as (c & _ & H).
    apply bind_Ok_inv in H. destruct H as (u1 & H1 & H).
    apply bind_Ok_inv in H. destruct H as (u2 & H2 & H).
    inversion H; subst; clear H. cbn [debit_account credit_account].
    rewrite !Hplus.
    unfold throwIf in H1, H2.
    destruct (notAccountKeyword (at_index words (findKeywordIndex words "to" 0 + 1)));
      [discriminate H1 |].
    destruct (notAccountKeyword
                (at_index words
                   (findKeywordIndex words "from" (findKeywordIndex words "for" 0 + 1) + 1)));
      [discriminate H2 |].
    auto.
Qed.

Lemma account_keyword_required_example :
  parseDebitFormat ["Debit"; "500"; "NGN"; "from"; "A001"; "for";
                    "credit"; "to"; "Account"; "B002"] =
  Err (AppError MISSING_KEYWORD INVLDDATA).
Proof.
  apply (proj1 (account_keyword_required
                  ["Debit"; "500"; "NGN"; "from"; "A001"; "for";
                   "credit"; "to"; "Account"; "B002"])).
  - unfold debitAnchorsFound. vm_compute. repeat split; discriminate.
  - vm_compute. reflexivity.
  - reflexivity.
  - left. reflexivity.
Defined.

(** X13.  The credit-format parser makes its four lookups like the
    debit-format one: the first [credit], the first [to] and the first
    [for], each from the start of the tokens, and the first [from] at or
    after the index that follows [for]; it fails with
    [INVALID_KEYWORD_ORDER] exactly when one of the four finds
    nothing. *)
Theorem parseCreditFormat_anchor_lookups (words : list string) :
  parseCreditFormat words = Err (AppError INVALID_KEYWORD_ORDER INVLDDATA) <->
  ~ creditAnchorsFound words.
Proof.
  rewrite <- credit_guard_iff. unfold parseCreditFormat.
  destruct ((findKeywordIndex words "credit" 0 =? -1) || _ || _ || _ || _)%bool eqn:G.
  - split; [intros _; discriminate | reflexivity].
  - split; [| intros H; now contradiction H].
    intros H. exfalso. cbn [throwIf bind] in H.
    unfold checkedAmount, checkedCurrency, throwIf, throwAppError in H.
    case_steps H.
Qed.

Lemma parseCreditFormat_anchor_lookups_example :
  parseCreditFormat ["Credit"; "500"; "NGN"; "to"; "Account"; "B002"; "for"; "debit";
                     "Account"; "A001"] =
  Err (AppError INVALID_KEYWORD_ORDER INVLDDATA).
Proof.
  apply (proj2 (parseCreditFormat_anchor_lookups
                  ["Credit"; "500"; "NGN"; "to"; "Account"; "B002"; "for"; "debit";
                   "Account"; "A001"])).
  unfold creditAnchorsFound. vm_compute. intros H. decompose [and] H. congruence.
Defined.

(** ** The failures of a run *)

Lemma failure_is_typed_or_TypeError (h : Host) (data : ServiceData) (e : failure) :
  parseInstruction h data = Err e ->
  e = TypeError \/
  exists m, e = AppError m INVLDDATA /\ In m failureMessages.
Proof.
  unfold parseInstruction.
  destruct (parseInstructionText (trim (instruction data))) as [parsed | e'] eqn:Hparse.
  - cbn [bind].
    destruct (validateParsedData h parsed (accounts data)) as [[] | e'] eqn:Hvalid;
      cbn [bind]; [discriminate |].
    intros H. inversion H; subst; clear H.
    destruct (debit_account parsed) as [d |] eqn:Hd.
    + destruct (credit_account parsed) as [c |] eqn:Hc.
      * rewrite (validateParsedData_rules h parsed (accounts data) Hd Hc) in Hvalid.
        right. unfold nineRules in Hvalid. cbn [reportFirst] in Hvalid.
        unfold failureMessages.
        repeat match type of Hvalid with
               | (if ?b then _ else _) = _ =>
                   destruct b;
                   [inversion Hvalid; subst; eexists; split;
                    [reflexivity | cbn [In]; tauto] |]
               end.
        discriminate Hvalid.
      * unfold validateParsedData in Hvalid. rewrite Hd, Hc in Hvalid.
        cbn [isValidAccountId bind] in Hvalid.
        destruct (isValidAccountIdStr d); cbn [negb throwIf bind] in Hvalid;
          inversion Hvalid.
        -- now left.
        -- right. eexists. split; [reflexivity | unfold failureMessages; cbn [In]; tauto].
    + left. unfold validateParsedData in Hvalid. rewrite Hd in Hvalid.
      now inversion Hvalid.
  - cbn [bind]. intros H. inversion H; subst; clear H. right.
    unfold failureMessages.
    unfold parseInstructionText in Hparse.
    destruct (looksLikeDebit _).
    + unfold parseDebitFormat, checkedAmount, checkedCurrency, throwIf, throwAppError
        in Hparse.
      repeat match type of Hparse with
             | context [if ?b then _ else _] =>
                 destruct b; cbn [bind] in Hparse; try discriminate;
                 try (inversion Hparse; subst; eexists; split;
                      [reflexivity | cbn [In]; tauto])
             | context [match ?b with _ => _ end] =>
                 destruct b; cbn [bind] in Hparse; try discriminate;
                 try (inversion Hparse; subst; eexists; split;
                      [reflexivity | cbn [In]; tauto])
             end.
    + destruct (looksLikeCredit _).
      * unfold parseCreditFormat, checkedAmount, checkedCurrency, throwIf, throwAppError
          in Hparse.
        repeat match type of Hparse with
               | context [if ?b then _ else _] =>
                   destruct b; cbn [bind] in Hparse; try discriminate;
                   try (inversion Hparse; subst; eexists; split;
                        [reflexivity | cbn [In]; tauto])
               | context [match ?b with _ => _ end] =>
                   destruct b; cbn [bind] in Hparse; try discriminate;
                   try (inversion Hparse; subst; eexists; split;
                        [reflexivity | cbn [In]; tauto])
               end.
      * inversion Hparse; subst. eexists. split; [reflexivity | cbn [In]; tauto].
Qed.

(** X14.  A run fails only in two ways: with one of the eleven typed
    failures of the parser and the validator, each carrying the code
    [INVLDDATA], or with a [TypeError], and then the text was parsed into
    an instruction that lacks an account id.  The two status messages are
    never thrown. *)
Theorem failures_of_a_run (h : Host) (data : ServiceData) (e : failure) :
  parseInstruction h data = Err e ->
  (e = TypeError /\
   exists parsed,
     parseInstructionText (trim (instruction data)) = Ok parsed /\
     (debit_account parsed = None \/ credit_account parsed = None)) \/
  (exists m, e = AppError m INVLDDATA /\ In m failureMessages).
Proof.
  intros H. destruct (failure_is_typed_or_TypeError h data H) as [-> | Htyped].
  - left. split; [reflexivity |]. now apply (untyped_failure_only_from_missing_id h).
  - now right.
Qed.

Lemma failures_of_a_run_example :
  (AppError INSUFFICIENT_FUNDS INVLDDATA = TypeError /\
   exists parsed,
     parseInstructionText
       (trim "Debit 5000 NGN from Account A001 for credit to Account B002") = Ok parsed /\
     (debit_account parsed = None \/ credit_account parsed = None)) \/
  (exists m, AppError INSUFFICIENT_FUNDS INVLDDATA = AppError m INVLDDATA /\
             In m failureMessages).
Proof.
  apply (@failures_of_a_run host_utc
           (mkServiceData example_accounts
              "Debit 5000 NGN from Account A001 for credit to Account B002")).
  vm_compute. reflexivity.
Defined.

(** ** The canonical CREDIT sentence *)

Lemma includes_no_space (w q : string) :
  allChars notSpace w = true -> includes w (String " " q) = false.
Proof.
  induction w as [| c w IH]; cbn [allChars includes startsWith]; [reflexivity |].
  intros H. apply andb_true_iff in H. destruct H as [Hc Hw].
  rewrite (IH Hw). unfold notSpace in Hc. apply negb_true_iff in Hc.
  rewrite Ascii.eqb_sym, Hc. reflexivity.
Qed.

(** A phrase that starts with a space is found after a word either at the
    space that ends the word or further on. *)
Lemma includes_after_word (w rest q : string) :
  allChars notSpace w = true ->
  includes (w ++ String " " rest) (String " " q) =
  (startsWith rest q || includes rest (String " " q))%bool.
Proof.
  induction w as [| c w IH]; intros H.
  - cbn [append includes startsWith]. now rewrite Ascii.eqb_refl.
  - cbn [allChars] in H. apply andb_true_iff in H. destruct H as [Hc Hw].
    cbn [append includes startsWith]. rewrite (IH Hw).
    unfold notSpace in Hc. apply negb_true_iff in Hc.
    rewrite Ascii.eqb_sym, Hc. reflexivity.
Qed.

(** A phrase whose first word is [p] starts a text whose first word is
    [w] only if the two words are equal. *)
Lemma startsWith_word (w rest p q : string) :
  allChars notSpace w = true ->
  allChars notSpace p = true ->
  startsWith (w ++ String " " rest) (p ++ String " " q) =
  (String.eqb w p && startsWith rest q)%bool.
Proof.
  revert w. induction p as [| a p IH]; intros w Hw Hp.
  - destruct w as [| c w]; cbn [append startsWith String.eqb].
    + now rewrite Ascii.eqb_refl.
    + cbn [allChars] in Hw. apply andb_true_iff in Hw. destruct Hw as [Hc _].
      unfold notSpace in Hc. apply negb_true_iff in Hc.
      now rewrite Ascii.eqb_sym, Hc.
  - cbn [allChars] in Hp. apply andb_true_iff in Hp. destruct Hp as [Ha Hp].
    destruct w as [| c w]; cbn [append startsWith String.eqb].
    + unfold notSpace in Ha. apply negb_true_iff in Ha. now rewrite Ha.
    + cbn [allChars] in Hw. apply andb_true_iff in Hw. destruct Hw as [_ Hw].
      rewrite (IH w Hw Hp), (Ascii.eqb_sym a c).
      destruct (Ascii.eqb c a); reflexivity.
Qed.

Lemma startsWith_no_space (w p q : string) :
  allChars notSpace w = true -> startsWith w (p ++ String " " q) = false.
Proof.
  revert w. induction p as [| a p IH]; intros w Hw.
  - destruct w as [| c w]; cbn [append startsWith]; [reflexivity |].
    cbn [allChars] in Hw. apply andb_true_iff in Hw. destruct Hw as [Hc _].
    unfold notSpace in Hc. apply negb_true_iff in Hc.
    now rewrite Ascii.eqb_sym, Hc.
  - destruct w as [| c w]; cbn [append startsWith]; [reflexivity |].
    cbn [allChars] in Hw. apply andb_true_iff in Hw. destruct Hw as [_ Hw].
    rewrite (IH w Hw). apply andb_false_r.
Qed.

Lemma includes_inner (s a b : string) :
  includes s (a ++ b) = true -> includes s a = true.
Proof.
  assert (Hsw : forall s, startsWith s (a ++ b) = true -> startsWith s a = true).
  { induction a as [| c a IH]; intros s0 H; [reflexivity |].
    destruct s0 as [| c0 s0]; cbn [append startsWith] in *; [discriminate H |].
    apply andb_true_iff in H. destruct H as [Hc H].
    now rewrite Hc, (IH s0 H). }
  induction s as [| c s IH]; cbn [includes]; intros H.
  - apply orb_true_iff in H. destruct H as [H | H]; [| discriminate H].
    now rewrite (Hsw _ H).
  - apply orb_true_iff in H. destruct H as [H | H].
    + now rewrite (Hsw _ H).
    + rewrite (IH H). apply orb_true_r.
Qed.

Lemma includes_tail (s c b : string) :
  includes s (c ++ b) = true -> includes s b = true.
Proof.
  revert s. induction c as [| x c IH]; intros s H; [exact H |].
  apply IH. clear IH.
  induction s as [| y s IHs]; cbn [includes append startsWith] in H.
  - discriminate H.
  - apply orb_true_iff in H. destruct H as [H | H].
    + apply andb_true_iff in H. destruct H as [_ H].
      cbn [includes]. apply orb_true_iff. right. now apply includes_here.
    + cbn [includes]. apply orb_true_iff. right. now apply IHs.
Qed.

Lemma lowerChar_space (c : ascii) : notSpace c = true -> notSpace (lowerChar c) = true.
Proof. destruct c as [[] [] [] [] [] [] [] []]; intros H; exact H || reflexivity. Qed.

Lemma toLowerCase_no_space (w : string) :
  allChars notSpace w = true -> allChars notSpace (toLowerCase w) = true.
Proof.
  unfold toLowerCase.
  induction w as [| c w IH]; cbn [mapString allChars]; [auto |].
  intros H. apply andb_true_iff in H. destruct H as [Hc Hw].
  now rewrite (lowerChar_space c Hc), (IH Hw).
Qed.

(** The CREDIT sentence mentions [debit] and [from account], but never
    the phrase [for credit to account]: the format detector sends it to
    the credit-format parser. *)
Lemma detector_canonical_credit (amt cur debit credit : string) :
  isDecimal amt = true ->
  array_includes SUPPORTED_CURRENCIES (toUpperCase cur) = true ->
  allChars notSpace debit = true ->
  allChars notSpace credit = true ->
  looksLikeDebit (toLowerCase (canonicalCreditText amt cur debit credit)) = false /\
  looksLikeCredit (toLowerCase (canonicalCreditText amt cur debit credit)) = true.
Proof.
  intros Hdec Hcur Hsd Hsc.
  destruct (isDecimal_facts amt Hdec) as (_ & Hsa & _ & Hdigit).
  destruct (currency_facts cur Hcur) as (_ & Hscur & _).
  apply toLowerCase_no_space in Hsa, Hscur, Hsd, Hsc.
  assert (Ka : String.eqb (toLowerCase amt) "credit" = false)
    by (apply (digit_first_not_keyword amt "credit" Hdigit); reflexivity).
  assert (Kc : String.eqb (toLowerCase cur) "credit" = false)
    by (apply (currency_not_keyword cur "credit" Hcur); reflexivity).
  unfold canonicalCreditText. rewrite !toLowerCase_app.
  set (la := toLowerCase amt) in *. set (lc := toLowerCase cur) in *.
  set (ld := toLowerCase debit) in *. set (lx := toLowerCase credit) in *.
  split.
  - unfold looksLikeDebit.
    match goal with
    | |- (_ && includes ?s _)%bool = false =>
        assert (H : includes s " credit to " = false); [| 
          destruct (includes s "for credit to account") eqn:E; [| apply andb_false_r];
          change "for credit to account" with ("for" ++ (" credit to " ++ "account")) in E;
          apply includes_tail, includes_inner in E; congruence ]
    end.
    change (toLowerCase "Credit " ++ la ++ toLowerCase " " ++ lc ++
            toLowerCase " to Account " ++ lx ++
            toLowerCase " for debit from Account " ++ ld)
      with ("credit" ++ String " " (la ++ String " " (lc ++ String " "
            ("to" ++ String " " ("account" ++ String " " (lx ++ String " "
            ("for" ++ String " " ("debit" ++ String " " ("from" ++ String " "
            ("account" ++ String " " ld)))))))))).
    change " credit to " with (String " " ("credit" ++ String " " ("to" ++ String " " ""))).
    rewrite !includes_after_word by (assumption || reflexivity).
    rewrite (@includes_no_space ld _ Hsd).
    rewrite !startsWith_word by (assumption || reflexivity).
    rewrite (@startsWith_no_space ld "credit" _ Hsd).
    rewrite Ka, Kc. cbn [andb orb String.eqb Ascii.eqb Bool.eqb].
    rewrite !andb_false_r. reflexivity.
  - unfold looksLikeCredit.
    apply andb_true_iff. split; [apply andb_true_iff; split |].
    + reflexivity.
    + do 4 apply includes_app_r.
      match goal with
      | |- includes (_ ++ ?rest) _ = true =>
          change (includes (" " ++ "to account" ++ " " ++ rest) "to account" = true)
      end.
      apply includes_middle.
    + do 6 apply includes_app_r.
      match goal with
      | |- includes (_ ++ ?rest) _ = true =>
          change (includes (" " ++ "for debit from account" ++ " " ++ rest)
                           "for debit from account" = true)
      end.
      apply includes_middle.
Qed.

Lemma tokenize_canonical_credit (amt cur debit credit : string) :
  amt <> "" -> allChars notSpace amt = true ->
  cur <> "" -> allChars notSpace cur = true ->
  debit <> "" -> allChars notSpace debit = true ->
  credit <> "" -> allChars notSpace credit = true ->
  tokenize (canonicalCreditText amt cur debit credit) =
  ["Credit"; amt; cur; "to"; "Account"; credit; "for"; "debit"; "from"; "Account"; debit].
Proof.
  intros Ha Hsa Hc Hsc Hd Hsd He Hse.
  assert (Hlen : forall w, w <> "" -> Nat.ltb 0 (String.length w) = true)
    by (intros [| c w] Hw; [congruence | reflexivity]).
  unfold tokenize, canonicalCreditText.
  change ("Credit " ++ amt ++ " " ++ cur ++ " to Account " ++ credit ++
          " for debit from Account " ++ debit)
    with ("Credit" ++ String " " (amt ++ String " " (cur ++ String " "
          ("to" ++ String " " ("Account" ++ String " " (credit ++ String " "
          ("for" ++ String " " ("debit" ++ String " " ("from" ++ String " "
          ("Account" ++ String " " debit)))))))))).
  rewrite !split_space_word by (assumption || reflexivity).
  rewrite (split_space_last debit Hsd).
  cbn [filter]. rewrite !Hlen by (assumption || discriminate). reflexivity.
Qed.

Lemma trim_canonical_credit (amt cur debit credit : string) :
  debit <> "" ->
  allChars (fun c => negb (isWhiteSpace c)) debit = true ->
  trim (canonicalCreditText amt cur debit credit) = canonicalCreditText amt cur debit credit.
Proof.
  intros Hne Hws. unfold trim, canonicalCreditText.
  change (trimStart ("Credit " ++ amt ++ " " ++ cur ++ " to Account " ++ credit ++
                     " for debit from Account " ++ debit))
    with ("Credit " ++ amt ++ " " ++ cur ++ " to Account " ++ credit ++
          " for debit from Account " ++ debit).
  apply (trimEnd_fixed_app "Credit "), trimEnd_fixed_app, (trimEnd_fixed_app " "),
    trimEnd_fixed_app, (trimEnd_fixed_app " to Account "), trimEnd_fixed_app,
    (trimEnd_fixed_app " for debit from Account ").
  split; [assumption | now apply trimEnd_nonempty].
Qed.

(** The tokens of the CREDIT sentence are read as the transfer they
    spell, provided the credit account is not called [on]. *)
Lemma parseCreditFormat_canonical (amt cur debit credit : string) :
  isDecimal amt = true ->
  0 < decimalValue amt ->
  array_includes SUPPORTED_CURRENCIES (toUpperCase cur) = true ->
  toLowerCase credit <> "on" ->
  parseCreditFormat
    ["Credit"; amt; cur; "to"; "Account"; credit; "for"; "debit"; "from"; "Account"; debit] =
  Ok {| type := CREDIT;
        amount := num (decimalValue amt);
        currency := toUpperCase cur;
        debit_account := Some debit;
        credit_account := Some credit;
        execute_by := None |}.
Proof.
  intros Hdec Hpos Hcur Hon.
  destruct (isDecimal_facts amt Hdec) as (_ & _ & _ & Hdigit).
  destruct (currency_facts cur Hcur) as (_ & _ & Hchecked).
  assert (Ka : forall keyword, startsWithDigit (toLowerCase keyword) = false ->
             String.eqb (toLowerCase amt) (toLowerCase keyword) = false)
    by (intros keyword; now apply digit_first_not_keyword).
  assert (Kc : forall keyword,
             array_includes SUPPORTED_CURRENCIES (toUpperCase (toLowerCase keyword)) = false ->
             String.eqb (toLowerCase cur) (toLowerCase keyword) = false)
    by (intros keyword; now apply currency_not_keyword).
  assert (Kd : String.eqb (toLowerCase credit) (toLowerCase "on") = false)
    by now apply String.eqb_neq.
  set (words := ["Credit"; amt; cur; "to"; "Account"; credit; "for"; "debit"; "from";
                 "Account"; debit]).
  assert (Hcredit : findKeywordIndex words "credit" 0 = 0).
  { unfold findKeywordIndex, words. cbn [Z.to_nat skipn].
    now rewrite findKeywordLoop_hit. }
  assert (Hto : findKeywordIndex words "to" 0 = 3).
  { unfold findKeywordIndex, words. cbn [Z.to_nat skipn].
    rewrite findKeywordLoop_skip by reflexivity.
    rewrite findKeywordLoop_skip by (apply Ka; reflexivity).
    rewrite findKeywordLoop_skip by (apply Kc; reflexivity).
    now rewrite findKeywordLoop_hit. }
  assert (Hfor : findKeywordIndex words "for" 0 = 5 \/ findKeywordIndex words "for" 0 = 6).
  { unfold findKeywordIndex, words. cbn [Z.to_nat skipn].
    rewrite findKeywordLoop_skip by reflexivity.
    rewrite findKeywordLoop_skip by (apply Ka; reflexivity).
    rewrite findKeywordLoop_skip by (apply Kc; reflexivity).
    rewrite findKeywordLoop_skip by reflexivity.
    rewrite findKeywordLoop_skip by reflexivity.
    destruct (String.eqb (toLowerCase credit) (toLowerCase "for")) eqn:E.
    - left. now rewrite findKeywordLoop_hit.
    - right. rewrite findKeywordLoop_skip by assumption.
      now rewrite findKeywordLoop_hit. }
  assert (Hfrom : findKeywordIndex words "from" (findKeywordIndex words "for" 0 + 1) = 8).
  { destruct Hfor as [-> | ->]; reflexivity. }
  assert (Hon' : executeByOf words = None).
  { unfold executeByOf.
    assert (Hidx : findKeywordIndex words "on" 0 = 10 \/ findKeywordIndex words "on" 0 = -1).
    { unfold findKeywordIndex, words. cbn [Z.to_nat skipn].
      rewrite findKeywordLoop_skip by reflexivity.
      rewrite findKeywordLoop_skip by (apply Ka; reflexivity).
      rewrite findKeywordLoop_skip by (apply Kc; reflexivity).
      rewrite findKeywordLoop_skip by reflexivity.
      rewrite findKeywordLoop_skip by reflexivity.
      rewrite findKeywordLoop_skip by assumption.
      rewrite findKeywordLoop_skip by reflexivity.
      rewrite findKeywordLoop_skip by reflexivity.
      rewrite findKeywordLoop_skip by reflexivity.
      rewrite findKeywordLoop_skip by reflexivity.
      destruct (String.eqb (toLowerCase debit) (toLowerCase "on")) eqn:E.
      - left. now rewrite findKeywordLoop_hit.
      - right. now rewrite findKeywordLoop_skip by assumption. }
    destruct Hidx as [-> | ->]; reflexivity. }
  unfold parseCreditFormat. fold words. cbv zeta.
  rewrite Hon', Hfrom, Hcredit, Hto.
  assert (Hguard :
    ((0 =? -1) || (3 =? -1) || (findKeywordIndex words "for" 0 =? -1) ||
     (findKeywordIndex words "for" 0 + 1 =? -1) || (8 =? -1))%bool = false)
    by (destruct Hfor as [-> | ->]; reflexivity).
  rewrite Hguard. cbn [throwIf bind].
  change (at_index words (0 + 1)) with (Some amt).
  rewrite (checkedAmount_decimal amt Hdec Hpos). cbn [bind].
  change (at_index words (0 + 2)) with (Some cur).
  rewrite Hchecked. cbn [bind].
  change (notAccountKeyword (at_index words (3 + 1))) with false.
  change (notAccountKeyword (at_index words (8 + 1))) with false.
  cbn [throwIf bind]. reflexivity.
Qed.

Lemma parseInstructionText_canonical_credit (amt cur debit credit : string) :
  isDecimal amt = true ->
  0 < decimalValue amt ->
  array_includes SUPPORTED_CURRENCIES (toUpperCase cur) = true ->
  isValidAccountIdStr debit = true ->
  isValidAccountIdStr credit = true ->
  toLowerCase credit <> "on" ->
  parseInstructionText (trim (canonicalCreditText amt cur debit credit)) =
  Ok {| type := CREDIT;
        amount := num (decimalValue amt);
        currency := toUpperCase cur;
        debit_account := Some debit;
        credit_account := Some credit;
        execute_by := None |}.
Proof.
  intros Hdec Hpos Hcur Hd Hc Hon.
  destruct (isDecimal_facts amt Hdec) as (Ha & Hsa & _ & _).
  destruct (currency_facts cur Hcur) as (Hcne & Hsc & _).
  destruct (valid_id_facts debit Hd) as (Hdne & Hsd & Hws).
  destruct (valid_id_facts credit Hc) as (Hcrne & Hscr & _).
  rewrite (@trim_canonical_credit amt cur debit credit Hdne Hws).
  unfold parseInstructionText.
  destruct (@detector_canonical_credit amt cur debit credit Hdec Hcur Hsd Hscr) as [-> ->].
  rewrite (@tokenize_canonical_credit amt cur debit credit Ha Hsa Hcne Hsc Hdne Hsd Hcrne Hscr).
  now apply parseCreditFormat_canonical.
Qed.

(** X15.  The two surface forms describe one transfer: for a positive
    decimal amount, a supported currency in any letter case and two
    well-formed account ids neither of which is called [on], the sentence
    [Credit <amt> <cur> to Account <credit> for debit from Account
    <debit>] has the outcome of [Debit <amt> <cur> from Account <debit>
    for credit to Account <credit>] on every account set and in every
    host: the same failure, or the same response but for its [type],
    which is [CREDIT]. *)
Theorem credit_sentence_mirrors_debit (h : Host) (accts : list Account.t)
    (amt cur debit credit : string) :
  isDecimal amt = true ->
  0 < decimalValue amt ->
  array_includes SUPPORTED_CURRENCIES (toUpperCase cur) = true ->
  isValidAccountIdStr debit = true ->
  isValidAccountIdStr credit = true ->
  toLowerCase debit <> "on" ->
  toLowerCase credit <> "on" ->
  parseInstruction h (mkServiceData accts (canonicalCreditText amt cur debit credit)) =
  match parseInstruction h (mkServiceData accts (canonicalDebitText amt cur debit credit)) with
  | Ok response => Ok (retyped CREDIT response)
  | Err e => Err e
  end.
Proof.
  intros Hdec Hpos Hcur Hd Hc Hond Honc.
  unfold parseInstruction. cbn [accounts instruction].
  rewrite (@parseInstructionText_canonical amt cur debit credit Hdec Hpos Hcur Hd Hc Hond).
  rewrite (@parseInstructionText_canonical_credit amt cur debit credit Hdec Hpos Hcur Hd Hc Honc).
  cbn [bind].
  match goal with
  | |- bind (validateParsedData h ?p accts) _ = match bind (validateParsedData h ?q accts) _ with _ => _ end =>
      replace (validateParsedData h p accts) with (validateParsedData h q accts)
        by reflexivity;
      destruct (validateParsedData h q accts) as [[] | e]
  end; cbn [bind]; reflexivity.
Qed.

Lemma credit_sentence_mirrors_debit_example :
  parseInstruction host_utc
    (mkServiceData example_accounts "Credit 500 NGN to Account B002 for debit from Account A001") =
  match parseInstruction host_utc (mkServiceData example_accounts example_instruction) with
  | Ok response => Ok (retyped CREDIT response)
  | Err e => Err e
  end.
Proof.
  apply (@credit_sentence_mirrors_debit host_utc example_accounts "500" "NGN" "A001" "B002");
    try reflexivity; discriminate.
Defined.

(** ** The decision over time *)

Lemma localToday_monotone (h h' : Host) :
  LocalTZA h' = LocalTZA h -> now h <= now h' -> localToday h <= localToday h'.
Proof.
  intros Htz Hnow. unfold localToday, Day, LocalTime. rewrite Htz.
  apply Z.div_le_mono; unfold msPerDay; lia.
Qed.

(** X16.  An instruction that is due stays due: for a date written
    [YYYY-MM-DD] (1970 or later) and two hosts in the same zone, the
    second with a later clock, if [shouldExecuteNow] answers [true] on the
    first it answers [true] on the second. *)
Theorem due_instruction_stays_due (h h' : Host) (s : string) (Y M D : Z) :
  isoDateOnly s = Some (Y, M, D) ->
  0 <= days_from_civil Y M D ->
  0 <= localToday h ->
  - msPerDay <= LocalTZA h < msPerDay ->
  LocalTZA h' = LocalTZA h ->
  now h <= now h' ->
  shouldExecuteNow h (Some s) = true ->
  shouldExecuteNow h' (Some s) = true.
Proof.
  intros Hiso Hepoch Htoday Htz Hsame Hnow.
  pose proof (localToday_monotone h h' Hsame Hnow) as Hmono.
  rewrite (shouldExecuteNow_compares_local_days h s Hiso Hepoch Htoday Htz).
  rewrite (@shouldExecuteNow_compares_local_days h' s Y M D Hiso Hepoch)
    by (rewrite ?Hsame; lia || assumption).
  rewrite Hsame, !Z.leb_le. lia.
Qed.

Lemma due_instruction_stays_due_example :
  shouldExecuteNow
    {| now := msPerDay * days_from_civil 2026 11 2; LocalTZA := 0;
       hostDateParse := fun _ => None |} (Some "2026-11-01") = true.
Proof.
  apply (@due_instruction_stays_due host_utc
           {| now := msPerDay * days_from_civil 2026 11 2; LocalTZA := 0;
              hostDateParse := fun _ => None |} "2026-11-01" 2026 11 1);
    try reflexivity; vm_compute; try split; congruence.
Defined.

Lemma dated_run_east_of_utc_example :
  let response :=
    {| Response.type := DEBIT;
       Response.amount := num 500;
       Response.currency := "NGN";
       Response.debit_account := Some "A001";
       Response.credit_account := Some "B002";
       Response.execute_by := Some "2099-01-01";
       Response.status := "pending";
       Response.status_reason := TRANSACTION_PENDING;
       Response.status_code := "AP02";
       Response.accounts :=
         [ {| Projected.id := "A001"; Projected.balance := num 1000;
              Projected.balance_before := num 1000; Projected.currency := "NGN" |};
           {| Projected.id := "B002"; Projected.balance := num 200;
              Projected.balance_before := num 200; Projected.currency := "NGN" |} ] |} in
  (localToday host_utc < days_from_civil 2099 1 1 ->
   Response.status response = "pending" /\
   Response.status_code response = "AP02" /\
   forall a, In a (Response.accounts response) ->
             Projected.balance a = Projected.balance_before a) /\
  (days_from_civil 2099 1 1 <= localToday host_utc ->
   Response.status response = "successful" /\
   Response.status_code response = "AP00").
Proof.
  apply (@dated_run_east_of_utc host_utc
           (mkServiceData example_accounts (example_instruction ++ " on 2099-01-01"))
           _ "2099-01-01" 2099 1 1 pending_example);
    try reflexivity; vm_compute; try split; congruence.
Defined.

Lemma shouldExecuteNow_west_of_utc_example :
  shouldExecuteNow host_west (Some "2099-01-01") = true.
Proof.
  apply (@shouldExecuteNow_west_of_utc host_west "2099-01-01" 2099 1 1);
    try reflexivity; vm_compute; try split; congruence.
Defined.
